(** * agent-browser plugin: session registry, recording coordinator, cleanup service

    A shallow embedding of [src/index.ts] (the [ab_*] revision, second half of
    the file; the older [browser_*] revision has the same [getSession], close
    tool and cleanup service).  The module-level [sessions] map, the session
    objects it refers to, the wall clock, the armed interval timers and the
    calls made on collaborators (engine, ffmpeg, file system, S3) are gathered
    in a [World]; each function of the source becomes a computation in a small
    state-and-exception monad over it.

    JavaScript runs one synchronous segment at a time.  An [async] function is
    therefore cut at its [await]s: the tools are given run-to-completion
    semantics (no other task runs between their segments), and [getSession] is
    in addition exposed as its two segments, so that overlapping calls can be
    scheduled explicitly.  What a collaborator answers is not decided by this
    code: it is supplied as a [Collaborators] record, and a promise may be
    fulfilled or rejected.

    Conventions: [Date.now()] reads the clock of the world, which stands still
    within a step and is moved by [advance]; session objects live in a heap
    and the registry holds references to them, as the [Map] does; the trace
    records calls in the order they are made, and a launch is tagged with the
    session name on whose behalf it is made.  The tools [ab_snapshot],
    [ab_interact], [ab_query], [ab_tabs] and [ab_settings] resolve the session
    and dispatch one envelope exactly as [ab_navigate] does, with other
    parameters; [ab_advanced] dispatches any action with any parameters. *)

From stdpp Require Import gmap strings list fin_maps pretty.
From Stdlib Require Import ZArith Ascii.

(** ** JavaScript [Map] / object literal with string keys

    Insertion-ordered, keys unique; [set] on a present key replaces the value
    in place, [delete] drops the entry. *)
Module JsMap.
Section Ops.
Context {V : Type}.

Fixpoint get (k : string) (m : list (string * V)) : option V :=
  match m with
  | [] => None
  | (k', v) :: m' => if decide (k = k') then Some v else get k m'
  end.

Fixpoint set (k : string) (v : V) (m : list (string * V)) : list (string * V) :=
  match m with
  | [] => [(k, v)]
  | (k', v') :: m' =>
      if decide (k = k') then (k, v) :: m' else (k', v') :: set k v m'
  end.

Fixpoint delete (k : string) (m : list (string * V)) : list (string * V) :=
  match m with
  | [] => []
  | (k', v) :: m' =>
      if decide (k = k') then delete k m' else (k', v) :: delete k m'
  end.

Definition size (m : list (string * V)) : Z := Z.of_nat (length m).

Definition keys (m : list (string * V)) : list string := m.*1.
End Ops.
End JsMap.

(** ** Data model *)

(** Identity of a [BrowserManager] object.  A [SessionState] literal is built
    around exactly one freshly made browser, so the session object is stored
    under its browser's identity. *)
Definition Handle := nat.

Inductive Value :=
| VUndefined
| VNull
| VBool (b : bool)
| VNum (z : Z)
| VStr (s : string)
| VJson (text : string).   (* an array, object or fractional number, kept as text *)

(** JavaScript truthiness. *)
Definition truthy (v : Value) : bool :=
  match v with
  | VUndefined | VNull => false
  | VBool b => b
  | VNum z => negb (z =? 0)%Z
  | VStr s => negb (String.eqb s "")
  | VJson _ => true
  end.

(** An optional string property read off [params]. *)
Definition prop (o : option string) : Value :=
  match o with
  | Some s => VStr s
  | None => VUndefined
  end.

(** Command envelope: the object literal handed to [executeCommand]. *)
Definition Command := list (string * Value).

Definition cmd_action (c : Command) : option Value := JsMap.get "action" c.

(** Result envelope returned by [executeCommand] ([any] in the source). *)
Record ResultEnvelope := {
  success : bool;
  data : option (list (string * Value));
}.

Record R2Config := {
  accountId : string;
  bucket : string;
  publicDomain : option string;
}.

Record PluginConfig := {
  r2 : option R2Config;
  headless : option bool;
  viewport : option (Z * Z);
  gif : option bool;               (* gif?.enabled *)
  video : option (Z * Z);          (* speedUpAfter, maxSpeedup: never read *)
  maxConcurrent : option Z;
  idleTimeoutMs : option Z;
}.

Record SessionState := {
  browser : Handle;
  lastActivity : Z;
  recording : bool;
  recordingPath : option string;
}.

Definition with_lastActivity (t : Z) (s : SessionState) : SessionState :=
  {| browser := browser s; lastActivity := t;
     recording := recording s; recordingPath := recordingPath s |}.

Definition with_recording (r : bool) (s : SessionState) : SessionState :=
  {| browser := browser s; lastActivity := lastActivity s;
     recording := r; recordingPath := recordingPath s |}.

Definition with_recordingPath (p : option string) (s : SessionState) : SessionState :=
  {| browser := browser s; lastActivity := lastActivity s;
     recording := recording s; recordingPath := p |}.

(** Calls made on collaborators, in the order they are made. *)
Inductive Event :=
| EvLaunch (sessionName : string) (b : Handle) (headless : bool) (viewport : Z * Z)
| EvExecute (cmd : Command) (b : Handle)
| EvBrowserClose (b : Handle)
| EvConvertToGif (inputPath outputPath : string)
| EvReadFile (path : option string)
| EvS3Send (bucket key contentType : string)
| EvLog (msg : string)
| EvSetInterval (ms : Z).

Record World := {
  sessions : list (string * Handle);   (* const sessions = new Map<string, SessionState>() *)
  heap : gmap Handle SessionState;     (* the SessionState objects *)
  next : Handle;                       (* next fresh object identity *)
  clock : Z;                           (* Date.now() *)
  timers : list Z;                     (* armed setInterval timers, by period *)
  trace : list Event;
}.

Definition initial (t : Z) : World :=
  {| sessions := []; heap := ∅; next := 0; clock := t; timers := []; trace := [] |}.

Definition advance (t : Z) (w : World) : World :=
  {| sessions := sessions w; heap := heap w; next := next w;
     clock := t; timers := timers w; trace := trace w |}.

(** ** Computations: state plus JavaScript exceptions *)

Inductive Completion (A : Type) :=
| Return (a : A)
| Throw (e : string).
Arguments Return {A} a.
Arguments Throw {A} e.

Definition M (A : Type) : Type := World -> Completion A * World.

Definition ret {A} (a : A) : M A := fun w => (Return a, w).

Definition bind {A B} (c : M A) (k : A -> M B) : M B :=
  fun w => match c w with
           | (Return a, w') => k a w'
           | (Throw e, w') => (Throw e, w')
           end.

Definition throw {A} (e : string) : M A := fun w => (Throw e, w).

Definition complete {A} (c : Completion A) : M A := fun w => (c, w).

Definition try_catch {A} (c : M A) (handler : string -> M A) : M A :=
  fun w => match c w with
           | (Return a, w') => (Return a, w')
           | (Throw e, w') => handler e w'
           end.

Declare Scope js_scope.
Delimit Scope js_scope with js.
Notation "'let!' x ':=' c 'in' k" := (bind c (fun x => k))
  (at level 10, x name, c at level 100, k at level 200) : js_scope.
Notation "c ';;;' k" := (bind c (fun _ => k))
  (at level 100, k at level 200, right associativity) : js_scope.
Local Open Scope js_scope.

(** A promise as its await sees it. *)
Inductive Settled (A : Type) :=
| Fulfilled (a : A)
| Rejected (e : string).
Arguments Fulfilled {A} a.
Arguments Rejected {A} e.

Definition await {A} (p : Settled A) : M A :=
  match p with
  | Fulfilled a => ret a
  | Rejected e => throw e
  end.

(** What the collaborators answer during one call of a tool or hook. *)
Record Collaborators := {
  on_launch : Settled unit;                              (* browser.launch(...) *)
  on_executeCommand : Command -> Settled ResultEnvelope; (* the engine, per envelope *)
  on_close : Handle -> Settled unit;                     (* browser.close() *)
  on_execSync : Settled unit;                            (* ffmpeg *)
  on_readFileSync : Settled unit;
  on_send : Settled unit;                                (* s3Client.send(...) *)
}.

(** *** Primitive effects *)

Definition Date_now : M Z := fun w => (Return (clock w), w).

Definition emit (e : Event) : M unit :=
  fun w => (Return tt,
            {| sessions := sessions w; heap := heap w; next := next w;
               clock := clock w; timers := timers w; trace := trace w ++ [e] |}).

Definition new_BrowserManager : M Handle :=
  fun w => (Return (next w),
            {| sessions := sessions w; heap := heap w; next := S (next w);
               clock := clock w; timers := timers w; trace := trace w |}).

Definition put_sessions (m : list (string * Handle)) (w : World) : World :=
  {| sessions := m; heap := heap w; next := next w;
     clock := clock w; timers := timers w; trace := trace w |}.

Definition put_heap (h : gmap Handle SessionState) (w : World) : World :=
  {| sessions := sessions w; heap := h; next := next w;
     clock := clock w; timers := timers w; trace := trace w |}.

Definition sessions_get (name : string) : M (option Handle) :=
  fun w => (Return (JsMap.get name (sessions w)), w).

Definition sessions_size : M Z :=
  fun w => (Return (JsMap.size (sessions w)), w).

Definition sessions_entries : M (list (string * Handle)) :=
  fun w => (Return (sessions w), w).

Definition sessions_set (name : string) (s : Handle) : M unit :=
  fun w => (Return tt, put_sessions (JsMap.set name s (sessions w)) w).

Definition sessions_delete (name : string) : M unit :=
  fun w => (Return tt, put_sessions (JsMap.delete name (sessions w)) w).

Definition sessions_clear : M unit :=
  fun w => (Return tt, put_sessions [] w).

(** Build the object literal [{ browser, lastActivity, recording }]. *)
Definition new_session (st : SessionState) : M Handle :=
  fun w => (Return (browser st), put_heap (<[browser st := st]> (heap w)) w).

(** Field access through a session reference; a reference to nothing is the
    [TypeError] JavaScript raises on [undefined]. *)
Definition deref (s : Handle) : M SessionState :=
  fun w => match heap w !! s with
           | Some st => (Return st, w)
           | None => (Throw "TypeError: session is undefined", w)
           end.

Definition assign (f : SessionState -> SessionState) (s : Handle) : M unit :=
  let! st := deref s in
  fun w => (Return tt, put_heap (<[s := f st]> (heap w)) w).

(** [setInterval(callback, ms)]: the returned timer identity is dropped by the
    caller, so only the armed timer itself is recorded. *)
Definition setInterval (ms : Z) : M unit :=
  emit (EvSetInterval ms);;;
  fun w => (Return tt,
            {| sessions := sessions w; heap := heap w; next := next w;
               clock := clock w; timers := timers w ++ [ms]; trace := trace w |}).

(** ** getSession (index.ts 638-668)

    [getSession_enter] is the segment up to [await browser.launch(...)];
    [getSession_resume] is the segment after it. *)

Inductive Entered :=
| Found (session : Handle)
| Launching (b : Handle).

Definition getSession_enter (sessionName : string) (config : PluginConfig) : M Entered :=
  let! session := sessions_get sessionName in
  match session with
  | Some s =>
      let! now := Date_now in
      assign (with_lastActivity now) s;;;
      ret (Found s)
  | None =>
      let! size := sessions_size in
      if bool_decide (size >= default 3 (maxConcurrent config))%Z then
        throw ("Max concurrent sessions ("
               +:+ pretty (default 3%Z (maxConcurrent config)) +:+ ") reached")
      else
        let! b := new_BrowserManager in
        emit (EvLaunch sessionName b
                (default true (headless config))
                (default (1280, 720)%Z (viewport config)));;;
        ret (Launching b)
  end.

Definition getSession_resume (sessionName : string) (b : Handle)
    (launched : Settled unit) : M Handle :=
  await launched;;;
  let! now := Date_now in
  let! s := new_session {| browser := b; lastActivity := now;
                           recording := false; recordingPath := None |} in
  sessions_set sessionName s;;;
  let! now' := Date_now in
  assign (with_lastActivity now') s;;;
  ret s.

Definition getSession (io : Collaborators) (sessionName : string)
    (config : PluginConfig) : M Handle :=
  let! e := getSession_enter sessionName config in
  match e with
  | Found s => ret s
  | Launching b => getSession_resume sessionName b (on_launch io)
  end.

(** ** String helpers of the tools *)

(** [s.replace(pat, rep)] with a string pattern: the first occurrence only. *)
Fixpoint replace (pat rep s : string) : string :=
  if String.prefix pat s then rep +:+ String.substring (String.length pat)
                                        (String.length s - String.length pat) s
  else match s with
       | EmptyString => EmptyString
       | String c s' => String c (replace pat rep s')
       end.

(** [s.split("/").pop()]: what follows the last slash. *)
Fixpoint split_pop (s cur : string) : string :=
  match s with
  | EmptyString => cur
  | String c s' =>
      if Ascii.eqb c "/"%char then split_pop s' EmptyString
      else split_pop s' (cur +:+ String c EmptyString)
  end.

(** [a || b] on optional strings. *)
Definition or_else (a : option string) (b : string) : string :=
  match a with
  | Some s => if truthy (VStr s) then s else b
  | None => b
  end.

(** [{ ...base, ...extra }]: later keys overwrite earlier ones in place. *)
Definition spread (base extra : list (string * Value)) : list (string * Value) :=
  fold_left (fun acc kv => JsMap.set kv.1 kv.2 acc) extra base.

Fixpoint for_of {A} (l : list A) (body : A -> M unit) : M unit :=
  match l with
  | [] => ret tt
  | x :: l' => body x;;; for_of l' body
  end.

(** The [params] object of a tool call ([any] in the source): the properties
    the tools below read. *)
Record Params := {
  p_session : string;
  p_url : option string;
  p_waitUntil : option string;
  p_action : option string;
  p_selector : option string;
  p_value : option string;
  p_label : option string;
  p_device : option string;
  p_fullPage : option bool;
  p_params : option (list (string * Value));
}.

(** The object a tool serialises into its text content. *)
Inductive Payload :=
| PError (error : string)                       (* { error } *)
| PResult (result : ResultEnvelope)             (* the result envelope itself *)
| PRecording (label : string)                   (* { recording: true, label } *)
| PMedia (localPath remoteUrl : option string)
         (frames : option Value) (markdown : option string)
| PClosed                                       (* { closed: true } *)
| PCatalog (actions : list string).

Definition AVAILABLE_ACTIONS : list string :=
  ["launch"; "navigate"; "click"; "dblclick"; "type"; "fill"; "check"; "uncheck";
   "upload"; "focus"; "drag"; "press"; "hover"; "select"; "scroll";
   "screenshot"; "snapshot"; "evaluate"; "wait"; "content"; "close";
   "frame"; "mainframe"; "getbyrole"; "getbytext"; "getbylabel"; "getbyplaceholder";
   "tab_new"; "tab_list"; "tab_switch"; "tab_close"; "window_new";
   "cookies_get"; "cookies_set"; "cookies_clear";
   "storage_get"; "storage_set"; "storage_clear";
   "dialog"; "pdf"; "route"; "unroute"; "requests"; "download";
   "geolocation"; "permissions"; "viewport"; "useragent"; "device";
   "back"; "forward"; "reload"; "url"; "title";
   "getattribute"; "gettext"; "isvisible"; "isenabled"; "ischecked"; "count";
   "recording_start"; "recording_stop"; "recording_restart"].

(** [Date.now().toString()] *)
Definition fresh_id : M Value :=
  let! now := Date_now in ret (VStr (pretty now)).

(** [executeCommand(cmd, browser)] of agent-browser. *)
Definition executeCommand (io : Collaborators) (cmd : Command) (b : Handle)
    : M ResultEnvelope :=
  emit (EvExecute cmd b);;;
  await (on_executeCommand io cmd).

(** [browser.close()] *)
Definition browser_close (io : Collaborators) (b : Handle) : M unit :=
  emit (EvBrowserClose b);;;
  await (on_close io b).

(** [promise.catch(() => {})] *)
Definition swallow (c : M unit) : M unit := try_catch c (fun _ => ret tt).

(** index.ts 700-703 *)
Definition convertToGif (io : Collaborators) (inputPath outputPath : string) : M unit :=
  emit (EvConvertToGif inputPath outputPath);;;
  await (on_execSync io).

(** ** The tools and the cleanup service registered by [register(api)] *)

Section Plugin.
(** [pluginConfig = api.config || {}] , whether [initR2Client] produced a
    client, the temp directory and [path.join] of Node. *)
Variable pluginConfig : PluginConfig.
Variable s3Client : bool.
Variable tempDir : string.
Variable join : string -> string -> string.

(** index.ts 671-697 *)
Definition uploadToR2 (io : Collaborators) (localPath : option string)
    (remoteName contentType : string) : M (option string) :=
  match s3Client, r2 pluginConfig with
  | true, Some cfg =>
      emit (EvReadFile localPath);;;
      await (on_readFileSync io);;;
      let key := "agent-browser/" +:+ remoteName in
      emit (EvS3Send (bucket cfg) key contentType);;;
      await (on_send io);;;
      match publicDomain cfg with
      | Some d =>
          if truthy (VStr d) then ret (Some ("https://" +:+ d +:+ "/" +:+ key))
          else ret (Some ("https://" +:+ bucket cfg +:+ "." +:+ accountId cfg
                          +:+ ".r2.dev/" +:+ key))
      | None => ret (Some ("https://" +:+ bucket cfg +:+ "." +:+ accountId cfg
                           +:+ ".r2.dev/" +:+ key))
      end
  | _, _ => ret None
  end.

(** index.ts 735-742 *)
Definition ab_open (io : Collaborators) (params : Params) : M Payload :=
  let! session := getSession io (p_session params) pluginConfig in
  let! id := fresh_id in
  let! st := deref session in
  let! result := executeCommand io
      [("id", id); ("action", VStr "navigate"); ("url", prop (p_url params));
       ("waitUntil", VStr (default "load" (p_waitUntil params)))]
      (browser st) in
  ret (PResult result).

(** index.ts 757-764 *)
Definition ab_navigate (io : Collaborators) (params : Params) : M Payload :=
  let! session := getSession io (p_session params) pluginConfig in
  let! id := fresh_id in
  let! st := deref session in
  let! result := executeCommand io
      [("id", id); ("action", prop (p_action params))] (browser st) in
  ret (PResult result).

(** index.ts 801-808 *)
Definition ab_click (io : Collaborators) (params : Params) : M Payload :=
  let! session := getSession io (p_session params) pluginConfig in
  let! id := fresh_id in
  let! st := deref session in
  let! result := executeCommand io
      [("id", id); ("action", VStr "click"); ("selector", prop (p_selector params))]
      (browser st) in
  ret (PResult result).

(** index.ts 824-831 *)
Definition ab_fill (io : Collaborators) (params : Params) : M Payload :=
  let! session := getSession io (p_session params) pluginConfig in
  let! id := fresh_id in
  let! st := deref session in
  let! result := executeCommand io
      [("id", id); ("action", VStr "fill"); ("selector", prop (p_selector params));
       ("value", prop (p_value params))]
      (browser st) in
  ret (PResult result).

(** index.ts 915-947 *)
Definition ab_screenshot (io : Collaborators) (params : Params) : M Payload :=
  let! session := getSession io (p_session params) pluginConfig in
  (if truthy (prop (p_device params)) then
     let! id := fresh_id in
     let! st := deref session in
     executeCommand io
       [("id", id); ("action", VStr "device"); ("device", prop (p_device params))]
       (browser st);;;
     ret tt
   else ret tt);;;
  let! now := Date_now in
  let label := or_else (p_label params) ("screenshot-" +:+ pretty now) in
  let filename := p_session params +:+ "-" +:+ label +:+ ".png" in
  let localPath := join tempDir filename in
  let! id := fresh_id in
  let! st := deref session in
  executeCommand io
    [("id", id); ("action", VStr "screenshot"); ("path", VStr localPath);
     ("fullPage", VBool (default false (p_fullPage params)))]
    (browser st);;;
  let! remoteUrl := uploadToR2 io (Some localPath) filename "image/png" in
  ret (PMedia (Some localPath) remoteUrl None
         (match remoteUrl with
          | Some u => if truthy (VStr u)
                      then Some ("![" +:+ label +:+ "](" +:+ u +:+ ")") else None
          | None => None
          end)).

(** index.ts 962-981 *)
Definition ab_record_start (io : Collaborators) (params : Params) : M Payload :=
  let! session := getSession io (p_session params) pluginConfig in
  let! st := deref session in
  if recording st then ret (PError "Already recording")
  else
    let! now := Date_now in
    let label := or_else (p_label params) ("recording-" +:+ pretty now) in
    let filename := p_session params +:+ "-" +:+ label +:+ ".webm" in
    let localPath := join tempDir filename in
    let! id := fresh_id in
    executeCommand io
      [("id", id); ("action", VStr "recording_start"); ("path", VStr localPath)]
      (browser st);;;
    assign (with_recording true) session;;;
    assign (with_recordingPath (Some localPath)) session;;;
    ret (PRecording label).

(** [result.data?.path || session.recordingPath]; a truthy path that is not
    a string has no [replace] / [split] method, which is a [TypeError] at
    the first use below. *)
Definition final_path (result : ResultEnvelope) (st : SessionState)
    : Completion (option string) :=
  match data result ≫= JsMap.get "path" with
  | Some v =>
      if truthy v then
        match v with
        | VStr p => Return (Some p)
        | _ => Throw "TypeError: finalPath is not a string"
        end
      else Return (recordingPath st)
  | None => Return (recordingPath st)
  end.

(** index.ts 1032-1035: the [markdown] property; the link text of a video is
    the text of the source file. *)
Definition recording_markdown (remoteUrl : option string) (contentType : string)
    : option string :=
  match remoteUrl with
  | Some u =>
      if truthy (VStr u) then
        if String.eqb contentType "image/gif"
        then Some ("![recording](" +:+ u +:+ ")")
        else Some ("[ðŸŽ¬ Recording](" +:+ u +:+ ")")
      else None
  | None => None
  end.

(** index.ts 1008-1038: the tail of the record-stop tool, from
    [let finalPath = ...] to its [return]. *)
Definition record_stop_finish (io : Collaborators) (session : Handle)
    (result : ResultEnvelope) : M Payload :=
  let! st := deref session in
  let! finalPath := complete (final_path result st) in
  let! converted :=
    match finalPath with
    | Some p =>
        if default false (gif pluginConfig) && truthy (VStr p) then
          let gifPath := replace ".webm" ".gif" p in
          try_catch
            (convertToGif io p gifPath;;;
             ret (Some gifPath, "image/gif"))
            (fun e =>
               emit (EvLog ("[agent-browser] GIF conversion failed: " +:+ e));;;
               ret (Some p, "video/webm"))
        else ret (Some p, "video/webm")
    | None => ret (None, "video/webm")
    end in
  let finalPath := converted.1 in
  let contentType := converted.2 in
  let filename :=
    or_else ((fun p => split_pop p EmptyString) <$> finalPath) "video.webm" in
  let! remoteUrl := uploadToR2 io finalPath filename contentType in
  ret (PMedia finalPath remoteUrl
         (data result ≫= JsMap.get "frames")
         (recording_markdown remoteUrl contentType)).

(** index.ts 995-1039 *)
Definition ab_record_stop (io : Collaborators) (params : Params) : M Payload :=
  let! session := getSession io (p_session params) pluginConfig in
  let! st := deref session in
  if negb (recording st) then ret (PError "Not recording")
  else
    let! id := fresh_id in
    let! result := executeCommand io
        [("id", id); ("action", VStr "recording_stop")] (browser st) in
    assign (with_recording false) session;;;
    record_stop_finish io session result.

(** index.ts 1109-1119 *)
Definition ab_close (io : Collaborators) (params : Params) : M Payload :=
  let! session := sessions_get (p_session params) in
  match session with
  | None => ret (PError "Session not found")
  | Some s =>
      let! id := fresh_id in
      let! st := deref s in
      executeCommand io [("id", id); ("action", VStr "close")] (browser st);;;
      sessions_delete (p_session params);;;
      ret PClosed
  end.

(** index.ts 1135-1164 *)
Definition ab_advanced (io : Collaborators) (params : Params) : M Payload :=
  if negb (truthy (prop (p_action params))) then ret (PCatalog AVAILABLE_ACTIONS)
  else
    let! session := getSession io (p_session params) pluginConfig in
    let! id := fresh_id in
    let cmd := spread [("id", id); ("action", prop (p_action params))]
                      (default [] (p_params params)) in
    let! st := deref session in
    let! result := executeCommand io cmd (browser st) in
    ret (PResult result).

(** *** Service [agent-browser-cleanup] (index.ts 1168-1191) *)

(** The callback given to [setInterval].  The loop body removes only the
    entry being visited, which the iterator of a [Map] tolerates: every
    entry present at the start is visited once, in insertion order.  The
    promise of [close()] is not awaited and its rejection is swallowed. *)
Definition reaper_tick (io : Collaborators) : M unit :=
  let! now := Date_now in
  let timeout := default 300000%Z (idleTimeoutMs pluginConfig) in
  let! entries := sessions_entries in
  for_of entries (fun entry =>
    let name := entry.1 in
    let! session := deref entry.2 in
    if bool_decide (now - lastActivity session > timeout)%Z then
      emit (EvLog ("[agent-browser] Closing idle session: " +:+ name));;;
      swallow (browser_close io (browser session));;;
      sessions_delete name
    else ret tt).

Definition cleanup_start : M unit := setInterval 60000.

(** index.ts 1184-1190, run in one go: the stop hook with nothing else
    running between its awaits.  Its segments, between which reaper ticks
    and tool calls can run, are [step_stop] below; lemma
    [cleanup_stop_as_segments] relates the two. *)
Definition cleanup_stop (io : Collaborators) : M unit :=
  let! entries := sessions_entries in
  for_of entries (fun entry =>
    let name := entry.1 in
    let! session := deref entry.2 in
    emit (EvLog ("[agent-browser] Closing session on shutdown: " +:+ name));;;
    swallow (browser_close io (browser session)));;;
  sessions_clear.

End Plugin.

(** ** Overlapping [getSession] calls

    A call is [Ready] before its first segment runs, [Awaiting] the launch of
    its browser in between, and [Finished] with its completion afterwards.
    A schedule says which of two calls runs its next segment, and what the
    clock reads by then. *)

Inductive Task :=
| Ready
| Awaiting (b : Handle)
| Finished (r : Completion Handle).

Definition step_task (sessionName : string) (config : PluginConfig)
    (launched : Settled unit) (t : Task) (w : World) : Task * World :=
  match t with
  | Ready =>
      match getSession_enter sessionName config w with
      | (Return (Found s), w') => (Finished (Return s), w')
      | (Return (Launching b), w') => (Awaiting b, w')
      | (Throw e, w') => (Finished (Throw e), w')
      end
  | Awaiting b =>
      match getSession_resume sessionName b launched w with
      | (r, w') => (Finished r, w')
      end
  | Finished r => (Finished r, w)
  end.

Fixpoint run_pair (sessionName : string) (config : PluginConfig)
    (launched1 launched2 : Settled unit) (schedule : list (bool * Z))
    (t1 t2 : Task) (w : World) : Task * Task * World :=
  match schedule with
  | [] => (t1, t2, w)
  | (true, now) :: rest =>
      match step_task sessionName config launched1 t1 (advance now w) with
      | (t1', w') => run_pair sessionName config launched1 launched2 rest t1' t2 w'
      end
  | (false, now) :: rest =>
      match step_task sessionName config launched2 t2 (advance now w) with
      | (t2', w') => run_pair sessionName config launched1 launched2 rest t1 t2' w'
      end
  end.


(** ** Reading the trace *)

#[global] Instance Value_eq_dec : EqDecision Value.
Proof. solve_decision. Defined.

Definition is_launch_for (sessionName : string) (e : Event) : bool :=
  match e with
  | EvLaunch n _ _ _ => bool_decide (n = sessionName)
  | _ => false
  end.

Definition is_dispatch_of (action : string) (e : Event) : bool :=
  match e with
  | EvExecute cmd _ => bool_decide (cmd_action cmd = Some (VStr action))
  | _ => false
  end.

Definition is_close_of (b : Handle) (e : Event) : bool :=
  match e with
  | EvBrowserClose b' => bool_decide (b' = b)
  | _ => false
  end.

Definition is_execute (e : Event) : bool :=
  match e with
  | EvExecute _ _ => true
  | _ => false
  end.

Definition occurrences (f : Event -> bool) (tr : list Event) : nat :=
  length (List.filter f tr).

Definition launches (sessionName : string) : list Event -> nat :=
  occurrences (is_launch_for sessionName).

Definition dispatched (action : string) : list Event -> nat :=
  occurrences (is_dispatch_of action).

Definition closes (b : Handle) : list Event -> nat :=
  occurrences (is_close_of b).

(** The world after a session object has had its [lastActivity] stamped. *)
Definition touched (s : Handle) (st : SessionState) (w : World) : World :=
  put_heap (<[s := with_lastActivity (clock w) st]> (heap w)) w.


(** ** Operations as data, and what holds of a world *)

Inductive Op :=
| Open (params : Params)
| Navigate (params : Params)
| Click (params : Params)
| Fill (params : Params)
| Screenshot (params : Params)
| RecordStart (params : Params)
| RecordStop (params : Params)
| Close (params : Params)
| Advanced (params : Params)
| ServiceStart
| ReaperTick
| ServiceStop
| Elapse (now : Z).

Section Operations.
Variable pluginConfig : PluginConfig.
Variable s3Client : bool.
Variable tempDir : string.
Variable join : string -> string -> string.

(** One step of the plugin's life: a tool call, a service hook, the clock
    moving on, or the event loop firing the reaper callback, which it does
    only while an interval timer is armed. *)
Definition run_op (io : Collaborators) (op : Op) (w : World) : World :=
  match op with
  | Open p => (ab_open pluginConfig io p w).2
  | Navigate p => (ab_navigate pluginConfig io p w).2
  | Click p => (ab_click pluginConfig io p w).2
  | Fill p => (ab_fill pluginConfig io p w).2
  | Screenshot p => (ab_screenshot pluginConfig s3Client tempDir join io p w).2
  | RecordStart p => (ab_record_start pluginConfig tempDir join io p w).2
  | RecordStop p => (ab_record_stop pluginConfig s3Client io p w).2
  | Close p => (ab_close io p w).2
  | Advanced p => (ab_advanced pluginConfig io p w).2
  | ServiceStart => (cleanup_start w).2
  | ReaperTick =>
    match timers w with
    | [] => w
    | _ :: _ => (reaper_tick pluginConfig io w).2
    end
  | ServiceStop => (cleanup_stop io w).2
  | Elapse now => advance now w
  end.
End Operations.

(** A session that is recording has its artifact path. *)
Definition recording_has_path (w : World) : Prop :=
  forall s st, heap w !! s = Some st ->
    recording st = true -> is_Some (recordingPath st).

(** The artifact path is there exactly while recording. *)
Definition path_iff_recording (w : World) : Prop :=
  forall s st, heap w !! s = Some st ->
    (is_Some (recordingPath st) <-> recording st = true).

(** The registry is a [Map]: its names are distinct, and so are the session
    objects they refer to, each of which exists and wraps its own browser. *)
Definition registry_ok (w : World) : Prop :=
  NoDup (JsMap.keys (sessions w)) /\
  NoDup (sessions w).*2 /\
  Forall (fun e => exists st, heap w !! e.2 = Some st /\ browser st = e.2)
         (sessions w).

(** Moreover every session object of the registry was allocated before. *)
Definition registry_inv (w : World) : Prop :=
  registry_ok w /\ Forall (fun e => e.2 < next w) (sessions w).

Definition registry_okb (w : World) : bool :=
  bool_decide (NoDup (JsMap.keys (sessions w))) &&
  bool_decide (NoDup (sessions w).*2) &&
  forallb (fun e => match heap w !! e.2 with
                    | Some st => bool_decide (browser st = e.2)
                    | None => false
                    end) (sessions w).

(** The idle test of the reaper, on a registry entry. *)
Definition is_idle (config : PluginConfig) (w : World) (e : string * Handle) : bool :=
  match heap w !! e.2 with
  | Some st =>
      bool_decide (clock w - lastActivity st > default 300000 (idleTimeoutMs config))%Z
  | None => false
  end.

Definition reap_events (config : PluginConfig) (w : World) (e : string * Handle)
    : list Event :=
  if is_idle config w e then
    [EvLog ("[agent-browser] Closing idle session: " +:+ e.1);
     EvBrowserClose (from_option browser e.2 (heap w !! e.2))]
  else [].

Definition drain_events (w : World) (e : string * Handle) : list Event :=
  [EvLog ("[agent-browser] Closing session on shutdown: " +:+ e.1);
   EvBrowserClose (from_option browser e.2 (heap w !! e.2))].

Definition with_trace (tr : list Event) (w : World) : World :=
  {| sessions := sessions w; heap := heap w; next := next w;
     clock := clock w; timers := timers w; trace := tr |}.

(** A computation keeps an invariant of the world, however it completes. *)
Definition keeps (I : World -> Prop) {A} (c : M A) : Prop :=
  forall w, I w -> I (c w).2.

Fixpoint run_ops (pluginConfig : PluginConfig) (s3Client : bool) (tempDir : string)
    (join : string -> string -> string) (steps : list (Collaborators * Op))
    (w : World) : World :=
  match steps with
  | [] => w
  | (io, op) :: rest =>
      run_ops pluginConfig s3Client tempDir join rest
        (run_op pluginConfig s3Client tempDir join io op w)
  end.

(** ** The envelopes and worlds the tools produce *)

Definition close_cmd (w : World) : Command :=
  [("id", VStr (pretty (clock w))); ("action", VStr "close")].

Definition recording_label (params : Params) (w : World) : string :=
  or_else (p_label params) ("recording-" +:+ pretty (clock w)).

Definition recording_file (tempDir : string) (join : string -> string -> string)
    (params : Params) (w : World) : string :=
  join tempDir (p_session params +:+ "-" +:+ recording_label params w +:+ ".webm").

Definition recording_start_cmd (localPath : string) (w : World) : Command :=
  [("id", VStr (pretty (clock w))); ("action", VStr "recording_start");
   ("path", VStr localPath)].

Definition recording_stop_cmd (w : World) : Command :=
  [("id", VStr (pretty (clock w))); ("action", VStr "recording_stop")].

(** The world in which record-stop reaches the upload after ffmpeg failed
    with [e] on the artifact [p]. *)
Definition conversion_failed (s : Handle) (st : SessionState) (p e : string)
    (w : World) : World :=
  put_heap (<[s := {| browser := browser st; lastActivity := clock w;
                      recording := false; recordingPath := recordingPath st |}]>
              (heap w))
    (with_trace (trace w ++ [EvExecute (recording_stop_cmd w) (browser st);
                             EvConvertToGif p (replace ".webm" ".gif" p);
                             EvLog ("[agent-browser] GIF conversion failed: " +:+ e)])
       w).

(** The world after [getSession] has created a session for [name]. *)
Definition created (name : string) (config : PluginConfig) (w : World) : World :=
  {| sessions := JsMap.set name (next w) (sessions w);
     heap := <[next w := {| browser := next w; lastActivity := clock w;
                            recording := false; recordingPath := None |}]> (heap w);
     next := S (next w);
     clock := clock w;
     timers := timers w;
     trace := trace w ++ [EvLaunch name (next w)
                            (default true (headless config))
                            (default (1280, 720)%Z (viewport config))] |}.

(** A call that has either not started or has returned session [n]. *)
Definition settled_on (n : Handle) (t : Task) : Prop :=
  t = Ready \/ t = Finished (Return n).

Definition pick {A} (b : bool) (x1 x2 : A) : A := if b then x1 else x2.

(** ** Sample data *)

Module Sample.
Definition config : PluginConfig :=
  {| r2 := None; headless := Some true; viewport := Some (1280, 720)%Z;
     gif := Some true; video := None;
     maxConcurrent := Some 2%Z; idleTimeoutMs := None |}.

Definition stopped : ResultEnvelope :=
  {| success := true;
     data := Some [("path", VStr "/tmp/test.webm"); ("frames", VNum 100)] |}.

(** An engine that answers every envelope, and an ffmpeg that fails. *)
Definition io : Collaborators :=
  {| on_launch := Fulfilled tt;
     on_executeCommand := fun _ => Fulfilled stopped;
     on_close := fun _ => Rejected "Target closed";
     on_execSync := Rejected "Command failed: ffmpeg";
     on_readFileSync := Fulfilled tt;
     on_send := Fulfilled tt |}.

(** An engine whose dispatch rejects. *)
Definition io_rejecting : Collaborators :=
  {| on_launch := Fulfilled tt;
     on_executeCommand := fun _ => Rejected "Browser has been closed";
     on_close := fun _ => Rejected "Target closed";
     on_execSync := Rejected "Command failed: ffmpeg";
     on_readFileSync := Fulfilled tt;
     on_send := Fulfilled tt |}.

Definition tempDir : string := "/tmp/agent-browser-plugin".

Definition join (dir file : string) : string := dir +:+ "/" +:+ file.

Definition params (session : string) : Params :=
  {| p_session := session; p_url := Some "https://example.com";
     p_waitUntil := None; p_action := None; p_selector := None;
     p_value := None; p_label := Some "walkthrough"; p_device := None;
     p_fullPage := None; p_params := None |}.

(** One session [s1], opened at time 1000. *)
Definition w1 : World := (ab_open config io (params "s1") (initial 1000)).2.

(** Two sessions: the registry is full. *)
Definition w2 : World := (ab_open config io (params "s2") (advance 2000 w1)).2.

(** [s1] is recording. *)
Definition w1_recording : World :=
  (ab_record_start config tempDir join io (params "s1") (advance 3000 w1)).2.

(** The service was started before [s1] and [s2] were opened. *)
Definition w2_started : World :=
  (ab_open config io (params "s2")
     (advance 2000
        (ab_open config io (params "s1") (cleanup_start (initial 1000)).2).2)).2.

(** After the stop hook: a session is opened, left idle, and the reaper
    fires. *)
Definition after_stop : World :=
  run_ops config false tempDir join
    [(io, ServiceStop); (io, Elapse 5000); (io, Open (params "s3"));
     (io, Elapse 400000); (io, ReaperTick)]
    w2_started.

(** Two calls [getSession("s1")] on an empty registry: the second enters
    while the first awaits its launch; then the first resumes, then the
    second. *)
Definition overlapped : Task * Task * World :=
  run_pair "s1" config (Fulfilled tt) (Fulfilled tt)
    [(true, 1000); (false, 1001); (true, 1002); (false, 1003)]%Z
    Ready Ready (initial 0).

(** The same two calls, one after the other. *)
Definition in_turn : Task * Task * World :=
  run_pair "s1" config (Fulfilled tt) (Fulfilled tt)
    [(true, 1000); (true, 1001); (false, 1002)]%Z
    Ready Ready (initial 0).
End Sample.


(** ** More of the plugin: credentials, the other tools, the test hook *)

(** [process.env], as far as [initR2Client] reads it. *)
Record ProcessEnv := {
  R2_ACCESS_KEY_ID : option string;
  R2_SECRET_ACCESS_KEY : option string;
}.

(** The options [new S3Client(...)] is constructed with. *)
Record S3Client := {
  region : string;
  endpoint : string;
  credentials : string * string;
}.

(** index.ts 615-635.  [console.warn] is recorded as a log event. *)
Definition initR2Client (config : PluginConfig) (env : ProcessEnv) : M (option S3Client) :=
  if negb (truthy (prop (accountId <$> r2 config)))
     || negb (truthy (prop (bucket <$> r2 config)))
  then ret None
  else
    let accessKeyId := R2_ACCESS_KEY_ID env in
    let secretAccessKey := R2_SECRET_ACCESS_KEY env in
    if negb (truthy (prop accessKeyId)) || negb (truthy (prop secretAccessKey)) then
      emit (EvLog "[agent-browser] R2 configured but R2_ACCESS_KEY_ID/R2_SECRET_ACCESS_KEY not set");;;
      ret None
    else
      ret (Some {| region := "auto";
                   endpoint := "https://" +:+ default EmptyString (accountId <$> r2 config)
                               +:+ ".r2.cloudflarestorage.com";
                   credentials := (default EmptyString accessKeyId,
                                   default EmptyString secretAccessKey) |}).

(** index.ts 608-610 *)
Definition _testClearSessions : M unit := sessions_clear.

(** [a || b] on arbitrary values. *)
Definition value_or (a b : Value) : Value := if truthy a then a else b.

Record SnapshotParams := {
  sn_session : string;
  sn_interactive : option bool;
}.

Record InteractParams := {
  in_session : string;
  in_action : string;
  in_selector : option string;
  in_value : option string;
  in_amount : Value;
}.

Record QueryParams := {
  q_session : string;
  q_action : string;
  q_selector : option string;
  q_attribute : option string;
}.

Record TabsParams := {
  t_session : string;
  t_action : string;
  t_index : Value;
  t_url : option string;
}.

Record SettingsParams := {
  se_session : string;
  se_action : string;
  se_width : Value;
  se_height : Value;
  se_device : option string;
}.

(** What the snapshot tool puts in its text content: the snapshot itself when
    the engine returned a truthy one, the whole result envelope otherwise. *)
Inductive SnapshotText :=
| TheSnapshot (snapshot : Value)
| TheResult (result : ResultEnvelope).

(** index.ts 855-865: the envelope of the interact tool. *)
Definition interact_cmd (id : Value) (params : InteractParams) : Command :=
  let cmd := [("id", id); ("action", VStr (in_action params))] in
  let cmd := if truthy (prop (in_selector params))
             then JsMap.set "selector" (prop (in_selector params)) cmd else cmd in
  let cmd := if String.eqb (in_action params) "type"
             then JsMap.set "text" (prop (in_value params)) cmd else cmd in
  let cmd := if String.eqb (in_action params) "press"
             then JsMap.set "key" (prop (in_value params)) cmd else cmd in
  let cmd := if String.eqb (in_action params) "select"
             then JsMap.set "value" (prop (in_value params)) cmd else cmd in
  let cmd := if String.eqb (in_action params) "drag"
             then JsMap.set "target" (prop (in_value params)) cmd else cmd in
  if String.eqb (in_action params) "scroll"
  then JsMap.set "amount" (value_or (in_amount params) (VNum 300))
         (JsMap.set "direction" (value_or (prop (in_value params)) (VStr "down")) cmd)
  else cmd.

(** index.ts 892-894 *)
Definition query_cmd (id : Value) (params : QueryParams) : Command :=
  let cmd := [("id", id); ("action", VStr (q_action params))] in
  let cmd := if truthy (prop (q_selector params))
             then JsMap.set "selector" (prop (q_selector params)) cmd else cmd in
  if truthy (prop (q_attribute params))
  then JsMap.set "attribute" (prop (q_attribute params)) cmd else cmd.

(** index.ts 1058: the own properties of [actionMap]. *)
Definition actionMap : list (string * string) :=
  [("list", "tab_list"); ("new", "tab_new");
   ("switch", "tab_switch"); ("close", "tab_close")].

(** The properties every object literal inherits from [Object.prototype]. *)
Definition Object_prototype : list string :=
  ["constructor"; "hasOwnProperty"; "isPrototypeOf"; "propertyIsEnumerable";
   "toLocaleString"; "toString"; "valueOf"; "__proto__";
   "__defineGetter__"; "__defineSetter__"; "__lookupGetter__"; "__lookupSetter__"].

(** [actionMap[action]]: the own property when there is one; for a name the
    literal inherits, the inherited member, an object that is no string and
    is kept as text; [undefined] for every other name. *)
Definition actionMap_get (action : string) : Value :=
  match JsMap.get action actionMap with
  | Some a => VStr a
  | None =>
      if bool_decide (action ∈ Object_prototype)
      then VJson ("Object.prototype." +:+ action)
      else VUndefined
  end.

(** index.ts 1059-1061 *)
Definition tabs_cmd (id : Value) (params : TabsParams) : Command :=
  let cmd := [("id", id); ("action", actionMap_get (t_action params))] in
  let cmd := match t_index params with
             | VUndefined => cmd
             | index => JsMap.set "index" index cmd
             end in
  if truthy (prop (t_url params))
  then JsMap.set "url" (prop (t_url params)) cmd else cmd.

(** index.ts 1085-1091 *)
Definition settings_cmd (id : Value) (params : SettingsParams) : Command :=
  let cmd := [("id", id); ("action", VStr (se_action params))] in
  if String.eqb (se_action params) "viewport"
  then JsMap.set "height" (se_height params) (JsMap.set "width" (se_width params) cmd)
  else if String.eqb (se_action params) "device"
       then JsMap.set "device" (prop (se_device params)) cmd
       else cmd.

Section MoreTools.
Variable pluginConfig : PluginConfig.

(** index.ts 779-786 *)
Definition ab_snapshot (io : Collaborators) (params : SnapshotParams) : M SnapshotText :=
  let! session := getSession io (sn_session params) pluginConfig in
  let! id := fresh_id in
  let! st := deref session in
  let! result := executeCommand io
      [("id", id); ("action", VStr "snapshot");
       ("filter", if default true (sn_interactive params)
                  then VStr "interactive" else VUndefined)]
      (browser st) in
  match data result ≫= JsMap.get "snapshot" with
  | Some v => if truthy v then ret (TheSnapshot v) else ret (TheResult result)
  | None => ret (TheResult result)
  end.

(** index.ts 853-869 *)
Definition ab_interact (io : Collaborators) (params : InteractParams) : M Payload :=
  let! session := getSession io (in_session params) pluginConfig in
  let! id := fresh_id in
  let cmd := interact_cmd id params in
  let! st := deref session in
  let! result := executeCommand io cmd (browser st) in
  ret (PResult result).

(** index.ts 890-898 *)
Definition ab_query (io : Collaborators) (params : QueryParams) : M Payload :=
  let! session := getSession io (q_session params) pluginConfig in
  let! id := fresh_id in
  let cmd := query_cmd id params in
  let! st := deref session in
  let! result := executeCommand io cmd (browser st) in
  ret (PResult result).

(** index.ts 1056-1065 *)
Definition ab_tabs (io : Collaborators) (params : TabsParams) : M Payload :=
  let! session := getSession io (t_session params) pluginConfig in
  let! id := fresh_id in
  let cmd := tabs_cmd id params in
  let! st := deref session in
  let! result := executeCommand io cmd (browser st) in
  ret (PResult result).

(** index.ts 1083-1095 *)
Definition ab_settings (io : Collaborators) (params : SettingsParams) : M Payload :=
  let! session := getSession io (se_session params) pluginConfig in
  let! id := fresh_id in
  let cmd := settings_cmd id params in
  let! st := deref session in
  let! result := executeCommand io cmd (browser st) in
  ret (PResult result).
End MoreTools.

(** Every tool, hook and clock movement of the plugin as one step. *)
Inductive Call :=
| Core (op : Op)
| Snapshot (params : SnapshotParams)
| Interact (params : InteractParams)
| Query (params : QueryParams)
| Tabs (params : TabsParams)
| Settings (params : SettingsParams)
| TestClear.

Definition run_call (pluginConfig : PluginConfig) (s3Client : bool) (tempDir : string)
    (join : string -> string -> string) (io : Collaborators) (c : Call)
    (w : World) : World :=
  match c with
  | Core op => run_op pluginConfig s3Client tempDir join io op w
  | Snapshot p => (ab_snapshot pluginConfig io p w).2
  | Interact p => (ab_interact pluginConfig io p w).2
  | Query p => (ab_query pluginConfig io p w).2
  | Tabs p => (ab_tabs pluginConfig io p w).2
  | Settings p => (ab_settings pluginConfig io p w).2
  | TestClear => (_testClearSessions w).2
  end.

Fixpoint run_calls (pluginConfig : PluginConfig) (s3Client : bool) (tempDir : string)
    (join : string -> string -> string) (steps : list (Collaborators * Call))
    (w : World) : World :=
  match steps with
  | [] => w
  | (io, c) :: rest =>
      run_calls pluginConfig s3Client tempDir join rest
        (run_call pluginConfig s3Client tempDir join io c w)
  end.

(** The registry holds no more sessions than the cap allows. *)
Definition within_cap (config : PluginConfig) (w : World) : Prop :=
  (JsMap.size (sessions w) <= Z.max 0 (default 3 (maxConcurrent config)))%Z.

(** Two [getSession] calls for two names, scheduled segment by segment. *)
Fixpoint run_two (name1 name2 : string) (config : PluginConfig)
    (launched1 launched2 : Settled unit) (schedule : list (bool * Z))
    (t1 t2 : Task) (w : World) : Task * Task * World :=
  match schedule with
  | [] => (t1, t2, w)
  | (true, now) :: rest =>
      match step_task name1 config launched1 t1 (advance now w) with
      | (t1', w') => run_two name1 name2 config launched1 launched2 rest t1' t2 w'
      end
  | (false, now) :: rest =>
      match step_task name2 config launched2 t2 (advance now w) with
      | (t2', w') => run_two name1 name2 config launched1 launched2 rest t1 t2' w'
      end
  end.

(** Whether [pat] occurs in [s]. *)
Fixpoint occurs (pat s : string) : bool :=
  String.prefix pat s ||
  match s with
  | EmptyString => false
  | String _ s' => occurs pat s'
  end.

(** Whether the character [c] occurs in [s]. *)
Fixpoint has_char (c : ascii) (s : string) : bool :=
  match s with
  | EmptyString => false
  | String c' s' => Ascii.eqb c c' || has_char c s'
  end.

(** The session a call resolves through [getSession] before it does anything
    else: every tool but close, and the advanced tool only when it is given
    an action. *)
Definition session_of (c : Call) : option string :=
  match c with
  | Core (Open p) | Core (Navigate p) | Core (Click p) | Core (Fill p)
  | Core (Screenshot p) | Core (RecordStart p) | Core (RecordStop p) =>
      Some (p_session p)
  | Core (Advanced p) =>
      if truthy (prop (p_action p)) then Some (p_session p) else None
  | Snapshot p => Some (sn_session p)
  | Interact p => Some (in_session p)
  | Query p => Some (q_session p)
  | Tabs p => Some (t_session p)
  | Settings p => Some (se_session p)
  | _ => None
  end.

(** The error a computation throws, if it throws. *)
Definition thrown {A} (r : Completion A * World) : option string :=
  match r.1 with
  | Throw e => Some e
  | Return _ => None
  end.

(** The error with which a call rejects, if it does. *)
Definition call_error (pluginConfig : PluginConfig) (s3Client : bool) (tempDir : string)
    (join : string -> string -> string) (io : Collaborators) (c : Call)
    (w : World) : option string :=
  match c with
  | Core (Open p) => thrown (ab_open pluginConfig io p w)
  | Core (Navigate p) => thrown (ab_navigate pluginConfig io p w)
  | Core (Click p) => thrown (ab_click pluginConfig io p w)
  | Core (Fill p) => thrown (ab_fill pluginConfig io p w)
  | Core (Screenshot p) => thrown (ab_screenshot pluginConfig s3Client tempDir join io p w)
  | Core (RecordStart p) => thrown (ab_record_start pluginConfig tempDir join io p w)
  | Core (RecordStop p) => thrown (ab_record_stop pluginConfig s3Client io p w)
  | Core (Close p) => thrown (ab_close io p w)
  | Core (Advanced p) => thrown (ab_advanced pluginConfig io p w)
  | Core ServiceStart => thrown (cleanup_start w)
  | Core ReaperTick =>
      match timers w with
      | [] => None
      | _ :: _ => thrown (reaper_tick pluginConfig io w)
      end
  | Core ServiceStop => thrown (cleanup_stop io w)
  | Core (Elapse _) => None
  | Snapshot p => thrown (ab_snapshot pluginConfig io p w)
  | Interact p => thrown (ab_interact pluginConfig io p w)
  | Query p => thrown (ab_query pluginConfig io p w)
  | Tabs p => thrown (ab_tabs pluginConfig io p w)
  | Settings p => thrown (ab_settings pluginConfig io p w)
  | TestClear => thrown (_testClearSessions w)
  end.

(** The registry maps [name] to session [s], which was last active at [t]. *)
Definition active_at (name : string) (s : Handle) (t : Z) (w : World) : Prop :=
  JsMap.get name (sessions w) = Some s /\
  exists st, heap w !! s = Some st /\ lastActivity st = t.

(** The registry maps [name] to [s], and [n] browsers were launched for it. *)
Definition registered_with (name : string) (s : Handle) (n : nat) (w : World) : Prop :=
  JsMap.get name (sessions w) = Some s /\ launches name (trace w) = n.

(** The envelopes and the artifact of the screenshot tool. *)
Definition screenshot_label (params : Params) (w : World) : string :=
  or_else (p_label params) ("screenshot-" +:+ pretty (clock w)).

Definition screenshot_name (params : Params) (w : World) : string :=
  p_session params +:+ "-" +:+ screenshot_label params w +:+ ".png".

Definition device_cmd (params : Params) (w : World) : Command :=
  [("id", VStr (pretty (clock w))); ("action", VStr "device");
   ("device", prop (p_device params))].

Definition screenshot_cmd (localPath : string) (params : Params) (w : World) : Command :=
  [("id", VStr (pretty (clock w))); ("action", VStr "screenshot");
   ("path", VStr localPath);
   ("fullPage", VBool (default false (p_fullPage params)))].

(** The host part of the public URL of an uploaded object. *)
Definition public_host (cfg : R2Config) : string :=
  match publicDomain cfg with
  | Some d => if truthy (VStr d) then d
              else bucket cfg +:+ "." +:+ accountId cfg +:+ ".r2.dev"
  | None => bucket cfg +:+ "." +:+ accountId cfg +:+ ".r2.dev"
  end.

(** The key under which the interact tool sends its [value] parameter. *)
Definition value_key (action : string) : option string :=
  if String.eqb action "type" then Some "text"
  else if String.eqb action "press" then Some "key"
  else if String.eqb action "select" then Some "value"
  else if String.eqb action "drag" then Some "target"
  else if String.eqb action "scroll" then Some "direction"
  else None.

(** Sample parameters naming a device to emulate. *)
Definition phone_params (session : string) : Params :=
  {| p_session := session; p_url := None; p_waitUntil := None; p_action := None;
     p_selector := None; p_value := None; p_label := Some "home";
     p_device := Some "iPhone 14"; p_fullPage := None; p_params := None |}.

(** The tools that resolve the session, dispatch one envelope and return the
    result envelope as it is. *)
Definition single_dispatch (c : Call) : bool :=
  match c with
  | Core (Open _) | Core (Navigate _) | Core (Click _) | Core (Fill _) => true
  | Core (Advanced p) => truthy (prop (p_action p))
  | Interact _ | Query _ | Tabs _ | Settings _ => true
  | _ => false
  end.

(** Sample parameters of the advanced tool whose [params] carry an [action]. *)
Definition advanced_params (session : string) : Params :=
  {| p_session := session; p_url := None; p_waitUntil := None;
     p_action := Some "wait"; p_selector := None; p_value := None;
     p_label := None; p_device := None; p_fullPage := None;
     p_params := Some [("selector", VStr "#loading"); ("action", VStr "close")] |}.

Definition scroll_params (session : string) : InteractParams :=
  {| in_session := session; in_action := "scroll"; in_selector := None;
     in_value := None; in_amount := VNum 0 |}.

Definition first_tab (session : string) : TabsParams :=
  {| t_session := session; t_action := "switch"; t_index := VNum 0;
     t_url := Some EmptyString |}.

(** The world after record-stop's dispatch has been answered and ffmpeg has
    converted [p]: the session is no longer recording, and the trace holds
    the dispatch and the conversion. *)
Definition conversion_done (s : Handle) (st : SessionState) (p : string)
    (w : World) : World :=
  put_heap (<[s := {| browser := browser st; lastActivity := clock w;
                      recording := false; recordingPath := recordingPath st |}]>
              (heap w))
    (with_trace (trace w ++ [EvExecute (recording_stop_cmd w) (browser st);
                             EvConvertToGif p (replace ".webm" ".gif" p)])
       w).

(** index.ts 781-783: the envelope of the snapshot tool, dispatched at the
    current clock reading. *)
Definition snapshot_cmd (params : SnapshotParams) (w : World) : Command :=
  [("id", VStr (pretty (clock w))); ("action", VStr "snapshot");
   ("filter", if default true (sn_interactive params)
              then VStr "interactive" else VUndefined)].

(** A configuration with storage, and collaborators whose ffmpeg fails and
    whose disk has lost the recording: [s1] is opened and recording. *)
Definition storage_config : PluginConfig :=
  {| r2 := Some {| accountId := "acct"; bucket := "shots"; publicDomain := None |};
     headless := Some true; viewport := Some (1280, 720)%Z;
     gif := Some true; video := None;
     maxConcurrent := Some 2%Z; idleTimeoutMs := None |}.

Definition io_disk_failing : Collaborators :=
  {| on_launch := Fulfilled tt;
     on_executeCommand := fun _ => Fulfilled Sample.stopped;
     on_close := fun _ => Fulfilled tt;
     on_execSync := Rejected "Command failed: ffmpeg";
     on_readFileSync := Rejected "ENOENT: no such file or directory";
     on_send := Fulfilled tt |}.

Definition recording_with_storage : World :=
  (ab_record_start storage_config Sample.tempDir Sample.join io_disk_failing
     (Sample.params "s1")
     (advance 3000
        (ab_open storage_config io_disk_failing (Sample.params "s1")
           (initial 1000)).2)).2.

(** ** The stop hook, segment by segment (index.ts 1184-1190)

    The hook awaits [close()] inside its loop over the live [sessions] map,
    so other callbacks run between its iterations: reaper ticks, since the
    interval timer is never cleared, and tool calls.  [StopAwaiting visited
    closing] is the hook suspended at that await: [visited] are the session
    objects the loop has visited so far and [closing] is the promise it
    awaits.  The iterator of a [Map] walks the entries in insertion order,
    skips an entry deleted before it is reached and still reaches an entry
    added before the iteration ends; every entry is set with a session object
    of its own, so the entry the iterator yields next is the first one of the
    current registry whose session object has not been visited. *)
Inductive StopTask :=
| StopReady
| StopAwaiting (visited : list Handle) (closing : Settled unit)
| StopFinished (r : Completion unit).

Definition Map_next (visited : list Handle) (m : list (string * Handle))
    : option (string * Handle) :=
  List.find (fun e => negb (bool_decide (e.2 ∈ visited))) m.

(** From the head of the loop to the next [await], or to the end of the
    hook. *)
Definition cleanup_stop_iterate (io : Collaborators) (visited : list Handle)
    : M StopTask :=
  let! entries := sessions_entries in
  match Map_next visited entries with
  | Some entry =>
      let name := entry.1 in
      let! session := deref entry.2 in
      emit (EvLog ("[agent-browser] Closing session on shutdown: " +:+ name));;;
      emit (EvBrowserClose (browser session));;;
      ret (StopAwaiting (visited ++ [entry.2]) (on_close io (browser session)))
  | None =>
      sessions_clear;;;
      ret (StopFinished (Return tt))
  end.

Definition step_stop (io : Collaborators) (t : StopTask) (w : World)
    : StopTask * World :=
  let settle (r : Completion StopTask * World) :=
    match r with
    | (Return t', w') => (t', w')
    | (Throw e, w') => (StopFinished (Throw e), w')
    end in
  match t with
  | StopReady => settle (cleanup_stop_iterate io [] w)
  | StopAwaiting visited closing =>
      settle ((swallow (await closing);;; cleanup_stop_iterate io visited) w)
  | StopFinished r => (StopFinished r, w)
  end.

(** What runs next: a segment of the stop hook, or some other callback of
    the plugin, run to its end. *)
Inductive Turn :=
| HookTurn
| CallTurn (io : Collaborators) (c : Call).

Fixpoint run_stop (pluginConfig : PluginConfig) (s3Client : bool) (tempDir : string)
    (join : string -> string -> string) (io : Collaborators)
    (schedule : list (Z * Turn)) (t : StopTask) (w : World) : StopTask * World :=
  match schedule with
  | [] => (t, w)
  | (now, HookTurn) :: rest =>
      match step_stop io t (advance now w) with
      | (t', w') => run_stop pluginConfig s3Client tempDir join io rest t' w'
      end
  | (now, CallTurn io' c) :: rest =>
      run_stop pluginConfig s3Client tempDir join io rest t
        (run_call pluginConfig s3Client tempDir join io' c (advance now w))
  end.

(** The hook on its own: nothing else runs between its segments. *)
Definition alone (nows : list Z) : list (Z * Turn) :=
  (fun now => (now, HookTurn)) <$> nows.

(** Only segments of the hook and reaper ticks. *)
Definition hook_or_tick (t : Turn) : bool :=
  match t with
  | HookTurn => true
  | CallTurn _ (Core ReaperTick) => true
  | CallTurn _ _ => false
  end.

Fixpoint hook_turns (schedule : list (Z * Turn)) : nat :=
  match schedule with
  | [] => 0
  | (_, HookTurn) :: rest => S (hook_turns rest)
  | (_, CallTurn _ _) :: rest => hook_turns rest
  end.

(** While the hook runs among reaper ticks, started in [w0]: no session
    object and no timer has changed, the registry has only lost entries, and
    the browser of every session of [w0] has been closed once if the hook has
    visited it, and once if a tick has reaped it. *)
Definition stop_accounts (w0 : World) (visited : list Handle) (w : World) : Prop :=
  heap w = heap w0 /\ timers w = timers w0 /\
  sublist (sessions w) (sessions w0) /\
  forall name s, (name, s) ∈ sessions w0 ->
    closes s (trace w) =
      (closes s (trace w0)
       + (if bool_decide (s ∈ visited) then 1 else 0)
       + (if bool_decide ((name, s) ∈ sessions w) then 0 else 1))%nat.

(** Once the hook has finished. *)
Definition stop_done (w0 : World) (w : World) : Prop :=
  sessions w = [] /\ timers w = timers w0 /\
  forall name s, (name, s) ∈ sessions w0 ->
    closes s (trace w) = S (closes s (trace w0)) \/
    closes s (trace w) = S (S (closes s (trace w0))).

Definition stop_state (w0 : World) (t : StopTask) (w : World) : Prop :=
  match t with
  | StopReady => stop_accounts w0 [] w
  | StopAwaiting visited _ => stop_accounts w0 visited w
  | StopFinished r => r = Return tt /\ stop_done w0 w
  end.

(** The segments the hook still needs, at most. *)
Definition stop_needs (t : StopTask) (w : World) : nat :=
  match t with
  | StopReady => S (length (sessions w))
  | StopAwaiting visited _ =>
      S (length (filter (fun e => e.2 ∉ visited) (sessions w)))
  | StopFinished _ => 0
  end.

(** The stop hook visits [s1]; a reaper tick runs while the hook awaits that
    [close()]; the hook resumes. *)
Definition raced : StopTask * World :=
  run_stop Sample.config false Sample.tempDir Sample.join Sample.io
    [(400000, HookTurn); (400001, CallTurn Sample.io (Core ReaperTick));
     (400002, HookTurn); (400003, HookTurn)]%Z
    StopReady Sample.w2_started.
(** ** Properties *)

Lemma occurrences_app f tr1 tr2 :
  occurrences f (tr1 ++ tr2) = (occurrences f tr1 + occurrences f tr2)%nat.
Proof. unfold occurrences. by rewrite List.filter_app, length_app. Qed.

(** *** The registry as a map *)

Lemma get_delete_same {V} (k : string) (m : list (string * V)) :
  JsMap.get k (JsMap.delete k m) = None.
Proof.
  induction m as [|[k' v] m IH]; simpl; [done|].
  destruct (decide (k = k')) as [->|Hne]; [done|].
  simpl. by rewrite decide_False.
Qed.

Lemma get_delete_other {V} (k k' : string) (m : list (string * V)) :
  k ≠ k' -> JsMap.get k' (JsMap.delete k m) = JsMap.get k' m.
Proof.
  intros Hne. induction m as [|[k0 v] m IH]; simpl; [done|].
  destruct (decide (k = k0)) as [->|Hk].
  - by rewrite IH, decide_False.
  - simpl. by rewrite IH.
Qed.

Lemma get_set_same {V} (k : string) (v : V) (m : list (string * V)) :
  JsMap.get k (JsMap.set k v m) = Some v.
Proof.
  induction m as [|[k' v'] m IH]; simpl.
  - by rewrite decide_True.
  - destruct (decide (k = k')) as [->|Hne]; simpl.
    + by rewrite decide_True.
    + by rewrite decide_False.
Qed.

Lemma get_None_not_key {V} (k : string) (m : list (string * V)) :
  JsMap.get k m = None <-> k ∉ JsMap.keys m.
Proof.
  unfold JsMap.keys. induction m as [|[k' v] m IH]; simpl.
  - split; [intros _; apply not_elem_of_nil | done].
  - rewrite not_elem_of_cons. destruct (decide (k = k')) as [->|Hne].
    + split; [done | by intros [? _]].
    + rewrite IH. tauto.
Qed.

(** *** getSession *)

Lemma getSession_enter_found name cfg w s st :
  JsMap.get name (sessions w) = Some s ->
  heap w !! s = Some st ->
  getSession_enter name cfg w = (Return (Found s), touched s st w).
Proof.
  intros Hs Hst.
  unfold getSession_enter, bind, sessions_get, assign, bind, deref, Date_now.
  by rewrite Hs, Hst.
Qed.

Lemma getSession_found io name cfg w s st :
  JsMap.get name (sessions w) = Some s ->
  heap w !! s = Some st ->
  getSession io name cfg w = (Return s, touched s st w).
Proof.
  intros Hs Hst. unfold getSession, bind.
  by rewrite (getSession_enter_found _ _ _ _ _ Hs Hst).
Qed.

Lemma getSession_enter_full name cfg w :
  JsMap.get name (sessions w) = None ->
  (JsMap.size (sessions w) >= default 3 (maxConcurrent cfg))%Z ->
  getSession_enter name cfg w =
    (Throw ("Max concurrent sessions ("
            +:+ pretty (default 3%Z (maxConcurrent cfg)) +:+ ") reached"), w).
Proof.
  intros Hs Hfull.
  unfold getSession_enter, bind, sessions_get, sessions_size, throw.
  by rewrite Hs, bool_decide_true.
Qed.

(** C1.  Resolving a name that is not in the registry while the registry
    already holds [maxConcurrent] (default 3) or more sessions throws the
    capacity error and leaves the whole world as it was: no browser is
    constructed or launched, the mapping and its size are unchanged. *)
Theorem getSession_capacity_exceeded io name cfg w :
  JsMap.get name (sessions w) = None ->
  (JsMap.size (sessions w) >= default 3 (maxConcurrent cfg))%Z ->
  getSession io name cfg w =
    (Throw ("Max concurrent sessions ("
            +:+ pretty (default 3%Z (maxConcurrent cfg)) +:+ ") reached"), w).
Proof.
  intros Hs Hfull. unfold getSession, bind.
  by rewrite (getSession_enter_full _ _ _ Hs Hfull).
Qed.

Lemma getSession_capacity_exceeded_witness :
  getSession Sample.io "s3" Sample.config Sample.w2 =
    (Throw "Max concurrent sessions (2) reached", Sample.w2).
Proof.
  apply (getSession_capacity_exceeded Sample.io "s3" Sample.config Sample.w2).
  - vm_compute. reflexivity.
  - vm_compute. discriminate.
Defined.




(** *** The close tool *)

(** C7.  Closing a name that has no registry entry returns the
    [{error: "Session not found"}] payload and leaves the whole world as it
    was: nothing is dispatched, no browser is closed, the registry is
    unchanged.  The membership test is the first thing the tool does. *)
Theorem ab_close_not_found io params w :
  JsMap.get (p_session params) (sessions w) = None ->
  ab_close io params w = (Return (PError "Session not found"), w).
Proof.
  intros Hs. unfold ab_close, bind, sessions_get. by rewrite Hs.
Qed.

Lemma ab_close_not_found_witness :
  ab_close Sample.io (Sample.params "nonexistent") Sample.w2 =
    (Return (PError "Session not found"), Sample.w2).
Proof.
  apply (ab_close_not_found Sample.io (Sample.params "nonexistent") Sample.w2).
  vm_compute. reflexivity.
Defined.

Lemma ab_close_run io params w s st :
  JsMap.get (p_session params) (sessions w) = Some s ->
  heap w !! s = Some st ->
  ab_close io params w =
    match on_executeCommand io (close_cmd w) with
    | Fulfilled _ =>
        (Return PClosed,
         put_sessions (JsMap.delete (p_session params) (sessions w))
           (with_trace (trace w ++ [EvExecute (close_cmd w) (browser st)]) w))
    | Rejected e =>
        (Throw e, with_trace (trace w ++ [EvExecute (close_cmd w) (browser st)]) w)
    end.
Proof.
  intros Hs Hst.
  unfold ab_close, bind, sessions_get, fresh_id, bind, Date_now, deref,
    executeCommand, bind, emit, sessions_delete, close_cmd.
  rewrite Hs. simpl. rewrite Hst. simpl.
  by destruct (on_executeCommand io _).
Qed.

Lemma getSession_enter_absent name cfg w :
  JsMap.get name (sessions w) = None ->
  (JsMap.size (sessions w) < default 3 (maxConcurrent cfg))%Z ->
  getSession_enter name cfg w =
    (Return (Launching (next w)),
     {| sessions := sessions w; heap := heap w; next := S (next w);
        clock := clock w; timers := timers w;
        trace := trace w ++ [EvLaunch name (next w)
                               (default true (headless cfg))
                               (default (1280, 720)%Z (viewport cfg))] |}).
Proof.
  intros Hs Hroom.
  unfold getSession_enter, bind, sessions_get, sessions_size, new_BrowserManager, emit.
  rewrite Hs, bool_decide_false by lia. done.
Qed.

Lemma getSession_resume_fulfilled name b w :
  getSession_resume name b (Fulfilled tt) w =
    (Return b,
     {| sessions := JsMap.set name b (sessions w);
        heap := <[b := {| browser := b; lastActivity := clock w;
                          recording := false; recordingPath := None |}]> (heap w);
        next := next w; clock := clock w; timers := timers w; trace := trace w |}).
Proof.
  unfold getSession_resume, bind, await, ret, Date_now, new_session, sessions_set,
    assign, bind, deref, put_heap, put_sessions. simpl.
  rewrite lookup_insert_eq. simpl. by rewrite insert_insert_eq.
Qed.

Lemma getSession_resume_rejected name b e w :
  getSession_resume name b (Rejected e) w = (Throw e, w).
Proof. done. Qed.

Lemma getSession_created io name cfg w :
  JsMap.get name (sessions w) = None ->
  (JsMap.size (sessions w) < default 3 (maxConcurrent cfg))%Z ->
  on_launch io = Fulfilled tt ->
  getSession io name cfg w = (Return (next w), created name cfg w).
Proof.
  intros Hs Hroom Hl. unfold getSession, bind.
  rewrite (getSession_enter_absent _ _ _ Hs Hroom), Hl.
  by rewrite getSession_resume_fulfilled.
Qed.

Lemma size_delete_le {V} (k : string) (m : list (string * V)) :
  (JsMap.size (JsMap.delete k m) <= JsMap.size m)%Z.
Proof.
  unfold JsMap.size. induction m as [|[k' v] m IH]; simpl; [lia|].
  destruct (decide (k = k')); simpl length; lia.
Qed.

(** Closing a live session whose dispatch is answered (whatever the
    envelope says) removes the entry, so that the next resolve of the name
    launches a fresh browser. *)
Lemma ab_close_dispatch_fulfilled io params w s st r :
  JsMap.get (p_session params) (sessions w) = Some s ->
  heap w !! s = Some st ->
  on_executeCommand io (close_cmd w) = Fulfilled r ->
  exists w',
    ab_close io params w = (Return PClosed, w') /\
    JsMap.get (p_session params) (sessions w') = None /\
    trace w' = trace w ++ [EvExecute (close_cmd w) (browser st)] /\
    forall io' cfg now,
      (JsMap.size (sessions w) <= default 3 (maxConcurrent cfg))%Z ->
      on_launch io' = Fulfilled tt ->
      exists w'',
        getSession io' (p_session params) cfg (advance now w') = (Return (next w), w'') /\
        launches (p_session params) (trace w'') =
          S (launches (p_session params) (trace w)).
Proof.
  intros Hs Hst Hr. eexists. split.
  { rewrite (ab_close_run _ _ _ _ _ Hs Hst), Hr. reflexivity. }
  split; [apply get_delete_same|]. split; [done|].
  intros io' cfg now Hcap Hl. eexists. split.
  - rewrite getSession_created; simpl; [reflexivity|apply get_delete_same| |done].
    assert (JsMap.size (JsMap.delete (p_session params) (sessions w))
            < JsMap.size (sessions w))%Z; [|lia].
    clear -Hs. unfold JsMap.size.
    induction (sessions w) as [|[k v] m IH]; simpl in *; [done|].
    destruct (decide (p_session params = k)).
    + pose proof (size_delete_le (p_session params) m). unfold JsMap.size in *. lia.
    + specialize (IH Hs). simpl length. lia.
  - simpl. unfold launches. rewrite !occurrences_app. simpl.
    unfold close_cmd, cmd_action, occurrences. simpl.
    rewrite bool_decide_true by done. simpl. lia.
Qed.

(** C4 (the defect).  When the dispatch of the close envelope rejects, the
    close tool rethrows and never reaches [sessions.delete]: the entry stays
    in the registry and a later resolve of the name gets the same session
    back without launching anything. *)
Theorem ab_close_dispatch_rejected io params w s st e :
  JsMap.get (p_session params) (sessions w) = Some s ->
  heap w !! s = Some st ->
  on_executeCommand io (close_cmd w) = Rejected e ->
  let w' := with_trace (trace w ++ [EvExecute (close_cmd w) (browser st)]) w in
  ab_close io params w = (Throw e, w') /\
  sessions w' = sessions w /\
  forall io' cfg now,
    exists w'',
      getSession io' (p_session params) cfg (advance now w') = (Return s, w'') /\
      launches (p_session params) (trace w'') = launches (p_session params) (trace w).
Proof.
  intros Hs Hst He. simpl. split.
  { by rewrite (ab_close_run _ _ _ _ _ Hs Hst), He. }
  split; [done|]. intros io' cfg now. eexists. split.
  - by apply (getSession_found io' _ cfg _ s st).
  - simpl. unfold launches. rewrite occurrences_app. simpl.
    unfold occurrences. simpl. lia.
Qed.

Lemma ab_close_dispatch_rejected_witness :
  ab_close Sample.io_rejecting (Sample.params "s1") Sample.w1 =
    (Throw "Browser has been closed",
     with_trace (trace Sample.w1 ++ [EvExecute (close_cmd Sample.w1) 0%nat]) Sample.w1)
  /\ JsMap.get "s1"
       (sessions (ab_close Sample.io_rejecting (Sample.params "s1") Sample.w1).2)
     = Some 0%nat.
Proof.
  destruct (ab_close_dispatch_rejected Sample.io_rejecting (Sample.params "s1")
              Sample.w1 0%nat
              {| browser := 0; lastActivity := 1000;
                 recording := false; recordingPath := None |}
              "Browser has been closed") as (H & _ & _).
  - vm_compute. reflexivity.
  - vm_compute. reflexivity.
  - reflexivity.
  - split; [exact H|]. rewrite H. vm_compute. reflexivity.
Defined.

(** *** Recording coordinator *)

Lemma ab_record_start_already cfg tempDir join io params w s st :
  JsMap.get (p_session params) (sessions w) = Some s ->
  heap w !! s = Some st ->
  recording st = true ->
  ab_record_start cfg tempDir join io params w =
    (Return (PError "Already recording"), touched s st w).
Proof.
  intros Hs Hst Hrec. unfold ab_record_start, bind.
  rewrite (getSession_found _ _ _ _ _ _ Hs Hst).
  unfold deref, touched. simpl. rewrite lookup_insert_eq. simpl.
  by rewrite Hrec.
Qed.

Lemma ab_record_stop_not_recording cfg s3 io params w s st :
  JsMap.get (p_session params) (sessions w) = Some s ->
  heap w !! s = Some st ->
  recording st = false ->
  ab_record_stop cfg s3 io params w =
    (Return (PError "Not recording"), touched s st w).
Proof.
  intros Hs Hst Hrec. unfold ab_record_stop, bind.
  rewrite (getSession_found _ _ _ _ _ _ Hs Hst).
  unfold deref, touched. simpl. rewrite lookup_insert_eq. simpl.
  by rewrite Hrec.
Qed.

Lemma ab_record_start_run cfg tempDir join io params w s st :
  JsMap.get (p_session params) (sessions w) = Some s ->
  heap w !! s = Some st ->
  recording st = false ->
  let localPath := recording_file tempDir join params w in
  let cmd := recording_start_cmd localPath w in
  ab_record_start cfg tempDir join io params w =
    match on_executeCommand io cmd with
    | Fulfilled _ =>
        (Return (PRecording (recording_label params w)),
         put_heap (<[s := {| browser := browser st; lastActivity := clock w;
                             recording := true; recordingPath := Some localPath |}]>
                     (heap w))
           (with_trace (trace w ++ [EvExecute cmd (browser st)]) w))
    | Rejected e =>
        (Throw e,
         with_trace (trace w ++ [EvExecute cmd (browser st)]) (touched s st w))
    end.
Proof.
  intros Hs Hst Hrec. simpl. unfold ab_record_start, bind.
  rewrite (getSession_found _ _ _ _ _ _ Hs Hst).
  unfold deref, touched. simpl. rewrite lookup_insert_eq. simpl.
  rewrite Hrec.
  unfold bind, Date_now, fresh_id, bind, Date_now, executeCommand, bind, emit. simpl.
  fold (recording_label params w). fold (recording_file tempDir join params w).
  fold (recording_start_cmd (recording_file tempDir join params w) w).
  destruct (on_executeCommand io _); simpl; [|done].
  unfold assign, bind, deref. simpl. rewrite lookup_insert_eq. simpl.
  rewrite lookup_insert_eq. simpl.
  by rewrite !insert_insert_eq.
Qed.

Lemma dispatched_app action tr1 tr2 :
  dispatched action (tr1 ++ tr2) = (dispatched action tr1 + dispatched action tr2)%nat.
Proof. apply occurrences_app. Qed.

Lemma dispatched_le_execute action tr :
  occurrences is_execute tr = 0%nat -> dispatched action tr = 0%nat.
Proof.
  unfold dispatched, occurrences. induction tr as [|e tr IH]; simpl; [done|].
  destruct e; simpl; try done.
Qed.

(** Closes goals [exists evs, tr' = tr ++ evs /\ ...] once [tr'] is explicit. *)
Ltac extends_trace :=
  simpl; rewrite <- ?(assoc_L (++)); simpl;
  first [ exists []; split; [by rewrite (right_id_L [] (++)) | by repeat split]
        | eexists; split; [reflexivity | by repeat split] ].

(** The tail of record-stop talks to ffmpeg, the file system and S3 only: it
    dispatches nothing and changes neither the registry nor any session. *)
Lemma record_stop_finish_quiet cfg s3 io s result w :
  exists evs,
    trace (record_stop_finish cfg s3 io s result w).2 = trace w ++ evs /\
    occurrences is_execute evs = 0%nat /\
    heap (record_stop_finish cfg s3 io s result w).2 = heap w /\
    sessions (record_stop_finish cfg s3 io s result w).2 = sessions w.
Proof.
  unfold record_stop_finish, bind, deref, complete, final_path, uploadToR2,
    try_catch, convertToGif, bind, emit, await, ret, throw.
  repeat (case_match; simpl in *; simplify_eq); extends_trace.
Qed.

Lemma ab_record_stop_run cfg s3 io params w s st :
  JsMap.get (p_session params) (sessions w) = Some s ->
  heap w !! s = Some st ->
  recording st = true ->
  let cmd := recording_stop_cmd w in
  ab_record_stop cfg s3 io params w =
    match on_executeCommand io cmd with
    | Fulfilled result =>
        record_stop_finish cfg s3 io s result
          (put_heap (<[s := {| browser := browser st; lastActivity := clock w;
                               recording := false;
                               recordingPath := recordingPath st |}]> (heap w))
             (with_trace (trace w ++ [EvExecute cmd (browser st)]) w))
    | Rejected e =>
        (Throw e,
         with_trace (trace w ++ [EvExecute cmd (browser st)]) (touched s st w))
    end.
Proof.
  intros Hs Hst Hrec. simpl. unfold ab_record_stop, bind.
  rewrite (getSession_found _ _ _ _ _ _ Hs Hst).
  unfold deref, touched. simpl. rewrite lookup_insert_eq. simpl.
  rewrite Hrec. simpl.
  unfold fresh_id, bind, Date_now, executeCommand, bind, emit. simpl.
  fold (recording_stop_cmd w).
  destruct (on_executeCommand io _); simpl; [|done].
  unfold assign, bind, deref. simpl. rewrite lookup_insert_eq. simpl.
  by rewrite !insert_insert_eq.
Qed.

Lemma ab_record_stop_dispatches cfg s3 io params w s st action :
  JsMap.get (p_session params) (sessions w) = Some s ->
  heap w !! s = Some st ->
  recording st = true ->
  dispatched action (trace (ab_record_stop cfg s3 io params w).2) =
    (dispatched action (trace w)
     + if bool_decide (action = "recording_stop") then 1 else 0)%nat.
Proof.
  intros Hs Hst Hrec.
  rewrite (ab_record_stop_run _ _ _ _ _ _ _ Hs Hst Hrec). simpl.
  assert (dispatched action [EvExecute (recording_stop_cmd w) (browser st)]
          = if bool_decide (action = "recording_stop") then 1 else 0)%nat as Hone.
  { unfold dispatched, occurrences. simpl. unfold cmd_action. simpl.
    repeat case_bool_decide; simplify_eq; done. }
  destruct (on_executeCommand io _) as [result|e]; simpl.
  - destruct (record_stop_finish_quiet cfg s3 io s result
                (put_heap (<[s := {| browser := browser st; lastActivity := clock w;
                                     recording := false;
                                     recordingPath := recordingPath st |}]> (heap w))
                   (with_trace (trace w ++ [EvExecute (recording_stop_cmd w) (browser st)]) w)))
      as (evs & -> & Hq & _).
    simpl. rewrite !dispatched_app, Hone.
    rewrite (dispatched_le_execute action evs Hq). lia.
  - by rewrite dispatched_app, Hone.
Qed.

(** C3.  On a session of the registry: record-start while [recording] is set
    answers [{error: "Already recording"}] and record-stop while it is not
    set answers [{error: "Not recording"}], in both cases with nothing
    dispatched (the trace is unchanged); and a start whose dispatch is
    answered, followed by a stop on the same session, adds exactly one
    [recording_start] and exactly one [recording_stop] envelope to the
    trace, whatever the collaborators answer during the stop. *)
Theorem recording_coordinator cfg s3 tempDir join params w s st :
  JsMap.get (p_session params) (sessions w) = Some s ->
  heap w !! s = Some st ->
  (recording st = true -> forall io,
      exists w',
        ab_record_start cfg tempDir join io params w =
          (Return (PError "Already recording"), w') /\
        trace w' = trace w) /\
  (recording st = false -> forall io,
      exists w',
        ab_record_stop cfg s3 io params w =
          (Return (PError "Not recording"), w') /\
        trace w' = trace w) /\
  (recording st = false -> forall io1 io2 r now params2,
      p_session params2 = p_session params ->
      on_executeCommand io1
        (recording_start_cmd (recording_file tempDir join params w) w) = Fulfilled r ->
      exists w1 w2,
        ab_record_start cfg tempDir join io1 params w =
          (Return (PRecording (recording_label params w)), w1) /\
        (ab_record_stop cfg s3 io2 params2 (advance now w1)).2 = w2 /\
        dispatched "recording_start" (trace w2) =
          S (dispatched "recording_start" (trace w)) /\
        dispatched "recording_stop" (trace w2) =
          S (dispatched "recording_stop" (trace w))).
Proof.
  intros Hs Hst. split; [|split].
  - intros Hrec io. eexists. split.
    + by apply (ab_record_start_already _ _ _ _ _ _ s st).
    + done.
  - intros Hrec io. eexists. split.
    + by apply (ab_record_stop_not_recording _ _ _ _ _ s st).
    + done.
  - intros Hrec io1 io2 r now params2 Hsame Hr.
    do 2 eexists. split; [|split; [reflexivity|]].
    { rewrite (ab_record_start_run _ _ _ _ _ _ _ _ Hs Hst Hrec). simpl.
      rewrite Hr. reflexivity. }
    split.
    + erewrite ab_record_stop_dispatches; simpl.
      * rewrite dispatched_app. unfold dispatched at 2, occurrences. simpl. lia.
      * rewrite Hsame. exact Hs.
      * apply lookup_insert_eq.
      * done.
    + erewrite ab_record_stop_dispatches; simpl.
      * rewrite dispatched_app. unfold dispatched at 2, occurrences. simpl. lia.
      * rewrite Hsame. exact Hs.
      * apply lookup_insert_eq.
      * done.
Qed.

Lemma recording_coordinator_witness :
  (exists w',
      ab_record_stop Sample.config false Sample.io (Sample.params "s1") Sample.w1 =
        (Return (PError "Not recording"), w') /\
      trace w' = trace Sample.w1) /\
  (exists w',
      ab_record_start Sample.config Sample.tempDir Sample.join Sample.io
        (Sample.params "s1") Sample.w1_recording =
        (Return (PError "Already recording"), w') /\
      trace w' = trace Sample.w1_recording).
Proof.
  split.
  - destruct (recording_coordinator Sample.config false Sample.tempDir Sample.join
                (Sample.params "s1") Sample.w1 0%nat
                {| browser := 0; lastActivity := 1000;
                   recording := false; recordingPath := None |})
      as (_ & H & _).
    + vm_compute. reflexivity.
    + vm_compute. reflexivity.
    + apply H. reflexivity.
  - destruct (recording_coordinator Sample.config false Sample.tempDir Sample.join
                (Sample.params "s1") Sample.w1_recording 0%nat
                {| browser := 0; lastActivity := 3000; recording := true;
                   recordingPath :=
                     Some "/tmp/agent-browser-plugin/s1-walkthrough.webm" |})
      as (H & _ & _).
    + vm_compute. reflexivity.
    + vm_compute. reflexivity.
    + apply H. reflexivity.
Defined.

(** *** Invariants of the world *)

Section Keeps.
Context (I : World -> Prop) {A B : Type}.

Lemma keeps_ret (a : A) : keeps I (ret a).
Proof. by intros w Hw. Qed.

Lemma keeps_throw (e : string) : keeps I (@throw A e).
Proof. by intros w Hw. Qed.

Lemma keeps_complete (c : Completion A) : keeps I (complete c).
Proof. by intros w Hw. Qed.

Lemma keeps_bind (c : M A) (k : A -> M B) :
  keeps I c -> (forall a, keeps I (k a)) -> keeps I (bind c k).
Proof.
  intros Hc Hk w Hw. unfold bind. specialize (Hc w Hw).
  destruct (c w) as [[a|e] w']; simpl in *; [by apply Hk | done].
Qed.

Lemma keeps_try_catch (c : M A) (h : string -> M A) :
  keeps I c -> (forall e, keeps I (h e)) -> keeps I (try_catch c h).
Proof.
  intros Hc Hh w Hw. unfold try_catch. specialize (Hc w Hw).
  destruct (c w) as [[a|e] w']; simpl in *; [done | by apply Hh].
Qed.

Lemma keeps_await (p : Settled A) : keeps I (await p).
Proof. destruct p; [apply keeps_ret | apply keeps_throw]. Qed.
End Keeps.

Lemma keeps_for_of I {A} (l : list A) (body : A -> M unit) :
  (forall x, keeps I (body x)) -> keeps I (for_of l body).
Proof.
  intros Hb. induction l as [|x l IH]; simpl; [apply keeps_ret|].
  apply keeps_bind; [apply Hb | by intros _].
Qed.

Create HintDb keeps.
#[local] Hint Resolve keeps_ret keeps_throw keeps_await keeps_complete : keeps.

(** **** A recording session has its path *)

Lemma path_same_heap {A} (c : M A) :
  (forall w, heap (c w).2 = heap w) -> keeps recording_has_path c.
Proof. intros Hh w Hw s st. rewrite Hh. apply Hw. Qed.

Lemma path_assign f s :
  (forall st, (recording st = true -> is_Some (recordingPath st)) ->
              recording (f st) = true -> is_Some (recordingPath (f st))) ->
  keeps recording_has_path (assign f s).
Proof.
  intros Hf w Hw. unfold assign, bind, deref.
  destruct (heap w !! s) as [st|] eqn:Hst; simpl; [|done].
  intros s' st'. simpl. destruct (decide (s = s')) as [<-|Hne].
  - rewrite lookup_insert_eq. intros [= <-]. apply Hf. by apply (Hw s).
  - rewrite lookup_insert_ne by done. apply Hw.
Qed.

Lemma path_new_session st :
  recording st = false -> keeps recording_has_path (new_session st).
Proof.
  intros Hrec w Hw s' st'. unfold new_session, put_heap. simpl.
  destruct (decide (browser st = s')) as [<-|Hne].
  - rewrite lookup_insert_eq. intros [= <-]. by rewrite Hrec.
  - rewrite lookup_insert_ne by done. apply Hw.
Qed.

(** The two assignments that end record-start: the flag first, the path
    right after it, with nothing in between. *)
Lemma path_flag_then_path {A} s p (k : M A) :
  keeps recording_has_path k ->
  keeps recording_has_path
    (assign (with_recording true) s;;;
     assign (with_recordingPath (Some p)) s;;; k).
Proof.
  intros Hk w Hw. unfold assign, bind, deref.
  destruct (heap w !! s) as [st|] eqn:Hst; simpl; [|done].
  rewrite lookup_insert_eq. simpl. apply Hk.
  intros s' st'. simpl. rewrite insert_insert_eq.
  destruct (decide (s = s')) as [<-|Hne].
  - rewrite lookup_insert_eq. by intros [= <-].
  - rewrite lookup_insert_ne by done. apply Hw.
Qed.

Lemma path_Date_now : keeps recording_has_path Date_now.
Proof. by apply path_same_heap. Qed.

Lemma path_emit e : keeps recording_has_path (emit e).
Proof. by apply path_same_heap. Qed.

Lemma path_new_BrowserManager : keeps recording_has_path new_BrowserManager.
Proof. by apply path_same_heap. Qed.

Lemma path_sessions_get name : keeps recording_has_path (sessions_get name).
Proof. by apply path_same_heap. Qed.

Lemma path_sessions_size : keeps recording_has_path sessions_size.
Proof. by apply path_same_heap. Qed.

Lemma path_sessions_entries : keeps recording_has_path sessions_entries.
Proof. by apply path_same_heap. Qed.

Lemma path_sessions_set name s : keeps recording_has_path (sessions_set name s).
Proof. by apply path_same_heap. Qed.

Lemma path_sessions_delete name : keeps recording_has_path (sessions_delete name).
Proof. by apply path_same_heap. Qed.

Lemma path_sessions_clear : keeps recording_has_path sessions_clear.
Proof. by apply path_same_heap. Qed.

Lemma path_deref s : keeps recording_has_path (deref s).
Proof. apply path_same_heap. intros w. unfold deref. by destruct (heap w !! s). Qed.

Lemma path_touch t s : keeps recording_has_path (assign (with_lastActivity t) s).
Proof. by apply path_assign. Qed.

Lemma path_unflag s : keeps recording_has_path (assign (with_recording false) s).
Proof. by apply path_assign. Qed.

#[local] Hint Resolve path_Date_now path_emit path_new_BrowserManager
  path_sessions_get path_sessions_size path_sessions_entries path_sessions_set
  path_sessions_delete path_sessions_clear path_deref path_touch path_unflag
  : keeps.

(** Walks down a computation, one bind or branch at a time. *)
Ltac keeps_walk :=
  repeat first
    [ progress intros
    | progress cbv zeta
    | apply path_flag_then_path
    | solve [auto with keeps]
    | apply path_new_session; reflexivity
    | apply keeps_bind
    | apply keeps_try_catch
    | apply keeps_for_of
    | case_match ].

Lemma path_getSession io name cfg :
  keeps recording_has_path (getSession io name cfg).
Proof. unfold getSession, getSession_enter, getSession_resume. keeps_walk. Qed.

#[local] Hint Resolve path_getSession : keeps.

(** **** The registry stays a map onto live session objects *)

Lemma reg_same {A} (c : M A) :
  (forall w, sessions (c w).2 = sessions w /\ heap (c w).2 = heap w /\
             next w <= next (c w).2) ->
  keeps registry_inv c.
Proof.
  intros Hc w [(Hk & Hh & Hall) Hlt]. destruct (Hc w) as (Hs & Hhp & Hn).
  unfold registry_inv, registry_ok. rewrite Hs, Hhp.
  split; [done|]. eapply Forall_impl; [exact Hlt|]. simpl. intros e He. lia.
Qed.

Lemma reg_assign f s :
  (forall st, browser (f st) = browser st) ->
  keeps registry_inv (assign f s).
Proof.
  intros Hf w [(Hk & Hh & Hall) Hlt]. unfold assign, bind, deref.
  destruct (heap w !! s) as [st|] eqn:Hst; simpl;
    [|by split].
  split; [|done]. split; [done|]. split; [done|]. simpl.
  eapply Forall_impl; [exact Hall|]. simpl. intros e (st' & He & Hb).
  destruct (decide (s = e.2)) as [->|Hne].
  - rewrite lookup_insert_eq. exists (f st). split; [done|].
    rewrite Hf. by simplify_eq.
  - rewrite lookup_insert_ne by done. by exists st'.
Qed.

Lemma delete_sublist {V} (k : string) (m : list (string * V)) :
  JsMap.delete k m `sublist_of` m.
Proof.
  induction m as [|[k' v] m IH]; simpl; [done|].
  destruct (decide (k = k')); [by apply sublist_cons | by apply sublist_skip].
Qed.

Lemma reg_sessions_delete name : keeps registry_inv (sessions_delete name).
Proof.
  intros w [(Hk & Hh & Hall) Hlt]. unfold sessions_delete, registry_inv, registry_ok.
  simpl. pose proof (delete_sublist name (sessions w)) as Hsub.
  split; [split; [|split]|].
  - unfold JsMap.keys in *. eapply sublist_NoDup; [exact Hk|]. by apply fmap_sublist.
  - eapply sublist_NoDup; [exact Hh|]. by apply fmap_sublist.
  - rewrite Forall_forall in Hall |- *. intros e He.
    apply Hall. by eapply elem_of_sublist.
  - rewrite Forall_forall in Hlt |- *. intros e He.
    apply Hlt. by eapply elem_of_sublist.
Qed.

Lemma reg_sessions_clear : keeps registry_inv sessions_clear.
Proof.
  intros w _. unfold sessions_clear, registry_inv, registry_ok. simpl.
  repeat split; by constructor.
Qed.

Lemma get_Some_elem {V} (k : string) (v : V) (m : list (string * V)) :
  JsMap.get k m = Some v -> (k, v) ∈ m.
Proof.
  induction m as [|[k' v'] m IH]; simpl; [done|].
  destruct (decide (k = k')) as [->|Hne].
  - intros [= ->]. by left.
  - intros H. right. by apply IH.
Qed.

Lemma set_absent {V} (k : string) (v : V) (m : list (string * V)) :
  JsMap.get k m = None -> JsMap.set k v m = m ++ [(k, v)].
Proof.
  induction m as [|[k' v'] m IH]; simpl; [done|].
  destruct (decide (k = k')); [done|]. intros H. by rewrite IH.
Qed.

Lemma reg_created name cfg w :
  JsMap.get name (sessions w) = None ->
  registry_inv w -> registry_inv (created name cfg w).
Proof.
  intros Hs [(Hk & Hh & Hall) Hlt]. unfold registry_inv, registry_ok, created. simpl.
  rewrite (set_absent _ _ _ Hs).
  assert (next w ∉ (sessions w).*2) as Hfresh.
  { intros ([k s] & Hn & He)%list_elem_of_fmap. simpl in Hn. subst s.
    rewrite Forall_forall in Hlt. specialize (Hlt _ He). simpl in Hlt. lia. }
  split; [split; [|split]|].
  - unfold JsMap.keys in *. rewrite fmap_app. simpl.
    apply NoDup_app. split; [done|]. split; [|apply NoDup_singleton].
    intros k Hin Hk'. apply list_elem_of_singleton in Hk'. subst k.
    by apply (get_None_not_key name (sessions w)) in Hs.
  - rewrite fmap_app. simpl. apply NoDup_app. split; [done|].
    split; [|apply NoDup_singleton].
    intros s Hin Hs'. apply list_elem_of_singleton in Hs'. by subst s.
  - apply Forall_app. split.
    + rewrite Forall_forall in Hall |- *. intros [k s] He.
      destruct (Hall _ He) as (st & Hst & Hb). simpl in *.
      rewrite lookup_insert_ne; [by exists st|].
      intros <-. apply Hfresh. apply list_elem_of_fmap. by exists (k, next w).
    + apply Forall_singleton. simpl. rewrite lookup_insert_eq. by eexists.
  - apply Forall_app. split.
    + eapply Forall_impl; [exact Hlt|]. simpl. intros e He. lia.
    + apply Forall_singleton. simpl. lia.
Qed.

Lemma reg_getSession io name cfg : keeps registry_inv (getSession io name cfg).
Proof.
  intros w Hw. destruct (JsMap.get name (sessions w)) as [s|] eqn:Hs.
  - pose proof Hw as [(_ & _ & Hall) _].
    rewrite Forall_forall in Hall.
    destruct (Hall _ (get_Some_elem _ _ _ Hs)) as (st & Hst & _). simpl in Hst.
    rewrite (getSession_found _ _ _ _ _ _ Hs Hst). simpl.
    pose proof (reg_assign (with_lastActivity (clock w)) s (fun _ => eq_refl) w Hw)
      as Hk.
    unfold assign, bind, deref in Hk. by rewrite Hst in Hk.
  - destruct (decide (JsMap.size (sessions w) >= default 3 (maxConcurrent cfg))%Z)
      as [Hfull|Hroom].
    + unfold getSession, bind. by rewrite (getSession_enter_full _ _ _ Hs Hfull).
    + unfold getSession, bind.
      rewrite (getSession_enter_absent _ _ _ Hs) by lia.
      destruct (on_launch io) as [[]|e].
      * rewrite getSession_resume_fulfilled. simpl.
        by apply (reg_created name cfg w).
      * rewrite getSession_resume_rejected. simpl.
        destruct Hw as [Hok Hlt]. split; [done|]. simpl.
        eapply Forall_impl; [exact Hlt|]. simpl. intros x Hx. lia.
Qed.

Lemma reg_Date_now : keeps registry_inv Date_now.
Proof. by apply reg_same. Qed.

Lemma reg_emit e : keeps registry_inv (emit e).
Proof. by apply reg_same. Qed.

Lemma reg_sessions_get name : keeps registry_inv (sessions_get name).
Proof. by apply reg_same. Qed.

Lemma reg_sessions_entries : keeps registry_inv sessions_entries.
Proof. by apply reg_same. Qed.

Lemma reg_deref s : keeps registry_inv (deref s).
Proof.
  apply reg_same. intros w. unfold deref. by destruct (heap w !! s).
Qed.

Lemma reg_setInterval ms : keeps registry_inv (setInterval ms).
Proof. by apply reg_same. Qed.

#[local] Hint Resolve reg_getSession reg_Date_now reg_emit reg_sessions_get
  reg_sessions_entries reg_deref reg_setInterval reg_sessions_delete
  reg_sessions_clear : keeps.
#[local] Hint Extern 1 (keeps registry_inv (assign _ _)) =>
  apply reg_assign; reflexivity : keeps.

(** **** Both are kept by every tool and hook *)

Lemma keeps_fresh_id I :
  keeps I Date_now -> keeps I fresh_id.
Proof. intros H. unfold fresh_id. apply keeps_bind; [done|]. intros. apply keeps_ret. Qed.

Lemma keeps_executeCommand I io cmd b :
  (forall e, keeps I (emit e)) -> keeps I (executeCommand io cmd b).
Proof.
  intros H. unfold executeCommand. apply keeps_bind; [done|].
  intros. apply keeps_await.
Qed.

Lemma keeps_uploadToR2 I cfg s3 io p n c :
  (forall e, keeps I (emit e)) -> keeps I (uploadToR2 cfg s3 io p n c).
Proof.
  intros H. unfold uploadToR2.
  repeat first [ progress intros | solve [auto with keeps] | apply keeps_bind
               | case_match ].
Qed.

#[local] Hint Extern 1 (keeps _ fresh_id) =>
  apply keeps_fresh_id; auto with keeps : keeps.
#[local] Hint Extern 1 (keeps _ (executeCommand _ _ _)) =>
  apply keeps_executeCommand; auto with keeps : keeps.
#[local] Hint Extern 1 (keeps _ (uploadToR2 _ _ _ _ _ _)) =>
  apply keeps_uploadToR2; auto with keeps : keeps.

Lemma keeps_tools I cfg s3 tempDir join io op :
  I = recording_has_path \/ I = registry_inv ->
  (forall now w, I w -> I (advance now w)) ->
  keeps I (fun w => (Return tt, run_op cfg s3 tempDir join io op w)).
Proof.
  intros HI Hadv.
  assert (forall A (c : M A), keeps I c -> keeps I (fun w => (Return tt, (c w).2)))
    as Hsnd by (intros A c Hc w Hw; by apply Hc).
  assert (keeps I (reaper_tick cfg io)) as Htick.
  { destruct HI as [-> | ->]; unfold reaper_tick, swallow, browser_close;
      keeps_walk. }
  destruct op; simpl; try apply Hsnd; try (intros w Hw; by apply Hadv);
    try (intros w Hw; simpl; destruct (timers w); [done | by apply Htick]);
    destruct HI as [-> | ->].
  all: unfold ab_open, ab_navigate, ab_click, ab_fill, ab_screenshot,
         ab_record_start, ab_record_stop, record_stop_finish, convertToGif,
         ab_close, ab_advanced, cleanup_start, reaper_tick, cleanup_stop,
         swallow, browser_close.
  all: keeps_walk.
Qed.

Lemma keeps_run_op cfg s3 tempDir join io op w :
  recording_has_path w -> recording_has_path (run_op cfg s3 tempDir join io op w).
Proof.
  apply (keeps_tools recording_has_path cfg s3 tempDir join io op); [by left|].
  by intros now w' Hw.
Qed.

Lemma registry_inv_run_op cfg s3 tempDir join io op w :
  registry_inv w -> registry_inv (run_op cfg s3 tempDir join io op w).
Proof.
  apply (keeps_tools registry_inv cfg s3 tempDir join io op); [by right|].
  by intros now w' Hw.
Qed.

Lemma keeps_run_ops cfg s3 tempDir join steps : forall w,
  recording_has_path w -> recording_has_path (run_ops cfg s3 tempDir join steps w).
Proof.
  induction steps as [|[io op] steps IH]; intros w Hw; simpl; [done|].
  by apply IH, keeps_run_op.
Qed.

(** Every world the tools and hooks can reach from the initial one satisfies
    the hypothesis under which the reaper and the stop hook are specified. *)
Lemma registry_ok_reachable cfg s3 tempDir join steps t :
  registry_ok (run_ops cfg s3 tempDir join steps (initial t)).
Proof.
  assert (forall w, registry_inv w ->
            registry_inv (run_ops cfg s3 tempDir join steps w)) as H.
  { induction steps as [|[io op] steps IH]; intros w Hw; simpl; [done|].
    by apply IH, registry_inv_run_op. }
  apply H. unfold registry_inv, registry_ok, initial. simpl.
  repeat split; by constructor.
Qed.

(** C5, as the code has it.  In every world reached from the initial one by
    the tools and hooks, and across each single one of them, a session whose
    [recording] flag is set has a [recordingPath].  The converse does not
    hold: a record-stop that returns its payload leaves the session with
    [recording = false] and with the [recordingPath] of the recording that
    just ended. *)
Theorem recording_implies_path :
  (forall cfg s3 tempDir join steps t,
      recording_has_path (run_ops cfg s3 tempDir join steps (initial t))) /\
  (forall cfg s3 tempDir join io op w,
      recording_has_path w ->
      recording_has_path (run_op cfg s3 tempDir join io op w)) /\
  (forall cfg s3 io params w s st p payload w',
      JsMap.get (p_session params) (sessions w) = Some s ->
      heap w !! s = Some st ->
      recording st = true ->
      recordingPath st = Some p ->
      ab_record_stop cfg s3 io params w = (Return payload, w') ->
      exists st',
        heap w' !! s = Some st' /\
        recording st' = false /\ recordingPath st' = Some p).
Proof.
  split; [|split].
  - intros. apply keeps_run_ops. intros s st. simpl. by rewrite lookup_empty.
  - intros. by apply keeps_run_op.
  - intros cfg s3 io params w s st p payload w' Hs Hst Hrec Hp Hrun.
    rewrite (ab_record_stop_run _ _ _ _ _ _ _ Hs Hst Hrec) in Hrun. simpl in Hrun.
    destruct (on_executeCommand io _) as [result|e]; [|done].
    match type of Hrun with record_stop_finish _ _ _ _ _ ?w0 = _ =>
      destruct (record_stop_finish_quiet cfg s3 io s result w0) as (_ & _ & _ & Hh & _)
    end.
    rewrite Hrun in Hh. simpl in Hh. rewrite Hh, lookup_insert_eq.
    eexists. split; [reflexivity|]. by simpl.
Qed.

Lemma recording_implies_path_witness :
  exists st',
    heap (ab_record_stop Sample.config false Sample.io (Sample.params "s1")
            (advance 4000 Sample.w1_recording)).2 !! 0%nat = Some st' /\
    recording st' = false /\
    recordingPath st' = Some "/tmp/agent-browser-plugin/s1-walkthrough.webm".
Proof.
  destruct recording_implies_path as (_ & _ & H).
  eapply (H Sample.config false Sample.io (Sample.params "s1")
            (advance 4000 Sample.w1_recording) 0%nat
            {| browser := 0; lastActivity := 3000; recording := true;
               recordingPath := Some "/tmp/agent-browser-plugin/s1-walkthrough.webm" |}).
  - vm_compute. reflexivity.
  - vm_compute. reflexivity.
  - reflexivity.
  - reflexivity.
  - vm_compute. reflexivity.
Defined.

(** C5 as stated fails: before the stop the path is there exactly while
    recording; the stop returns its payload; afterwards the session is not
    recording and still has its path. *)
Lemma path_iff_recording_broken_by_stop :
  path_iff_recording Sample.w1_recording /\
  (exists payload w',
      ab_record_stop Sample.config false Sample.io (Sample.params "s1")
        (advance 4000 Sample.w1_recording) = (Return payload, w')) /\
  ~ path_iff_recording
      (run_op Sample.config false Sample.tempDir Sample.join Sample.io
         (RecordStop (Sample.params "s1")) (advance 4000 Sample.w1_recording)).
Proof.
  split; [|split].
  - assert (heap Sample.w1_recording =
            {[ 0%nat := {| browser := 0; lastActivity := 3000; recording := true;
                           recordingPath :=
                             Some "/tmp/agent-browser-plugin/s1-walkthrough.webm" |} ]})
      as Hheap by (vm_compute; reflexivity).
    intros s st. rewrite Hheap. intros [<- <-]%lookup_singleton_Some. simpl.
    split; [done | by eexists].
  - do 2 eexists. vm_compute. reflexivity.
  - intros Hiff.
    destruct (Hiff 0%nat
                {| browser := 0; lastActivity := 4000; recording := false;
                   recordingPath :=
                     Some "/tmp/agent-browser-plugin/s1-walkthrough.webm" |})
      as [Habs _]; [vm_compute; reflexivity|].
    simpl in Habs. discriminate Habs. by eexists.
Qed.

(** *** Media post-processing *)

(** C8, as the code has it.  Record-stop on a recording session, with GIF
    conversion enabled and an artifact path [p] to convert: when ffmpeg fails
    with [e], the failure is caught and logged, and the tool goes on to
    [uploadToR2] with the original path [p], its file name and content type
    [video/webm].  From there the tool completes as that upload does: when
    the upload returns (a URL, or nothing when no storage is configured) the
    tool returns its payload with [localPath = p]; when the upload throws,
    the tool throws the same error.  The conversion failure itself is never
    what the tool throws. *)
Theorem gif_failure_keeps_original cfg s3 io params w s st result p e :
  JsMap.get (p_session params) (sessions w) = Some s ->
  heap w !! s = Some st ->
  recording st = true ->
  gif cfg = Some true ->
  on_executeCommand io (recording_stop_cmd w) = Fulfilled result ->
  final_path result st = Return (Some p) ->
  p ≠ EmptyString ->
  on_execSync io = Rejected e ->
  let w_failed := conversion_failed s st p e w in
  let filename := or_else (Some (split_pop p EmptyString)) "video.webm" in
  let frames := data result ≫= JsMap.get "frames" in
  ab_record_stop cfg s3 io params w =
    (let! remoteUrl := uploadToR2 cfg s3 io (Some p) filename "video/webm" in
     ret (PMedia (Some p) remoteUrl frames
            (recording_markdown remoteUrl "video/webm"))) w_failed /\
  (forall remoteUrl w',
      uploadToR2 cfg s3 io (Some p) filename "video/webm" w_failed
        = (Return remoteUrl, w') ->
      ab_record_stop cfg s3 io params w =
        (Return (PMedia (Some p) remoteUrl frames
                   (recording_markdown remoteUrl "video/webm")), w')) /\
  (s3 = false \/ r2 cfg = None ->
      ab_record_stop cfg s3 io params w =
        (Return (PMedia (Some p) None frames None), w_failed)) /\
  (forall e' w',
      uploadToR2 cfg s3 io (Some p) filename "video/webm" w_failed
        = (Throw e', w') ->
      ab_record_stop cfg s3 io params w = (Throw e', w')).
Proof.
  intros Hs Hst Hrec Hgif Hres Hpath Hp Hfail. cbv zeta.
  assert (ab_record_stop cfg s3 io params w =
    (let! remoteUrl := uploadToR2 cfg s3 io (Some p)
                         (or_else (Some (split_pop p EmptyString)) "video.webm")
                         "video/webm" in
     ret (PMedia (Some p) remoteUrl (data result ≫= JsMap.get "frames")
            (recording_markdown remoteUrl "video/webm")))
      (conversion_failed s st p e w)) as Heq.
  { rewrite (ab_record_stop_run _ _ _ _ _ _ _ Hs Hst Hrec). simpl. rewrite Hres.
    unfold record_stop_finish, bind at 1, deref. simpl. rewrite lookup_insert_eq.
    unfold bind at 1, complete.
    change (final_path result _) with (final_path result st). rewrite Hpath.
    rewrite Hgif.
    assert (String.eqb p EmptyString = false) as ->.
    { destruct p; [done | reflexivity]. }
    simpl.
    unfold bind at 1, try_catch, convertToGif, bind at 1, emit, await. simpl.
    rewrite Hfail. unfold throw, bind at 1. simpl.
    unfold conversion_failed, with_trace, put_heap. simpl.
    by rewrite <- !(assoc_L (++)). }
  split; [done|]. split; [|split].
  - intros remoteUrl w' Hup. rewrite Heq. unfold bind. by rewrite Hup.
  - intros Hnone. rewrite Heq. unfold bind, uploadToR2.
    destruct Hnone as [-> | ->]; [done|]. by destruct s3.
  - intros e' w' Hup. rewrite Heq. unfold bind. by rewrite Hup.
Qed.

Lemma gif_failure_keeps_original_witness :
  ab_record_stop Sample.config false Sample.io (Sample.params "s1")
    (advance 4000 Sample.w1_recording) =
    (Return (PMedia (Some "/tmp/test.webm") None (Some (VNum 100)) None),
     conversion_failed 0%nat
       {| browser := 0; lastActivity := 3000; recording := true;
          recordingPath := Some "/tmp/agent-browser-plugin/s1-walkthrough.webm" |}
       "/tmp/test.webm" "Command failed: ffmpeg"
       (advance 4000 Sample.w1_recording)).
Proof.
  eapply (gif_failure_keeps_original Sample.config false Sample.io
            (Sample.params "s1") (advance 4000 Sample.w1_recording) 0%nat
            {| browser := 0; lastActivity := 3000; recording := true;
               recordingPath := Some "/tmp/agent-browser-plugin/s1-walkthrough.webm" |}
            Sample.stopped "/tmp/test.webm" "Command failed: ffmpeg").
  - vm_compute. reflexivity.
  - vm_compute. reflexivity.
  - reflexivity.
  - reflexivity.
  - reflexivity.
  - reflexivity.
  - discriminate.
  - reflexivity.
  - left. reflexivity.
Defined.

(** C8 as stated fails: GIF conversion is enabled, [s1] is recording, ffmpeg
    fails, and the operation fails all the same.  The conversion failure is
    caught and logged and the upload is attempted on the original artifact,
    but storage is configured and the file cannot be read, so the tool
    throws and returns no result at all. *)
Lemma gif_failure_then_upload_throws :
  let w := advance 4000 recording_with_storage in
  let out := ab_record_stop storage_config true io_disk_failing
               (Sample.params "s1") w in
  gif storage_config = Some true /\
  on_execSync io_disk_failing = Rejected "Command failed: ffmpeg" /\
  (exists s st, JsMap.get "s1" (sessions w) = Some s /\
                heap w !! s = Some st /\ recording st = true) /\
  out.1 = Throw "ENOENT: no such file or directory" /\
  trace out.2 = trace w ++
    [EvExecute (recording_stop_cmd w) 0%nat;
     EvConvertToGif "/tmp/test.webm" "/tmp/test.gif";
     EvLog "[agent-browser] GIF conversion failed: Command failed: ffmpeg";
     EvReadFile (Some "/tmp/test.webm")].
Proof.
  cbv zeta. split; [reflexivity|]. split; [reflexivity|]. split.
  { exists 0%nat. eexists. split; [vm_compute; reflexivity|].
    split; [vm_compute; reflexivity | reflexivity]. }
  split; vm_compute; reflexivity.
Qed.

(** *** Idle reaper and shutdown *)

Lemma delete_not_key {V} (k : string) (m : list (string * V)) :
  k ∉ JsMap.keys m -> JsMap.delete k m = m.
Proof.
  unfold JsMap.keys. induction m as [|[k' v] m IH]; simpl; [done|].
  rewrite not_elem_of_cons. intros [Hne Hm].
  rewrite decide_False by done. by rewrite IH.
Qed.

Lemma delete_app {V} (k : string) (a b : list (string * V)) :
  JsMap.delete k (a ++ b) = JsMap.delete k a ++ JsMap.delete k b.
Proof.
  induction a as [|[k' v] a IH]; simpl; [done|].
  destruct (decide (k = k')); by rewrite IH.
Qed.

Lemma delete_middle {V} (k : string) (v : V) (a b : list (string * V)) :
  k ∉ JsMap.keys a -> k ∉ JsMap.keys b ->
  JsMap.delete k (a ++ (k, v) :: b) = a ++ b.
Proof.
  intros Ha Hb. rewrite delete_app. simpl. rewrite decide_True by done.
  by rewrite !delete_not_key.
Qed.

Lemma keys_filter_subseteq {V} (P : string * V -> Prop) `{!forall e, Decision (P e)}
    (m : list (string * V)) k :
  k ∈ JsMap.keys (filter P m) -> k ∈ JsMap.keys m.
Proof.
  unfold JsMap.keys. rewrite !list_elem_of_fmap.
  intros (e & -> & He). exists e. split; [done|].
  by apply list_elem_of_filter in He as [_ He].
Qed.

Lemma get_of_elem {V} (k : string) (v : V) (m : list (string * V)) :
  NoDup (JsMap.keys m) -> (k, v) ∈ m -> JsMap.get k m = Some v.
Proof.
  unfold JsMap.keys. induction m as [|[k' v'] m IH]; simpl.
  - intros _ H. by apply elem_of_nil in H.
  - rewrite NoDup_cons. intros [Hk Hm] [Heq|Hin]%elem_of_cons.
    + simplify_eq. by rewrite decide_True.
    + destruct (decide (k = k')) as [->|Hne]; [|by apply IH].
      exfalso. apply Hk. apply list_elem_of_fmap. by exists (k', v).
Qed.

Lemma reaper_loop cfg io w l : forall pre w0,
  NoDup (JsMap.keys (pre ++ l)) ->
  heap w0 = heap w ->
  sessions w0 = filter (fun e => is_idle cfg w e = false) pre ++ l ->
  Forall (fun e => is_Some (heap w !! e.2)) l ->
  for_of l (fun entry =>
      let! session := deref entry.2 in
      if bool_decide (clock w - lastActivity session
                      > default 300000 (idleTimeoutMs cfg))%Z then
        emit (EvLog ("[agent-browser] Closing idle session: " +:+ entry.1));;;
        swallow (browser_close io (browser session));;;
        sessions_delete entry.1
      else ret tt) w0
  = (Return tt,
     put_sessions (filter (fun e => is_idle cfg w e = false) (pre ++ l))
       (with_trace (trace w0 ++ flat_map (reap_events cfg w) l) w0)).
Proof.
  induction l as [|[name s] l IH]; intros pre w0 Hnd Hheap Hsess Hall.
  - simpl. rewrite !(right_id_L [] (++)) in *. unfold ret, put_sessions, with_trace.
    rewrite <- Hsess. by destruct w0.
  - apply Forall_cons in Hall as [[st Hst] Hall]. simpl in Hst.
    assert ((name ∉ JsMap.keys pre) /\ (name ∉ JsMap.keys l)) as [Hpre Hl].
    { unfold JsMap.keys in *. rewrite fmap_app in Hnd. simpl in Hnd.
      apply NoDup_app in Hnd as (_ & Hdisj & Hnd').
      apply NoDup_cons in Hnd' as [Hl _]. split; [|done].
      intros Hin. apply (Hdisj _ Hin). left. }
    assert (is_idle cfg w (name, s) =
            bool_decide (clock w - lastActivity st
                         > default 300000 (idleTimeoutMs cfg))%Z) as Hid.
    { unfold is_idle. simpl. by rewrite Hst. }
    assert (reap_events cfg w (name, s) =
            if is_idle cfg w (name, s)
            then [EvLog ("[agent-browser] Closing idle session: " +:+ name);
                  EvBrowserClose (browser st)]
            else []) as Hev.
    { unfold reap_events. simpl. by rewrite Hst. }
    replace (pre ++ (name, s) :: l) with ((pre ++ [(name, s)]) ++ l) in *
      by (by rewrite <- (assoc_L (++))).
    cbn [for_of flat_map]. rewrite Hev.
    unfold bind at 1. unfold bind at 1, deref. cbn [snd]. rewrite Hheap, Hst.
    rewrite <- Hid. destruct (is_idle cfg w (name, s)) eqn:Hidle.
    + unfold bind at 1. unfold bind at 1, emit. cbn [fst].
      unfold bind at 1, swallow, try_catch, browser_close, bind at 1, emit.
      assert (forall w1 : World,
                match await (on_close io (browser st)) w1 with
                | (Return a, w') => (Return a, w')
                | (Throw _, w') => ret tt w'
                end = (Return tt, w1)) as Hswallow.
      { intros w1. by destruct (on_close io (browser st)) as [[]|]. }
      rewrite Hswallow. unfold sessions_delete.
      rewrite (IH (pre ++ [(name, s)])); try done.
      * unfold put_sessions, with_trace. simpl.
        by rewrite <- !(assoc_L (++)).
      * simpl. rewrite Hsess, filter_app, filter_cons_False, filter_nil,
          (right_id_L [] (++)) by (by rewrite Hidle).
        apply delete_middle; [|done].
        intros Hin. by apply Hpre, (keys_filter_subseteq _ _ _ Hin).
    + unfold ret at 1.
      rewrite (IH (pre ++ [(name, s)])); try done.
      rewrite Hsess, filter_app, filter_cons_True, filter_nil by done.
      by rewrite <- (assoc_L (++)).
Qed.

Lemma reaper_tick_run cfg io w :
  NoDup (JsMap.keys (sessions w)) ->
  Forall (fun e => is_Some (heap w !! e.2)) (sessions w) ->
  reaper_tick cfg io w =
    (Return tt,
     put_sessions (filter (fun e => is_idle cfg w e = false) (sessions w))
       (with_trace (trace w ++ flat_map (reap_events cfg w) (sessions w)) w)).
Proof.
  intros Hnd Hall.
  unfold reaper_tick, bind at 1, Date_now. unfold bind at 1, sessions_entries.
  cbv zeta. by apply (reaper_loop cfg io w (sessions w) [] w).
Qed.

Lemma keys_filter_NoDup {V} (P : string * V -> Prop) `{!forall e, Decision (P e)}
    (m : list (string * V)) :
  NoDup (JsMap.keys m) -> NoDup (JsMap.keys (filter P m)).
Proof.
  unfold JsMap.keys. intros Hnd.
  eapply sublist_NoDup; [exact Hnd|]. apply fmap_sublist, sublist_filter.
Qed.

Lemma closes_app b tr1 tr2 :
  closes b (tr1 ++ tr2) = (closes b tr1 + closes b tr2)%nat.
Proof. apply occurrences_app. Qed.

Lemma closes_reap_other cfg w m b :
  Forall (fun e => exists st, heap w !! e.2 = Some st /\ browser st = e.2) m ->
  b ∉ m.*2 ->
  closes b (flat_map (reap_events cfg w) m) = 0%nat.
Proof.
  induction m as [|[name s] m IH]; simpl; [done|].
  rewrite Forall_cons, not_elem_of_cons. intros [(st & Hst & Hb) Hall] [Hne Hm].
  rewrite closes_app, IH by done. simpl in *.
  unfold reap_events. simpl. rewrite Hst. simpl.
  destruct (is_idle cfg w (name, s)); [|done].
  unfold closes, occurrences. simpl. rewrite Hb. by rewrite bool_decide_false.
Qed.

Lemma closes_reap_entry cfg w m name s :
  NoDup m.*2 ->
  Forall (fun e => exists st, heap w !! e.2 = Some st /\ browser st = e.2) m ->
  (name, s) ∈ m ->
  closes s (flat_map (reap_events cfg w) m) =
    if is_idle cfg w (name, s) then 1%nat else 0%nat.
Proof.
  induction m as [|[name' s'] m IH]; simpl.
  - intros _ _ H. by apply elem_of_nil in H.
  - rewrite NoDup_cons, Forall_cons.
    intros [Hs' Hnd] [(st & Hst & Hb) Hall] [Heq|Hin]%elem_of_cons; simpl in *.
    + injection Heq as <- <-.
      rewrite closes_app, (closes_reap_other cfg w m s) by done.
      unfold reap_events. simpl. rewrite Hst. simpl.
      destruct (is_idle cfg w (name, s)); [|done].
      unfold closes, occurrences. simpl. rewrite Hb. by rewrite bool_decide_true.
    + assert (s' ≠ s) as Hne.
      { intros ->. apply Hs'. apply list_elem_of_fmap. by exists (name, s). }
      rewrite closes_app, IH by done.
      unfold reap_events at 1. simpl. rewrite Hst. simpl.
      destruct (is_idle cfg w (name', s')); [|done].
      unfold closes, occurrences. simpl. rewrite Hb. by rewrite bool_decide_false.
Qed.

(** C6.  A reaper tick, at the clock reading [now] of the world, removes from
    the registry exactly the sessions with [now - lastActivity > timeout]
    ([idleTimeoutMs], default 300000), and calls [close()] on the browser of
    each of them once; a session within the threshold keeps its entry, its
    browser is not closed and its state is what it was.  No session object
    is modified, and the tick itself never throws, whatever [close()]
    answers. *)
Theorem reaper_tick_reaps_exactly_idle cfg io w :
  registry_ok w ->
  exists evs w',
    reaper_tick cfg io w = (Return tt, w') /\
    trace w' = trace w ++ evs /\
    heap w' = heap w /\
    sessions w' = filter (fun e => is_idle cfg w e = false) (sessions w) /\
    forall name s st,
      (name, s) ∈ sessions w ->
      heap w !! s = Some st ->
      if bool_decide (clock w - lastActivity st
                      > default 300000 (idleTimeoutMs cfg))%Z
      then JsMap.get name (sessions w') = None /\
           closes (browser st) evs = 1%nat
      else JsMap.get name (sessions w') = Some s /\
           closes (browser st) evs = 0%nat /\
           heap w' !! s = Some st.
Proof.
  intros (Hnd & Hnd2 & Hall).
  assert (Forall (fun e => is_Some (heap w !! e.2)) (sessions w)) as Hall'.
  { eapply Forall_impl; [exact Hall|]. intros e (st & -> & _). by eexists. }
  exists (flat_map (reap_events cfg w) (sessions w)). eexists.
  split; [by apply reaper_tick_run|]. simpl.
  split; [done|]. split; [done|]. split; [done|].
  intros name s st Hin Hst.
  assert (browser st = s) as Hb.
  { rewrite Forall_forall in Hall. destruct (Hall _ Hin) as (st' & Hst' & Hb).
    simpl in *. by simplify_eq. }
  assert (is_idle cfg w (name, s) =
          bool_decide (clock w - lastActivity st
                       > default 300000 (idleTimeoutMs cfg))%Z) as Hid.
  { unfold is_idle. simpl. by rewrite Hst. }
  rewrite Hb, (closes_reap_entry cfg w _ name s Hnd2 Hall Hin), Hid.
  case_bool_decide as Hidle.
  - split; [|done]. apply get_None_not_key. intros Hk.
    unfold JsMap.keys in Hk. apply list_elem_of_fmap in Hk as ([name' s'] & Hn & He).
    simpl in Hn. subst name'.
    apply list_elem_of_filter in He as [Hnot He].
    pose proof (get_of_elem _ _ _ Hnd Hin) as H1.
    pose proof (get_of_elem _ _ _ Hnd He) as H2.
    assert (s' = s) as -> by congruence.
    rewrite Hid in Hnot. done.
  - split; [|done]. apply get_of_elem; [by apply keys_filter_NoDup|].
    apply list_elem_of_filter. split; [|done].
    exact Hid.
Qed.

Lemma registry_okb_ok w : registry_okb w = true -> registry_ok w.
Proof.
  unfold registry_okb, registry_ok.
  rewrite !andb_true_iff, !bool_decide_eq_true, forallb_forall.
  intros [[Hnd Hnd2] Hall]. split; [done|]. split; [done|].
  apply Forall_forall. intros e He. apply list_elem_of_In, Hall in He.
  destruct (heap w !! e.2) as [st|]; [|done].
  exists st. split; [done|]. by apply bool_decide_eq_true in He.
Qed.

Lemma reaper_tick_reaps_exactly_idle_witness :
  exists evs w',
    reaper_tick Sample.config Sample.io (advance 301500 Sample.w2) = (Return tt, w') /\
    trace w' = trace Sample.w2 ++ evs /\
    sessions w' = [("s2", 1%nat)] /\
    closes 0 evs = 1%nat /\ closes 1 evs = 0%nat.
Proof.
  destruct (reaper_tick_reaps_exactly_idle Sample.config Sample.io
              (advance 301500 Sample.w2))
    as (evs & w' & Hrun & Htr & _ & Hs & Hall).
  { apply registry_okb_ok. vm_compute. reflexivity. }
  exists evs, w'. split; [exact Hrun|]. split; [exact Htr|].
  split; [rewrite Hs; vm_compute; reflexivity|].
  assert (sessions (advance 301500 Sample.w2) = [("s1", 0%nat); ("s2", 1%nat)])
    as Hsess by (vm_compute; reflexivity).
  split.
  - specialize (Hall "s1" 0%nat
                  {| browser := 0; lastActivity := 1000;
                     recording := false; recordingPath := None |}).
    rewrite Hsess in Hall. simpl in Hall.
    apply Hall; [apply elem_of_cons; by left | vm_compute; reflexivity].
  - specialize (Hall "s2" 1%nat
                  {| browser := 1; lastActivity := 2000;
                     recording := false; recordingPath := None |}).
    rewrite Hsess in Hall. simpl in Hall.
    apply Hall; [| vm_compute; reflexivity].
    apply elem_of_cons; right. apply elem_of_cons; by left.
Defined.

Lemma drain_loop io w l : forall w0,
  heap w0 = heap w ->
  Forall (fun e => is_Some (heap w !! e.2)) l ->
  for_of l (fun entry =>
      let! session := deref entry.2 in
      emit (EvLog ("[agent-browser] Closing session on shutdown: " +:+ entry.1));;;
      swallow (browser_close io (browser session))) w0
  = (Return tt, with_trace (trace w0 ++ flat_map (drain_events w) l) w0).
Proof.
  induction l as [|[name s] l IH]; intros w0 Hheap Hall.
  - simpl. unfold ret, with_trace. rewrite (right_id_L [] (++)). by destruct w0.
  - apply Forall_cons in Hall as [[st Hst] Hall]. simpl in Hst.
    cbn [for_of flat_map].
    unfold bind at 1. unfold bind at 1, deref. cbn [snd]. rewrite Hheap, Hst.
    unfold bind at 1, emit. cbn [fst].
    unfold swallow, try_catch, browser_close, bind at 1, emit.
    assert (forall w1 : World,
              match await (on_close io (browser st)) w1 with
              | (Return a, w') => (Return a, w')
              | (Throw _, w') => ret tt w'
              end = (Return tt, w1)) as Hswallow.
    { intros w1. by destruct (on_close io (browser st)) as [[]|]. }
    rewrite Hswallow, IH by done.
    unfold with_trace, drain_events. simpl. rewrite Hst. simpl.
    by rewrite <- !(assoc_L (++)).
Qed.

Lemma cleanup_stop_run io w :
  Forall (fun e => is_Some (heap w !! e.2)) (sessions w) ->
  cleanup_stop io w =
    (Return tt,
     put_sessions []
       (with_trace (trace w ++ flat_map (drain_events w) (sessions w)) w)).
Proof.
  intros Hall. unfold cleanup_stop, bind at 1, sessions_entries.
  unfold bind at 1. by rewrite (drain_loop io w (sessions w) w).
Qed.

Lemma closes_drain_other w m b :
  Forall (fun e => exists st, heap w !! e.2 = Some st /\ browser st = e.2) m ->
  b ∉ m.*2 ->
  closes b (flat_map (drain_events w) m) = 0%nat.
Proof.
  induction m as [|[name s] m IH]; simpl; [done|].
  rewrite Forall_cons, not_elem_of_cons. intros [(st & Hst & Hb) Hall] [Hne Hm].
  simpl in *. rewrite Hst. simpl.
  change (closes b (flat_map (drain_events w) m)) with
    (occurrences (is_close_of b) (flat_map (drain_events w) m)) in IH.
  unfold closes, occurrences in *. simpl.
  rewrite Hb, bool_decide_false by done. by apply IH.
Qed.

Lemma closes_drain_entry w m name s :
  NoDup m.*2 ->
  Forall (fun e => exists st, heap w !! e.2 = Some st /\ browser st = e.2) m ->
  (name, s) ∈ m ->
  closes s (flat_map (drain_events w) m) = 1%nat.
Proof.
  induction m as [|[name' s'] m IH]; simpl.
  - intros _ _ H. by apply elem_of_nil in H.
  - rewrite NoDup_cons, Forall_cons.
    intros [Hs' Hnd] [(st & Hst & Hb) Hall] [Heq|Hin]%elem_of_cons; simpl in *.
    + injection Heq as <- <-. rewrite Hst. simpl.
      pose proof (closes_drain_other w m s Hall Hs') as Hrest.
      unfold closes, occurrences in *. simpl.
      rewrite Hb, bool_decide_true by done. simpl. by rewrite Hrest.
    + assert (s' ≠ s) as Hne.
      { intros ->. apply Hs'. apply list_elem_of_fmap. by exists (name, s). }
      rewrite Hst. simpl. specialize (IH Hnd Hall Hin).
      unfold closes, occurrences in *. simpl.
      by rewrite Hb, bool_decide_false.
Qed.

Lemma advance_same w : advance (clock w) w = w.
Proof. by destruct w. Qed.

Lemma Map_next_passed visited (l1 l2 : list (string * Handle)) :
  Forall (fun e => e.2 ∈ visited) l1 ->
  Map_next visited (l1 ++ l2) = Map_next visited l2.
Proof.
  unfold Map_next. induction l1 as [|e l1 IH]; [done|].
  rewrite Forall_cons. intros [He Hl1]. simpl.
  rewrite bool_decide_true by done. simpl. by apply IH.
Qed.

Lemma Map_next_head visited (e : string * Handle) l :
  e.2 ∉ visited -> Map_next visited (e :: l) = Some e.
Proof. intros He. unfold Map_next. simpl. by rewrite bool_decide_false. Qed.

Lemma Map_next_Some visited m e :
  Map_next visited m = Some e -> e ∈ m /\ e.2 ∉ visited.
Proof.
  unfold Map_next. induction m as [|e' m IH]; simpl; [done|].
  case_bool_decide as Hv; simpl.
  - intros H. destruct (IH H). split; [by apply elem_of_cons; right | done].
  - intros [= <-]. split; [by apply elem_of_cons; left | done].
Qed.

Lemma Map_next_None visited m e :
  Map_next visited m = None -> e ∈ m -> e.2 ∈ visited.
Proof.
  unfold Map_next. induction m as [|e' m IH]; simpl.
  - intros _ H. by apply elem_of_nil in H.
  - case_bool_decide as Hv; simpl; [|done].
    intros H [->|Hin]%elem_of_cons; [done | by apply IH].
Qed.

Lemma swallow_await (p : Settled unit) w : swallow (await p) w = (Return tt, w).
Proof. unfold swallow, try_catch, await. by destruct p as [[]|]. Qed.

(** One segment of the hook that finds an entry to visit. *)
Lemma step_stop_visit io t visited w name s st :
  (t = StopReady /\ visited = [] \/ exists closing, t = StopAwaiting visited closing) ->
  Map_next visited (sessions w) = Some (name, s) ->
  heap w !! s = Some st ->
  step_stop io t w =
    (StopAwaiting (visited ++ [s]) (on_close io (browser st)),
     with_trace (trace w ++ [EvLog ("[agent-browser] Closing session on shutdown: "
                                    +:+ name);
                             EvBrowserClose (browser st)]) w).
Proof.
  intros Ht Hnext Hst.
  assert (cleanup_stop_iterate io visited w =
    (Return (StopAwaiting (visited ++ [s]) (on_close io (browser st))),
     with_trace (trace w ++ [EvLog ("[agent-browser] Closing session on shutdown: "
                                    +:+ name);
                             EvBrowserClose (browser st)]) w)) as Hit.
  { unfold cleanup_stop_iterate, bind at 1, sessions_entries. rewrite Hnext.
    unfold bind, deref, emit, ret, with_trace. simpl. rewrite Hst. simpl.
    by rewrite <- (assoc_L (++)). }
  destruct Ht as [[-> ->]|[closing ->]]; simpl.
  - by rewrite Hit.
  - unfold bind at 1. by rewrite swallow_await, Hit.
Qed.

(** One segment of the hook that finds nothing left to visit. *)
Lemma step_stop_finish io t visited w :
  (t = StopReady /\ visited = [] \/ exists closing, t = StopAwaiting visited closing) ->
  Map_next visited (sessions w) = None ->
  step_stop io t w = (StopFinished (Return tt), put_sessions [] w).
Proof.
  intros Ht Hnext.
  assert (cleanup_stop_iterate io visited w =
            (Return (StopFinished (Return tt)), put_sessions [] w)) as Hit.
  { unfold cleanup_stop_iterate, bind at 1, sessions_entries. by rewrite Hnext. }
  destruct Ht as [[-> ->]|[closing ->]]; simpl.
  - by rewrite Hit.
  - unfold bind at 1. by rewrite swallow_await, Hit.
Qed.

Lemma step_stop_timers io t w : timers (step_stop io t w).2 = timers w.
Proof.
  destruct t as [|visited closing|r]; simpl; [| |done].
  - unfold cleanup_stop_iterate, bind at 1, sessions_entries.
    destruct (Map_next [] (sessions w)) as [[name s]|]; [|done].
    unfold bind, deref, emit, ret. simpl. by destruct (heap w !! s).
  - unfold bind at 1. rewrite swallow_await.
    unfold cleanup_stop_iterate, bind at 1, sessions_entries.
    destruct (Map_next visited (sessions w)) as [[name s]|]; [|done].
    unfold bind, deref, emit, ret. simpl. by destruct (heap w !! s).
Qed.

Lemma last_nonempty {A} (l : list A) (d d' : A) :
  l <> [] -> List.last l d = List.last l d'.
Proof.
  induction l as [|a l IH]; [done|]. intros _.
  destruct l as [|b l]; [done|]. simpl in *. by apply IH.
Qed.

Lemma last_cons {A} (l : list A) (a d : A) :
  l <> [] -> List.last (a :: l) d = List.last l a.
Proof.
  intros Hl. destruct l as [|b l]; [done|].
  change (List.last (a :: b :: l) d) with (List.last (b :: l) d).
  by apply last_nonempty.
Qed.

Lemma drain_events_heap w w' e :
  heap w' = heap w -> drain_events w' e = drain_events w e.
Proof. intros H. unfold drain_events. by rewrite H. Qed.

(** The hook on its own visits the entries of the registry one by one, in
    order, and ends with the registry cleared. *)
Lemma run_stop_alone cfg s3 tempDir join io l2 : forall l1 nows t w,
  (t = StopReady /\ l1 = [] \/ exists closing, t = StopAwaiting l1.*2 closing) ->
  sessions w = l1 ++ l2 ->
  NoDup (l1 ++ l2).*2 ->
  Forall (fun e => is_Some (heap w !! e.2)) l2 ->
  length nows = S (length l2) ->
  run_stop cfg s3 tempDir join io (alone nows) t w =
    (StopFinished (Return tt),
     advance (List.last nows (clock w))
       (put_sessions []
          (with_trace (trace w ++ flat_map (drain_events w) l2) w))).
Proof.
  induction l2 as [|[name s] l2 IH]; intros l1 nows t w Ht Hsess Hnd Hall Hlen.
  - destruct nows as [|now [|? ?]]; try done. simpl.
    rewrite (step_stop_finish io t (l1.*2)).
    + unfold advance, put_sessions, with_trace. simpl.
      by rewrite (right_id_L [] (++)).
    + destruct Ht as [[-> ->]|Ht]; [by left | by right].
    + simpl. rewrite Hsess, Map_next_passed; [done|].
      apply Forall_forall. intros e He. apply list_elem_of_fmap. by exists e.
  - destruct nows as [|now nows]; [done|]. simpl in Hlen.
    apply Forall_cons in Hall as [[st Hst] Hall]. simpl in Hst.
    assert (s ∉ l1.*2) as Hs.
    { rewrite fmap_app in Hnd. apply NoDup_app in Hnd as (_ & Hdisj & _).
      intros Hin. apply (Hdisj _ Hin). simpl. apply elem_of_cons. by left. }
    change (alone (now :: nows)) with ((now, HookTurn) :: alone nows).
    cbn [run_stop].
    rewrite (step_stop_visit io t (l1.*2) (advance now w) name s st).
    + rewrite (IH (l1 ++ [(name, s)]) nows).
      * f_equal. rewrite (last_cons nows now (clock w)) by (by destruct nows).
        unfold advance, put_sessions, with_trace, drain_events.
        cbn [sessions heap next clock timers trace flat_map fst snd].
        rewrite Hst. simpl. by rewrite <- !(assoc_L (++)).
      * right. eexists. by rewrite fmap_app.
      * simpl. rewrite Hsess. by rewrite <- (assoc_L (++)).
      * by rewrite <- (assoc_L (++)).
      * done.
      * lia.
    + destruct Ht as [[-> ->]|Ht]; [by left | by right].
    + simpl. rewrite Hsess, Map_next_passed.
      * by apply Map_next_head.
      * apply Forall_forall. intros e He. apply list_elem_of_fmap. by exists e.
    + done.
Qed.

Lemma last_replicate {A} n (x d : A) : List.last (replicate (S n) x) d = x.
Proof.
  induction n as [|n IHn]; [done|].
  change (replicate (S (S n)) x) with (x :: replicate (S n) x).
  change (List.last (x :: replicate (S n) x) d)
    with (List.last (replicate (S n) x) d).
  apply IHn.
Qed.

(** Run in one go, the segments of the hook are the hook. *)
Lemma cleanup_stop_as_segments cfg s3 tempDir join io w :
  registry_ok w ->
  cleanup_stop io w =
    (Return tt,
     (run_stop cfg s3 tempDir join io
        (alone (replicate (S (length (sessions w))) (clock w))) StopReady w).2).
Proof.
  intros (Hnd & Hnd2 & Hall).
  assert (Forall (fun e => is_Some (heap w !! e.2)) (sessions w)) as Hall'.
  { eapply Forall_impl; [exact Hall|]. intros e (st & -> & _). by eexists. }
  rewrite (run_stop_alone cfg s3 tempDir join io (sessions w) []); try done.
  - rewrite cleanup_stop_run by done. cbn [snd]. f_equal.
    rewrite last_replicate. unfold advance, put_sessions, with_trace. by simpl.
  - by left.
  - by rewrite length_replicate.
Qed.

Lemma filter_sublist_length {A} (P : A -> Prop) `{!forall x, Decision (P x)}
    (l' l : list A) :
  sublist l' l -> length (filter P l') <= length (filter P l).
Proof.
  induction 1 as [|x l1 l2 _ IH|x l1 l2 _ IH]; [done|..];
    rewrite ?filter_cons; repeat case_decide; simpl; lia.
Qed.

Lemma unvisited_le visited s (l : list (string * Handle)) :
  length (filter (fun e => e.2 ∉ visited ++ [s]) l)
    <= length (filter (fun e => e.2 ∉ visited) l).
Proof.
  induction l as [|e l IH]; [done|].
  rewrite !filter_cons. repeat case_decide; simpl; try lia.
  exfalso. set_solver.
Qed.

Lemma unvisited_decreases visited name s (l : list (string * Handle)) :
  (name, s) ∈ l -> s ∉ visited ->
  length (filter (fun e => e.2 ∉ visited ++ [s]) l)
    < length (filter (fun e => e.2 ∉ visited) l).
Proof.
  intros Hin Hs. induction l as [|e l IH]; [by apply elem_of_nil in Hin|].
  apply elem_of_cons in Hin as [<-|Hin].
  - rewrite !filter_cons. simpl.
    rewrite decide_False by set_solver. rewrite decide_True by done.
    pose proof (unvisited_le visited s l). simpl. lia.
  - specialize (IH Hin). rewrite !filter_cons.
    repeat case_decide; simpl; try lia. exfalso. set_solver.
Qed.

Lemma same_handle_same_name (m : list (string * Handle)) name name' s :
  NoDup m.*2 -> (name, s) ∈ m -> (name', s) ∈ m -> name = name'.
Proof.
  induction m as [|[n0 s0] m IH]; simpl.
  - intros _ H. by apply elem_of_nil in H.
  - rewrite NoDup_cons. intros [Hs0 Hnd] H1 H2.
    apply elem_of_cons in H1 as [H1|H1]; apply elem_of_cons in H2 as [H2|H2].
    + congruence.
    + exfalso. injection H1 as -> ->. apply Hs0.
      apply list_elem_of_fmap. by exists (name', s0).
    + exfalso. injection H2 as -> ->. apply Hs0.
      apply list_elem_of_fmap. by exists (name, s0).
    + by apply IH.
Qed.

Lemma stop_accounts_advance w0 visited now w :
  stop_accounts w0 visited w -> stop_accounts w0 visited (advance now w).
Proof. done. Qed.

Lemma stop_done_advance w0 now w : stop_done w0 w -> stop_done w0 (advance now w).
Proof. done. Qed.

Lemma stop_accounts_registry w0 visited w :
  registry_ok w0 -> stop_accounts w0 visited w ->
  NoDup (JsMap.keys (sessions w)) /\ NoDup (sessions w).*2 /\
  Forall (fun e => exists st, heap w !! e.2 = Some st /\ browser st = e.2)
         (sessions w).
Proof.
  intros (Hnd & Hnd2 & Hall) (Hheap & _ & Hsub & _). split; [|split].
  - unfold JsMap.keys in *. eapply sublist_NoDup; [exact Hnd|]. by apply fmap_sublist.
  - eapply sublist_NoDup; [exact Hnd2|]. by apply fmap_sublist.
  - rewrite Hheap. apply Forall_forall. intros e He.
    rewrite Forall_forall in Hall. apply Hall. by eapply elem_of_sublist.
Qed.

(** A reaper tick while the hook is suspended. *)
Lemma stop_accounts_tick cfg s3 tempDir join io' w0 visited w :
  registry_ok w0 -> stop_accounts w0 visited w ->
  let w' := run_call cfg s3 tempDir join io' (Core ReaperTick) w in
  stop_accounts w0 visited w' /\ sublist (sessions w') (sessions w).
Proof.
  intros Hok Hacc. cbv zeta.
  destruct (stop_accounts_registry w0 visited w Hok Hacc) as (Hnd & Hnd2 & Hall).
  destruct Hacc as (Hheap & Htimers & Hsub & Hcount).
  cbn [run_call run_op]. case_eq (timers w); [intros _|intros ms rest _].
  { split; [|done]. split; [done|]. split; [done|]. by split. }
  assert (Forall (fun e => is_Some (heap w !! e.2)) (sessions w)) as Hall'.
  { eapply Forall_impl; [exact Hall|]. intros e (st & -> & _). by eexists. }
  rewrite (reaper_tick_run cfg io' w Hnd Hall'). cbn [snd].
  split; [|apply sublist_filter].
  split; [done|]. split; [done|]. split.
  { simpl. etrans; [apply sublist_filter | exact Hsub]. }
  intros name s Hin. simpl. rewrite closes_app, (Hcount name s Hin).
  destruct Hok as (_ & Hnd0 & _).
  destruct (decide ((name, s) ∈ sessions w)) as [Hlive|Hlive];
    [rewrite (bool_decide_true ((name, s) ∈ sessions w)) by done
    |rewrite (bool_decide_false ((name, s) ∈ sessions w)) by done].
  - rewrite (closes_reap_entry cfg w _ name s Hnd2 Hall Hlive).
    destruct (is_idle cfg w (name, s)) eqn:Hidle.
    + rewrite (bool_decide_false ((name, s) ∈ filter _ _)); [lia|].
      intros [Hnot _]%list_elem_of_filter. congruence.
    + rewrite (bool_decide_true ((name, s) ∈ filter _ _)); [lia|].
      by apply list_elem_of_filter.
  - rewrite (closes_reap_other cfg w _ s Hall).
    + rewrite (bool_decide_false ((name, s) ∈ filter _ _)); [lia|].
      intros [_ ?]%list_elem_of_filter. done.
    + intros ([name' s'] & Heq & Hin')%list_elem_of_fmap. simpl in Heq. subst s'.
      apply Hlive.
      assert (name = name') as ->; [|done].
      eapply (same_handle_same_name (sessions w0)); [done | done |].
      by eapply elem_of_sublist.
Qed.

Lemma stop_done_tick cfg s3 tempDir join io' w0 w :
  stop_done w0 w ->
  stop_done w0 (run_call cfg s3 tempDir join io' (Core ReaperTick) w).
Proof.
  intros (Hs & Ht & Hc). cbn [run_call run_op].
  case_eq (timers w); [intros _; by split | intros ms rest _].
  rewrite reaper_tick_run; rewrite Hs; [|constructor|constructor].
  split; [done|]. split; [done|]. simpl. by rewrite (right_id_L [] (++)).
Qed.

(** A segment of the hook that visits an entry. *)
Lemma stop_accounts_visit w0 visited w name s :
  registry_ok w0 -> stop_accounts w0 visited w ->
  Map_next visited (sessions w) = Some (name, s) ->
  exists st, heap w !! s = Some st /\
    stop_accounts w0 (visited ++ [s])
      (with_trace (trace w ++ [EvLog ("[agent-browser] Closing session on shutdown: "
                                     +:+ name);
                              EvBrowserClose (browser st)]) w).
Proof.
  intros Hok Hacc Hnext.
  destruct (stop_accounts_registry w0 visited w Hok Hacc) as (_ & _ & Hall).
  destruct Hacc as (Hheap & Htimers & Hsub & Hcount).
  apply Map_next_Some in Hnext as [Hin Hnew]. simpl in Hnew.
  rewrite Forall_forall in Hall. destruct (Hall _ Hin) as (st & Hst & Hb).
  simpl in Hst, Hb. exists st. split; [done|].
  split; [done|]. split; [done|]. split; [done|].
  intros name' s' Hin'. simpl. rewrite closes_app, (Hcount name' s' Hin').
  unfold closes at 2, occurrences. simpl. rewrite Hb.
  destruct (decide (s = s')) as [<-|Hne].
  - rewrite (bool_decide_true (s = s)) by done.
    rewrite (bool_decide_false (s ∈ visited)) by done.
    rewrite (bool_decide_true (s ∈ visited ++ [s]))
      by (apply elem_of_app; right; by apply list_elem_of_singleton).
    simpl. lia.
  - rewrite (bool_decide_false (s = s')) by done.
    rewrite (bool_decide_ext (s' ∈ visited ++ [s]) (s' ∈ visited)).
    + simpl. lia.
    + rewrite elem_of_app, list_elem_of_singleton.
      split; [|by left]. intros [Hv|Heq]; [done | by destruct Hne].
Qed.

(** The last segment of the hook. *)
Lemma stop_accounts_finish w0 visited w :
  stop_accounts w0 visited w ->
  Map_next visited (sessions w) = None ->
  stop_done w0 (put_sessions [] w).
Proof.
  intros (Hheap & Htimers & Hsub & Hcount) Hnext.
  split; [done|]. split; [done|].
  intros name s Hin. simpl. rewrite (Hcount name s Hin).
  destruct (decide ((name, s) ∈ sessions w)) as [Hlive|Hlive];
    [rewrite (bool_decide_true ((name, s) ∈ sessions w)) by done
    |rewrite (bool_decide_false ((name, s) ∈ sessions w)) by done].
  - rewrite bool_decide_true by (by apply (Map_next_None _ _ _ Hnext Hlive)).
    left. lia.
  - case_bool_decide; [right | left]; lia.
Qed.

(** Among reaper ticks, at whatever clock readings, the hook finishes once it
    has been given its segments, and has then accounted for every session. *)
Lemma run_stop_racing cfg s3 tempDir join io w0 :
  registry_ok w0 ->
  forall schedule, Forall (fun e => hook_or_tick e.2 = true) schedule ->
  forall t w,
    stop_state w0 t w ->
    stop_needs t w <= hook_turns schedule ->
    exists w',
      run_stop cfg s3 tempDir join io schedule t w = (StopFinished (Return tt), w') /\
      stop_done w0 w'.
Proof.
  intros Hok schedule. induction schedule as [|[now turn] schedule IH];
    intros Hturns t w Hstate Hneeds.
  - destruct t as [|visited closing|r]; simpl in Hneeds; try lia.
    destruct Hstate as [-> Hdone]. by exists w.
  - apply Forall_cons in Hturns as [Hturn Hturns]. simpl in Hturn.
    destruct turn as [|io' c].
    + cbn [run_stop]. cbn [hook_turns] in Hneeds.
      assert (forall visited,
                (t = StopReady /\ visited = [] \/
                 exists closing, t = StopAwaiting visited closing) ->
                stop_accounts w0 visited w ->
                length (filter (fun e => e.2 ∉ visited) (sessions w))
                  <= hook_turns schedule ->
                exists w',
                  run_stop cfg s3 tempDir join io schedule
                    (step_stop io t (advance now w)).1
                    (step_stop io t (advance now w)).2
                  = (StopFinished (Return tt), w') /\ stop_done w0 w') as Hstep.
      { intros visited Ht Hacc Hlen.
        apply (stop_accounts_advance _ _ now) in Hacc.
        destruct (Map_next visited (sessions (advance now w)))
          as [[name s]|] eqn:Hnext.
        - destruct (stop_accounts_visit _ _ _ _ _ Hok Hacc Hnext)
            as (st & Hst & Hacc').
          rewrite (step_stop_visit io t visited _ name s st Ht Hnext Hst).
          apply IH; [done | exact Hacc' |]. cbn [stop_needs fst snd].
          apply Map_next_Some in Hnext as [Hin Hnew].
          pose proof (unvisited_decreases visited name s _ Hin Hnew) as Hlt.
          simpl in *. lia.
        - rewrite (step_stop_finish io t visited _ Ht Hnext).
          apply IH; [done | | simpl; lia].
          split; [done|]. by apply (stop_accounts_finish _ visited). }
      destruct (step_stop io t (advance now w)) as [t' w'] eqn:Hrun.
      destruct t as [|visited closing|r].
      * apply (Hstep []); [by left | exact Hstate |].
        simpl in Hneeds.
        pose proof (length_filter (fun e : string * Handle => e.2 ∉ []) (sessions w)).
        lia.
      * apply (Hstep visited); [right; by eexists | exact Hstate |].
        simpl in Hneeds. lia.
      * simpl in Hrun. injection Hrun as <- <-.
        apply IH; [done | | simpl; lia].
        destruct Hstate as [-> Hdone]. split; [done|].
        by apply stop_done_advance.
    + assert (c = Core ReaperTick) as ->.
      { destruct c as [[]| | | | | |]; simpl in Hturn; congruence. }
      cbn [run_stop]. cbn [hook_turns] in Hneeds.
      apply IH; [done| |].
      * destruct t as [|visited closing|r]; cbn [stop_state] in Hstate |- *.
        -- by destruct (stop_accounts_tick cfg s3 tempDir join io' w0 []
                          (advance now w) Hok
                          (stop_accounts_advance _ _ now _ Hstate)) as [Hacc _].
        -- by destruct (stop_accounts_tick cfg s3 tempDir join io' w0 visited
                          (advance now w) Hok
                          (stop_accounts_advance _ _ now _ Hstate)) as [Hacc _].
        -- destruct Hstate as [-> Hdone]. split; [done|].
           apply stop_done_tick. by apply stop_done_advance.
      * destruct t as [|visited closing|r];
          cbn [stop_state stop_needs] in Hstate, Hneeds |- *; [| |lia].
        -- destruct (stop_accounts_tick cfg s3 tempDir join io' w0 [] (advance now w)
                       Hok (stop_accounts_advance _ _ now _ Hstate)) as [_ Hsub].
           apply sublist_length in Hsub.
           change (sessions (advance now w)) with (sessions w) in Hsub. lia.
        -- destruct (stop_accounts_tick cfg s3 tempDir join io' w0 visited
                       (advance now w) Hok
                       (stop_accounts_advance _ _ now _ Hstate)) as [_ Hsub].
           pose proof (filter_sublist_length (fun e : string * Handle => e.2 ∉ visited)
                         _ _ Hsub) as Hle.
           change (sessions (advance now w)) with (sessions w) in Hle. lia.
Qed.

(** C9, as the code has it.  The start hook arms a 60000 ms interval timer
    and keeps no reference to it; no segment of the stop hook touches the
    timers, so a reaper that was armed stays armed while the hook runs and
    after it.  Run with nothing between its segments, the stop hook calls
    [close()] once on the browser of every session of the registry, in
    registry order, whatever the earlier [close()] calls answered, never
    throws, and leaves the registry empty.  With reaper ticks between its
    segments, at whatever clock readings and in whatever number, the hook
    still finishes once it has had one segment more than there were
    sessions, never throws and leaves the registry empty; the browser of
    every session that was in the registry when it started has by then had
    [close()] called once or twice: by the hook, by a tick that reaped the
    session before the hook reached it, or by both. *)
Theorem cleanup_stop_drains_all cfg s3 tempDir join io w :
  registry_ok w ->
  timers (cleanup_start w).2 = timers w ++ [60000%Z] /\
  (forall t w0, timers (step_stop io t w0).2 = timers w0) /\
  (forall nows,
     length nows = S (length (sessions w)) ->
     exists evs w',
       run_stop cfg s3 tempDir join io (alone nows) StopReady w
         = (StopFinished (Return tt), w') /\
       timers w' = timers w /\
       sessions w' = [] /\
       trace w' = trace w ++ evs /\
       evs = flat_map (drain_events w) (sessions w) /\
       forall name s st,
         (name, s) ∈ sessions w ->
         heap w !! s = Some st ->
         closes (browser st) evs = 1%nat) /\
  (forall schedule,
     Forall (fun e => hook_or_tick e.2 = true) schedule ->
     length (sessions w) < hook_turns schedule ->
     exists w',
       run_stop cfg s3 tempDir join io schedule StopReady w
         = (StopFinished (Return tt), w') /\
       timers w' = timers w /\
       sessions w' = [] /\
       forall name s st,
         (name, s) ∈ sessions w ->
         heap w !! s = Some st ->
         closes (browser st) (trace w') = S (closes (browser st) (trace w)) \/
         closes (browser st) (trace w') = S (S (closes (browser st) (trace w)))).
Proof.
  intros Hok. pose proof Hok as (Hnd & Hnd2 & Hall).
  assert (forall name s st, (name, s) ∈ sessions w -> heap w !! s = Some st ->
            browser st = s) as Hbrowser.
  { intros name s st Hin Hst. rewrite Forall_forall in Hall.
    destruct (Hall _ Hin) as (st' & Hst' & Hb). simpl in *. by simplify_eq. }
  split; [done|]. split; [apply step_stop_timers|]. split.
  - intros nows Hlen.
    assert (Forall (fun e => is_Some (heap w !! e.2)) (sessions w)) as Hall'.
    { eapply Forall_impl; [exact Hall|]. intros e (st & -> & _). by eexists. }
    exists (flat_map (drain_events w) (sessions w)). eexists.
    split; [by apply (run_stop_alone cfg s3 tempDir join io (sessions w) [] nows);
              [left|..]|].
    simpl. do 4 (split; [done|]).
    intros name s st Hin Hst. rewrite (Hbrowser name s st Hin Hst).
    by apply (closes_drain_entry w _ name).
  - intros schedule Hturns Hlen.
    destruct (run_stop_racing cfg s3 tempDir join io w Hok schedule Hturns
                StopReady w) as (w' & Hrun & Hs & Ht & Hc).
    + split; [done|]. split; [done|]. split; [done|].
      intros name s Hin. rewrite bool_decide_false by (by apply not_elem_of_nil).
      rewrite bool_decide_true by done. lia.
    + simpl. lia.
    + exists w'. split; [exact Hrun|]. split; [exact Ht|]. split; [exact Hs|].
      intros name s st Hin Hst. rewrite (Hbrowser name s st Hin Hst).
      by apply (Hc name).
Qed.

Lemma cleanup_stop_drains_all_witness :
  (exists w',
     run_stop Sample.config false Sample.tempDir Sample.join Sample.io
       (alone [5000; 5001; 5002]%Z) StopReady Sample.w2_started
       = (StopFinished (Return tt), w') /\
     sessions w' = [] /\
     timers w' = [60000%Z] /\
     closes 0 (trace w') = 1%nat /\ closes 1 (trace w') = 1%nat) /\
  (exists w',
     raced = (StopFinished (Return tt), w') /\
     sessions w' = [] /\
     timers w' = [60000%Z] /\
     closes 0 (trace w') = 2%nat /\ closes 1 (trace w') = 1%nat).
Proof.
  destruct (cleanup_stop_drains_all Sample.config false Sample.tempDir
              Sample.join Sample.io Sample.w2_started)
    as (_ & _ & Halone & Hraced).
  { apply registry_okb_ok. vm_compute. reflexivity. }
  split.
  - destruct (Halone [5000; 5001; 5002]%Z eq_refl)
      as (evs & w' & Hrun & Ht & Hs & Htr & Hevs & _).
    exists w'. split; [exact Hrun|]. split; [exact Hs|].
    split; [rewrite Ht; vm_compute; reflexivity|].
    rewrite Htr, Hevs. split; vm_compute; reflexivity.
  - destruct (Hraced
                [(400000, HookTurn); (400001, CallTurn Sample.io (Core ReaperTick));
                 (400002, HookTurn); (400003, HookTurn)]%Z)
      as (w' & Hrun & Ht & Hs & _).
    + repeat constructor.
    + vm_compute. lia.
    + exists w'. split; [exact Hrun|]. split; [exact Hs|].
      split; [rewrite Ht; vm_compute; reflexivity|].
      assert (w' = raced.2) as -> by (unfold raced; by rewrite Hrun).
      split; vm_compute; reflexivity.
Defined.

(** C9 as stated fails: the service was started, two sessions are live, the
    stop hook runs to its end, and the interval timer of the reaper is still
    armed afterwards; a session opened after the stop and left idle is then
    reaped by a tick of that timer. *)
Lemma cleanup_stop_leaves_timer_armed :
  timers Sample.w2_started = [60000%Z] /\
  (cleanup_stop Sample.io Sample.w2_started).1 = Return tt /\
  timers (cleanup_stop Sample.io Sample.w2_started).2 <> [] /\
  sessions Sample.after_stop = [] /\
  closes 2 (trace Sample.after_stop) = 1%nat.
Proof.
  split; [vm_compute; reflexivity|]. split; [vm_compute; reflexivity|].
  split; [vm_compute; discriminate|].
  split; vm_compute; reflexivity.
Qed.

(** *** Overlapping resolves of one new name *)

Lemma getSession_as_segments io name cfg w :
  getSession io name cfg w =
    match step_task name cfg (on_launch io) Ready w with
    | (Finished r, w') => (r, w')
    | (t, w') =>
        match step_task name cfg (on_launch io) t w' with
        | (Finished r, w'') => (r, w'')
        | (_, w'') => (Throw "unreachable", w'')
        end
    end.
Proof.
  unfold getSession, bind, step_task.
  destruct (getSession_enter name cfg w) as [[[s|b]|e] w']; try done.
  by destruct (getSession_resume name b (on_launch io) w').
Qed.

Lemma step_task_not_ready name cfg l t w :
  t ≠ Ready ->
  trace (step_task name cfg l t w).2 = trace w /\
  (step_task name cfg l t w).1 ≠ Ready.
Proof.
  destruct t as [|b|r]; [done| |done]. intros _. simpl.
  destruct l as [[]|e].
  - by rewrite getSession_resume_fulfilled.
  - by rewrite getSession_resume_rejected.
Qed.

Lemma run_pair_not_ready name cfg l1 l2 sched : forall t1 t2 w,
  t1 ≠ Ready -> t2 ≠ Ready ->
  trace (run_pair name cfg l1 l2 sched t1 t2 w).2 = trace w.
Proof.
  induction sched as [|[[] now] sched IH]; intros t1 t2 w H1 H2; simpl; [done|..].
  - destruct (step_task_not_ready name cfg l1 t1 (advance now w) H1) as [Htr Hne].
    destruct (step_task name cfg l1 t1 (advance now w)) as [t1' w'].
    simpl in *. by rewrite IH.
  - destruct (step_task_not_ready name cfg l2 t2 (advance now w) H2) as [Htr Hne].
    destruct (step_task name cfg l2 t2 (advance now w)) as [t2' w'].
    simpl in *. by rewrite IH.
Qed.

Lemma step_task_settled name cfg l n t w :
  JsMap.get name (sessions w) = Some n ->
  is_Some (heap w !! n) ->
  settled_on n t ->
  let r := step_task name cfg l t w in
  trace r.2 = trace w /\ sessions r.2 = sessions w /\
  is_Some (heap r.2 !! n) /\ r.1 = Finished (Return n).
Proof.
  intros Hs [st Hst] [->| ->]; simpl.
  - rewrite (getSession_enter_found _ _ _ _ _ Hs Hst). simpl.
    rewrite lookup_insert_eq. by eauto.
  - by eauto.
Qed.

Lemma run_pair_settled name cfg l1 l2 n sched : forall t1 t2 w,
  JsMap.get name (sessions w) = Some n ->
  is_Some (heap w !! n) ->
  settled_on n t1 -> settled_on n t2 ->
  let r := run_pair name cfg l1 l2 sched t1 t2 w in
  trace r.2 = trace w /\ JsMap.get name (sessions r.2) = Some n /\
  settled_on n r.1.1 /\ settled_on n r.1.2 /\
  (t1 ≠ Ready -> r.1.1 = t1) /\ (t2 ≠ Ready -> r.1.2 = t2).
Proof.
  induction sched as [|[[] now] sched IH]; intros t1 t2 w Hs Hh H1 H2; simpl; [done|..].
  - destruct (step_task_settled name cfg l1 n t1 (advance now w) Hs Hh H1)
      as (Htr & Hse & Hh' & Ht).
    destruct (step_task name cfg l1 t1 (advance now w)) as [t1' w'].
    simpl in *. rewrite <- Hse in Hs. subst t1'.
    destruct (IH (Finished (Return n)) t2 w' Hs Hh' (or_intror eq_refl) H2)
      as (Htr' & Hg & Hs1 & Hs2 & Hk1 & Hk2).
    split; [congruence|]. split; [done|]. split; [done|]. split; [done|].
    split; [|done]. intros Hne. rewrite Hk1 by done.
    by destruct H1 as [->| ->].
  - destruct (step_task_settled name cfg l2 n t2 (advance now w) Hs Hh H2)
      as (Htr & Hse & Hh' & Ht).
    destruct (step_task name cfg l2 t2 (advance now w)) as [t2' w'].
    simpl in *. rewrite <- Hse in Hs. subst t2'.
    destruct (IH t1 (Finished (Return n)) w' Hs Hh' H1 (or_intror eq_refl))
      as (Htr' & Hg & Hs1 & Hs2 & Hk1 & Hk2).
    split; [congruence|]. split; [done|]. split; [done|]. split; [done|].
    split; [done|]. intros Hne. rewrite Hk2 by done.
    by destruct H2 as [->| ->].
Qed.

Lemma launches_created name cfg w0 tr :
  tr = trace w0 ->
  launches name (trace (created name cfg w0)) = S (launches name tr).
Proof.
  intros ->. simpl. unfold launches. rewrite occurrences_app.
  unfold occurrences. simpl. rewrite bool_decide_true by done. simpl. lia.
Qed.

Lemma set_replace_last {V} (k : string) (v v' : V) (m : list (string * V)) :
  JsMap.get k m = None -> JsMap.set k v' (m ++ [(k, v)]) = m ++ [(k, v')].
Proof.
  induction m as [|[k' v0] m IH]; simpl.
  - intros _. by rewrite decide_True.
  - destruct (decide (k = k')); [done|]. intros H. by rewrite IH.
Qed.

Lemma run_pair_finished name cfg l1 l2 sched : forall r1 r2 w,
  let r := run_pair name cfg l1 l2 sched (Finished r1) (Finished r2) w in
  r.1 = (Finished r1, Finished r2) /\ sessions r.2 = sessions w /\
  trace r.2 = trace w.
Proof.
  induction sched as [|[[] now] sched IH]; intros r1 r2 w; simpl; [done|..];
    destruct (IH r1 r2 (advance now w)) as (H1 & H2 & H3); by rewrite H1, H2, H3.
Qed.

(** C10, as the code has it.  Two resolves of one name that is not in the
    registry, with room under the cap.  If one call runs both its segments
    before the other starts (and its launch succeeds), one browser is
    launched for the name, and the other call, once it runs, returns that
    same session.  If the other call starts while the first still awaits its
    launch, it does not see the creation in flight: each call constructs and
    launches its own browser, two in all, whatever runs afterwards.  When
    both calls then resume, each returns the session around its own browser
    if its launch succeeded and throws the launch error if not, a failed
    call registering nothing; the registry gains one entry for the name, the
    session of the call that resumed last among those whose launch
    succeeded, and none when both launches failed. *)
Theorem getSession_pair name cfg l1 l2 w :
  JsMap.get name (sessions w) = None ->
  (JsMap.size (sessions w) < default 3 (maxConcurrent cfg))%Z ->
  (forall b now1 now2 rest,
      pick b l1 l2 = Fulfilled tt ->
      let r := run_pair name cfg l1 l2 ((b, now1) :: (b, now2) :: rest)
                 Ready Ready w in
      launches name (trace r.2) = S (launches name (trace w)) /\
      JsMap.get name (sessions r.2) = Some (next w) /\
      pick b r.1.1 r.1.2 = Finished (Return (next w)) /\
      settled_on (next w) (pick b r.1.2 r.1.1)) /\
  (forall b now1 now2 rest,
      let r := run_pair name cfg l1 l2 ((b, now1) :: (negb b, now2) :: rest)
                 Ready Ready w in
      launches name (trace r.2) = S (S (launches name (trace w)))) /\
  (forall b c now1 now2 now3 now4 rest,
      let r := run_pair name cfg l1 l2
                 ((b, now1) :: (negb b, now2) :: (c, now3) :: (negb c, now4) :: rest)
                 Ready Ready w in
      let own x := if Bool.eqb x b then next w else S (next w) in
      let result x :=
        match pick x l1 l2 with
        | Fulfilled _ => Return (own x)
        | Rejected e => Throw e
        end in
      pick c r.1.1 r.1.2 = Finished (result c) /\
      pick (negb c) r.1.1 r.1.2 = Finished (result (negb c)) /\
      sessions r.2 = sessions w ++
        match pick (negb c) l1 l2, pick c l1 l2 with
        | Fulfilled _, _ => [(name, own (negb c))]
        | Rejected _, Fulfilled _ => [(name, own c)]
        | Rejected _, Rejected _ => []
        end).
Proof.
  intros Hs Hroom. split; [|split].
  - intros b now1 now2 rest Hl. cbv zeta.
    assert (forall t1 t2, settled_on (next w) t1 -> settled_on (next w) t2 ->
      let r := run_pair name cfg l1 l2 rest t1 t2
                 (created name cfg (advance now2 (advance now1 w))) in
      launches name (trace r.2) = S (launches name (trace w)) /\
      JsMap.get name (sessions r.2) = Some (next w) /\
      settled_on (next w) r.1.1 /\ settled_on (next w) r.1.2 /\
      (t1 ≠ Ready -> r.1.1 = t1) /\ (t2 ≠ Ready -> r.1.2 = t2)) as Hrest.
    { intros t1 t2 H1 H2.
      destruct (run_pair_settled name cfg l1 l2 (next w) rest t1 t2
                  (created name cfg (advance now2 (advance now1 w))))
        as (Htr & Hg & Hr); try done.
      - simpl. apply get_set_same.
      - simpl. rewrite lookup_insert_eq. by eexists.
      - cbv zeta. rewrite Htr. split; [by apply launches_created|]. by split. }
    destruct b; simpl in Hl; subst; simpl.
    + rewrite (getSession_enter_absent name cfg (advance now1 w)) by done.
      simpl. rewrite getSession_resume_fulfilled.
      destruct (Hrest (Finished (Return (next w))) Ready)
        as (H1 & H2 & H3 & H4 & H5 & _); [by right | by left |].
      split; [exact H1|]. split; [exact H2|]. split; [by apply H5 | exact H4].
    + rewrite (getSession_enter_absent name cfg (advance now1 w)) by done.
      simpl. rewrite getSession_resume_fulfilled.
      destruct (Hrest Ready (Finished (Return (next w))))
        as (H1 & H2 & H3 & H4 & _ & H6); [by left | by right |].
      split; [exact H1|]. split; [exact H2|]. split; [by apply H6 | exact H3].
  - intros b now1 now2 rest. cbv zeta.
    destruct b; simpl.
    + rewrite (getSession_enter_absent name cfg (advance now1 w)) by done.
      simpl. rewrite getSession_enter_absent by done. simpl.
      rewrite run_pair_not_ready by done. simpl.
      unfold launches. rewrite !occurrences_app. unfold occurrences. simpl.
      rewrite bool_decide_true by done. simpl. lia.
    + rewrite (getSession_enter_absent name cfg (advance now1 w)) by done.
      simpl. rewrite getSession_enter_absent by done. simpl.
      rewrite run_pair_not_ready by done. simpl.
      unfold launches. rewrite !occurrences_app. unfold occurrences. simpl.
      rewrite bool_decide_true by done. simpl. lia.
  - intros b c now1 now2 now3 now4 rest. cbv zeta.
    destruct b, c, l1 as [[]|e1], l2 as [[]|e2]; simpl;
      rewrite (getSession_enter_absent name cfg (advance now1 w)) by done;
      simpl; rewrite getSession_enter_absent by done; simpl;
      rewrite ?getSession_resume_fulfilled, ?getSession_resume_rejected; simpl;
      rewrite ?getSession_resume_fulfilled, ?getSession_resume_rejected; simpl;
      match goal with
      | |- context [run_pair name cfg ?a1 ?a2 rest (Finished ?r1) (Finished ?r2) ?w0] =>
          destruct (run_pair_finished name cfg a1 a2 rest r1 r2 w0)
            as (Ht & Hse & _);
          rewrite Ht, Hse
      end; simpl;
      rewrite ?(set_absent _ _ _ Hs), ?(set_replace_last _ _ _ _ Hs),
        ?(right_id_L [] (++)); done.
Qed.

Lemma getSession_pair_witness :
  launches "s1" (trace Sample.in_turn.2) = 1%nat /\
  Sample.in_turn.1.1 = Finished (Return 0%nat) /\
  launches "s1" (trace Sample.overlapped.2) = 2%nat /\
  sessions Sample.overlapped.2 = [("s1", 1%nat)].
Proof.
  destruct (getSession_pair "s1" Sample.config (Fulfilled tt) (Fulfilled tt)
              (initial 0)) as (Hturn & Hover & Hlast).
  - reflexivity.
  - vm_compute. reflexivity.
  - destruct (Hturn true 1000%Z 1001%Z [(false, 1002%Z)] eq_refl)
      as (H1 & _ & H3 & _).
    split; [exact H1|]. split; [exact H3|]. split.
    + exact (Hover true 1000%Z 1001%Z [(true, 1002%Z); (false, 1003%Z)]).
    + destruct (Hlast true true 1000%Z 1001%Z 1002%Z 1003%Z []) as (_ & _ & Hreg).
      exact Hreg.
Defined.

(** C10 as stated fails: with the second call entering while the first
    awaits its launch, both calls return, each with a session of its own;
    two browsers were launched for the one name, and the registry is left
    with the session of the call that resumed last. *)
Lemma getSession_overlap_launches_twice :
  JsMap.get "s1" (sessions (initial 0)) = None /\
  Sample.overlapped.1.1 = Finished (Return 0%nat) /\
  Sample.overlapped.1.2 = Finished (Return 1%nat) /\
  JsMap.get "s1" (sessions Sample.overlapped.2) = Some 1%nat /\
  launches "s1" (trace Sample.overlapped.2) = 2%nat /\
  ~ (launches "s1" (trace Sample.overlapped.2) <= 1)%nat.
Proof.
  split; [reflexivity|].
  assert (launches "s1" (trace Sample.overlapped.2) = 2%nat) as H
    by (vm_compute; reflexivity).
  repeat split; try (vm_compute; reflexivity). rewrite H. lia.
Qed.


(** * Further properties of the code *)

(** ** Creating a session *)

Lemma size_app_one {V} (m : list (string * V)) (e : string * V) :
  JsMap.size (m ++ [e]) = (JsMap.size m + 1)%Z.
Proof. unfold JsMap.size. rewrite length_app. simpl. lia. Qed.

(** X1.  Resolving a name that is not in the registry, with room under the
    cap and a launch that succeeds, constructs one browser, launches it with
    [headless] (default true) and [viewport] (default 1280x720), and appends
    to the registry a session that is not recording, has no artifact path and
    was last active now; the registry grows by exactly one entry. *)
Theorem getSession_creates_session io name cfg w :
  JsMap.get name (sessions w) = None ->
  (JsMap.size (sessions w) < default 3 (maxConcurrent cfg))%Z ->
  on_launch io = Fulfilled tt ->
  exists w',
    getSession io name cfg w = (Return (next w), w') /\
    sessions w' = sessions w ++ [(name, next w)] /\
    JsMap.get name (sessions w') = Some (next w) /\
    JsMap.size (sessions w') = (JsMap.size (sessions w) + 1)%Z /\
    heap w' !! next w = Some {| browser := next w; lastActivity := clock w;
                                recording := false; recordingPath := None |} /\
    trace w' = trace w ++ [EvLaunch name (next w)
                             (default true (headless cfg))
                             (default (1280, 720)%Z (viewport cfg))].
Proof.
  intros Hs Hroom Hl. exists (created name cfg w).
  split; [by apply getSession_created|]. simpl.
  rewrite (set_absent _ _ _ Hs).
  split; [done|]. split.
  { rewrite <- (set_absent _ _ _ Hs). apply get_set_same. }
  split; [apply size_app_one|]. split; [apply lookup_insert_eq | done].
Qed.

Lemma getSession_creates_session_witness :
  exists w',
    getSession Sample.io "s2" Sample.config (advance 2000 Sample.w1)
      = (Return 1%nat, w') /\
    sessions w' = [("s1", 0%nat); ("s2", 1%nat)].
Proof.
  destruct (getSession_creates_session Sample.io "s2" Sample.config
              (advance 2000 Sample.w1)) as (w' & Hrun & Hs & _).
  - vm_compute. reflexivity.
  - vm_compute. reflexivity.
  - reflexivity.
  - exists w'. split; [exact Hrun|]. rewrite Hs. vm_compute. reflexivity.
Defined.

(** X2.  When the launch of the browser for a new name rejects, [getSession]
    throws that error and registers nothing: registry and session objects are
    as before, although a browser object was constructed and its launch
    attempted.  The name stays free, so a later resolve whose launch succeeds
    creates the session, around a browser of its own. *)
Theorem getSession_launch_rejected io name cfg w e :
  JsMap.get name (sessions w) = None ->
  (JsMap.size (sessions w) < default 3 (maxConcurrent cfg))%Z ->
  on_launch io = Rejected e ->
  exists w',
    getSession io name cfg w = (Throw e, w') /\
    sessions w' = sessions w /\ heap w' = heap w /\
    next w' = S (next w) /\
    launches name (trace w') = S (launches name (trace w)) /\
    forall io' now,
      on_launch io' = Fulfilled tt ->
      exists w'',
        getSession io' name cfg (advance now w') = (Return (S (next w)), w'') /\
        JsMap.get name (sessions w'') = Some (S (next w)) /\
        launches name (trace w'') = S (S (launches name (trace w))).
Proof.
  intros Hs Hroom Hl. eexists. split.
  { unfold getSession, bind. rewrite (getSession_enter_absent _ _ _ Hs Hroom), Hl.
    by rewrite getSession_resume_rejected. }
  simpl. do 3 (split; [done|]). split.
  { unfold launches. rewrite occurrences_app. unfold occurrences. simpl.
    rewrite bool_decide_true by done. simpl. lia. }
  intros io' now Hl'. eexists. split.
  { rewrite getSession_created; simpl; [reflexivity|done..]. }
  simpl. split; [apply get_set_same|].
  unfold launches. rewrite !occurrences_app. unfold occurrences. simpl.
  rewrite bool_decide_true by done. simpl. lia.
Qed.

Lemma getSession_launch_rejected_witness :
  exists w',
    getSession
      {| on_launch := Rejected "Failed to launch chromium";
         on_executeCommand := on_executeCommand Sample.io;
         on_close := on_close Sample.io; on_execSync := on_execSync Sample.io;
         on_readFileSync := on_readFileSync Sample.io;
         on_send := on_send Sample.io |}
      "s2" Sample.config Sample.w1 = (Throw "Failed to launch chromium", w') /\
    sessions w' = sessions Sample.w1.
Proof.
  edestruct (getSession_launch_rejected
               {| on_launch := Rejected "Failed to launch chromium";
                  on_executeCommand := on_executeCommand Sample.io;
                  on_close := on_close Sample.io; on_execSync := on_execSync Sample.io;
                  on_readFileSync := on_readFileSync Sample.io;
                  on_send := on_send Sample.io |}
               "s2" Sample.config Sample.w1 "Failed to launch chromium")
    as (w' & Hrun & Hs & _).
  - vm_compute. reflexivity.
  - vm_compute. reflexivity.
  - reflexivity.
  - exists w'. by split.
Defined.

(** ** What every step of the plugin keeps *)

Lemma cap_same cfg {A} (c : M A) :
  (forall w, sessions (c w).2 = sessions w) -> keeps (within_cap cfg) c.
Proof. intros Hc w Hw. unfold within_cap. by rewrite Hc. Qed.

Lemma cap_assign cfg f s : keeps (within_cap cfg) (assign f s).
Proof.
  apply cap_same. intros w. unfold assign, bind, deref.
  by destruct (heap w !! s).
Qed.

Lemma cap_deref cfg s : keeps (within_cap cfg) (deref s).
Proof. apply cap_same. intros w. unfold deref. by destruct (heap w !! s). Qed.

Lemma cap_sessions_delete cfg name : keeps (within_cap cfg) (sessions_delete name).
Proof.
  intros w Hw. unfold within_cap, sessions_delete in *. simpl.
  pose proof (size_delete_le name (sessions w)). lia.
Qed.

Lemma cap_sessions_clear cfg : keeps (within_cap cfg) sessions_clear.
Proof. intros w _. unfold within_cap, sessions_clear, JsMap.size. simpl. lia. Qed.

Lemma cap_getSession io name cfg : keeps (within_cap cfg) (getSession io name cfg).
Proof.
  intros w Hw. unfold getSession, bind.
  destruct (JsMap.get name (sessions w)) as [s|] eqn:Hs.
  - unfold getSession_enter, bind, sessions_get, Date_now, assign, bind, deref.
    rewrite Hs. by destruct (heap w !! s).
  - destruct (decide (JsMap.size (sessions w) >= default 3 (maxConcurrent cfg))%Z)
      as [Hfull|Hroom].
    + by rewrite (getSession_enter_full _ _ _ Hs Hfull).
    + rewrite (getSession_enter_absent _ _ _ Hs) by lia.
      destruct (on_launch io) as [[]|e].
      * rewrite getSession_resume_fulfilled. unfold within_cap in *. simpl.
        rewrite (set_absent _ _ _ Hs), size_app_one. lia.
      * by rewrite getSession_resume_rejected.
Qed.

#[local] Hint Extern 1 (keeps (within_cap _) (getSession _ _ _)) =>
  apply cap_getSession : keeps.
#[local] Hint Extern 1 (keeps (within_cap _) (assign _ _)) =>
  apply cap_assign : keeps.
#[local] Hint Extern 1 (keeps (within_cap _) (deref _)) =>
  apply cap_deref : keeps.
#[local] Hint Extern 1 (keeps (within_cap _) (sessions_delete _)) =>
  apply cap_sessions_delete : keeps.
#[local] Hint Extern 1 (keeps (within_cap _) sessions_clear) =>
  apply cap_sessions_clear : keeps.
#[local] Hint Extern 2 (keeps (within_cap _) _) =>
  apply cap_same; reflexivity : keeps.

Lemma cap_run_op cfg s3 tempDir join io op w :
  within_cap cfg w -> within_cap cfg (run_op cfg s3 tempDir join io op w).
Proof.
  assert (forall A (c : M A), keeps (within_cap cfg) c ->
            forall w, within_cap cfg w -> within_cap cfg (c w).2) as Hsnd
    by (intros A c Hc w' Hw'; by apply Hc).
  assert (keeps (within_cap cfg) (reaper_tick cfg io)) as Htick.
  { unfold reaper_tick, swallow, browser_close. keeps_walk. }
  revert w. destruct op; simpl; try apply Hsnd; try done;
    try (intros w Hw; destruct (timers w); [done | by apply Htick]).
  all: unfold ab_open, ab_navigate, ab_click, ab_fill, ab_screenshot,
         ab_record_start, ab_record_stop, record_stop_finish, convertToGif,
         ab_close, ab_advanced, cleanup_start, setInterval, cleanup_stop,
         swallow, browser_close.
  all: keeps_walk.
Qed.

(** Any of the three invariants is kept by each further tool as well. *)
Lemma keeps_run_call I cfg s3 tempDir join io c w :
  I = recording_has_path \/ I = registry_inv \/ I = within_cap cfg ->
  I w -> I (run_call cfg s3 tempDir join io c w).
Proof.
  intros HI.
  assert (forall A (m : M A), keeps I m -> forall w, I w -> I (m w).2) as Hsnd
    by (intros A m Hm w' Hw'; by apply Hm).
  revert w. destruct c as [op| | | | | |]; cbn [run_call].
  - intros w. destruct HI as [-> | [-> | ->]].
    + apply keeps_run_op.
    + apply registry_inv_run_op.
    + apply cap_run_op.
  - apply Hsnd. destruct HI as [-> | [-> | ->]]; unfold ab_snapshot; keeps_walk.
  - apply Hsnd. destruct HI as [-> | [-> | ->]]; unfold ab_interact; keeps_walk.
  - apply Hsnd. destruct HI as [-> | [-> | ->]]; unfold ab_query; keeps_walk.
  - apply Hsnd. destruct HI as [-> | [-> | ->]]; unfold ab_tabs; keeps_walk.
  - apply Hsnd. destruct HI as [-> | [-> | ->]]; unfold ab_settings; keeps_walk.
  - apply Hsnd. destruct HI as [-> | [-> | ->]]; unfold _testClearSessions;
      keeps_walk.
Qed.

Lemma keeps_run_calls I cfg s3 tempDir join steps :
  I = recording_has_path \/ I = registry_inv \/ I = within_cap cfg ->
  forall w, I w -> I (run_calls cfg s3 tempDir join steps w).
Proof.
  intros HI. induction steps as [|[io c] steps IH]; intros w Hw; simpl; [done|].
  by apply IH, keeps_run_call.
Qed.

(** X3.  The admission cap holds in sequential use: in every world reached
    from the initial one by any sequence of the tools, the service hooks,
    reaper ticks, clock movements and the test hook, each run to completion,
    the registry holds at most [maxConcurrent] (default 3) sessions (none when
    the configured cap is negative). *)
Theorem cap_never_exceeded cfg s3 tempDir join steps t :
  (JsMap.size (sessions (run_calls cfg s3 tempDir join steps (initial t)))
   <= Z.max 0 (default 3 (maxConcurrent cfg)))%Z.
Proof.
  apply (keeps_run_calls (within_cap cfg)); [by right; right|].
  unfold within_cap, initial, JsMap.size. simpl. lia.
Qed.

(** X4.  The registry stays a map onto live session objects: in every world
    so reached the names of the registry are distinct, they refer to distinct
    session objects, each referred object exists and wraps the browser it was
    created with, and each was allocated before the next fresh identity. *)
Theorem registry_well_formed cfg s3 tempDir join steps t :
  let w := run_calls cfg s3 tempDir join steps (initial t) in
  NoDup (JsMap.keys (sessions w)) /\
  NoDup (sessions w).*2 /\
  (forall name s, JsMap.get name (sessions w) = Some s ->
     exists st, heap w !! s = Some st /\ browser st = s /\ s < next w).
Proof.
  cbv zeta.
  assert (registry_inv (run_calls cfg s3 tempDir join steps (initial t)))
    as [(Hk & Hh & Hall) Hlt].
  { apply (keeps_run_calls registry_inv cfg); [by right; left|].
    unfold registry_inv, registry_ok, initial. simpl. repeat split; by constructor. }
  split; [done|]. split; [done|]. intros name s Hs.
  apply get_Some_elem in Hs. rewrite Forall_forall in Hall, Hlt.
  destruct (Hall _ Hs) as (st & Hst & Hb). specialize (Hlt _ Hs). simpl in *.
  by exists st.
Qed.

(** X5.  Over all fourteen tools and the hooks, a session whose [recording]
    flag is set has an artifact path, in every world so reached. *)
Theorem recording_path_all_tools cfg s3 tempDir join steps t s st :
  heap (run_calls cfg s3 tempDir join steps (initial t)) !! s = Some st ->
  recording st = true ->
  is_Some (recordingPath st).
Proof.
  revert s st.
  apply (keeps_run_calls recording_has_path cfg); [by left|].
  intros s st. simpl. by rewrite lookup_empty.
Qed.

Lemma recording_path_all_tools_witness :
  is_Some (recordingPath
             {| browser := 0; lastActivity := 3000; recording := true;
                recordingPath :=
                  Some "/tmp/agent-browser-plugin/s1-walkthrough.webm" |}).
Proof.
  apply (recording_path_all_tools Sample.config false Sample.tempDir Sample.join
           [(Sample.io, Core (Open (Sample.params "s1")));
            (Sample.io, Core (Elapse 3000));
            (Sample.io, Core (RecordStart (Sample.params "s1")))]
           1000%Z 0%nat).
  - vm_compute. reflexivity.
  - reflexivity.
Defined.

Lemma registry_well_formed_witness :
  exists st,
    heap Sample.w2 !! 1%nat = Some st /\ browser st = 1%nat /\
    (1 < next Sample.w2)%nat.
Proof.
  destruct (registry_well_formed Sample.config false Sample.tempDir Sample.join
              [(Sample.io, Core (Open (Sample.params "s1")));
               (Sample.io, Core (Elapse 2000));
               (Sample.io, Core (Open (Sample.params "s2")))] 1000%Z)
    as (_ & _ & H).
  apply (H "s2" 1%nat). vm_compute. reflexivity.
Defined.

(** ** Closing frees a slot; overlapping creations do not see each other *)

Lemma get_set_other {V} (k k' : string) (v : V) (m : list (string * V)) :
  k ≠ k' -> JsMap.get k' (JsMap.set k v m) = JsMap.get k' m.
Proof.
  intros Hne. induction m as [|[k0 v0] m IH]; simpl.
  - by rewrite decide_False.
  - destruct (decide (k = k0)) as [->|Hk]; simpl.
    + by rewrite !decide_False.
    + by rewrite IH.
Qed.

Lemma size_delete_present {V} (k : string) (v : V) (m : list (string * V)) :
  JsMap.get k m = Some v ->
  (JsMap.size (JsMap.delete k m) < JsMap.size m)%Z.
Proof.
  unfold JsMap.size. induction m as [|[k' v'] m IH]; simpl; [done|].
  destruct (decide (k = k')).
  - intros _. pose proof (size_delete_le k m). unfold JsMap.size in *. lia.
  - intros H. specialize (IH H). simpl length. lia.
Qed.

(** X6.  Closing a live session (the close dispatch being answered) makes
    room: a name that could not be admitted because the registry was full is
    admitted right after, with a freshly launched browser, and the registry
    is then no larger than it was before the close. *)
Theorem close_frees_a_slot cfg io io' params name w s st r now :
  JsMap.get (p_session params) (sessions w) = Some s ->
  heap w !! s = Some st ->
  on_executeCommand io (close_cmd w) = Fulfilled r ->
  JsMap.get name (sessions w) = None ->
  (JsMap.size (sessions w) <= default 3 (maxConcurrent cfg))%Z ->
  on_launch io' = Fulfilled tt ->
  exists w' w'',
    ab_close io params w = (Return PClosed, w') /\
    getSession io' name cfg (advance now w') = (Return (next w), w'') /\
    JsMap.get name (sessions w'') = Some (next w) /\
    JsMap.get (p_session params) (sessions w'') = None /\
    (JsMap.size (sessions w'') <= JsMap.size (sessions w))%Z.
Proof.
  intros Hs Hst Hr Hname Hcap Hl.
  assert (p_session params ≠ name) as Hne.
  { intros Heq. rewrite Heq in Hs. congruence. }
  pose proof (size_delete_present _ _ _ Hs) as Hlt.
  assert (JsMap.get name (JsMap.delete (p_session params) (sessions w)) = None)
    as Habs by (by rewrite get_delete_other).
  do 2 eexists. split.
  { rewrite (ab_close_run _ _ _ _ _ Hs Hst), Hr. reflexivity. }
  split.
  { rewrite getSession_created; simpl; [reflexivity|done| |done]. lia. }
  simpl. split; [apply get_set_same|]. split.
  - rewrite get_set_other by done. apply get_delete_same.
  - rewrite (set_absent _ _ _ Habs), size_app_one. lia.
Qed.

Lemma close_frees_a_slot_witness :
  (getSession Sample.io "s3" Sample.config Sample.w2).1
    = Throw "Max concurrent sessions (2) reached" /\
  exists w' w'',
    ab_close Sample.io (Sample.params "s1") Sample.w2 = (Return PClosed, w') /\
    getSession Sample.io "s3" Sample.config (advance 5000 w') = (Return 2%nat, w'') /\
    JsMap.get "s3" (sessions w'') = Some 2%nat.
Proof.
  split; [vm_compute; reflexivity|].
  destruct (close_frees_a_slot Sample.config Sample.io Sample.io
              (Sample.params "s1") "s3" Sample.w2 0%nat
              {| browser := 0; lastActivity := 1000;
                 recording := false; recordingPath := None |}
              Sample.stopped 5000%Z)
    as (w' & w'' & H1 & H2 & H3 & _).
  - vm_compute. reflexivity.
  - vm_compute. reflexivity.
  - reflexivity.
  - vm_compute. reflexivity.
  - vm_compute. discriminate.
  - reflexivity.
  - exists w', w''. split; [exact H1|]. split; [exact H2 | exact H3].
Defined.

(** X7.  The cap counts registered sessions only.  Two resolves of two
    different new names, the second entering while the first awaits its
    launch, both pass the capacity check as long as there was room for one:
    both sessions are registered, and with one free slot at the start the
    registry ends up holding one session more than [maxConcurrent]. *)
Theorem cap_bypassed_by_overlap name1 name2 cfg w now1 now2 now3 now4 :
  name1 ≠ name2 ->
  JsMap.get name1 (sessions w) = None ->
  JsMap.get name2 (sessions w) = None ->
  (JsMap.size (sessions w) < default 3 (maxConcurrent cfg))%Z ->
  let r := run_two name1 name2 cfg (Fulfilled tt) (Fulfilled tt)
             [(true, now1); (false, now2); (true, now3); (false, now4)]
             Ready Ready w in
  r.1.1 = Finished (Return (next w)) /\
  r.1.2 = Finished (Return (S (next w))) /\
  sessions r.2 = sessions w ++ [(name1, next w); (name2, S (next w))] /\
  JsMap.size (sessions r.2) = (JsMap.size (sessions w) + 2)%Z /\
  ((JsMap.size (sessions w) + 1 = default 3 (maxConcurrent cfg))%Z ->
   (JsMap.size (sessions r.2) > default 3 (maxConcurrent cfg))%Z).
Proof.
  intros Hne H1 H2 Hroom. cbv zeta. simpl.
  rewrite (getSession_enter_absent name1 cfg (advance now1 w)) by done. simpl.
  rewrite getSession_enter_absent by done. simpl.
  rewrite !getSession_resume_fulfilled. simpl.
  rewrite (set_absent _ _ _ H1).
  assert (JsMap.get name2 (sessions w ++ [(name1, next w)]) = None) as H2'.
  { rewrite <- (set_absent _ _ _ H1). by rewrite get_set_other. }
  rewrite (set_absent _ _ _ H2'), <- (assoc_L (++)). simpl.
  split; [done|]. split; [done|]. split; [done|].
  assert (JsMap.size (sessions w ++ [(name1, next w); (name2, S (next w))])
          = (JsMap.size (sessions w) + 2)%Z) as Hsz.
  { unfold JsMap.size. rewrite length_app. simpl. lia. }
  split; [exact Hsz|]. intros Hone.
  unfold JsMap.size in *. rewrite length_app in *. simpl length in *. lia.
Qed.

Lemma cap_bypassed_by_overlap_witness :
  JsMap.size (sessions Sample.w1) = 1%Z /\
  JsMap.size
    (sessions (run_two "s2" "s3" Sample.config (Fulfilled tt) (Fulfilled tt)
                 [(true, 2000); (false, 2001); (true, 2002); (false, 2003)]%Z
                 Ready Ready Sample.w1).2) = 3%Z.
Proof.
  split; [reflexivity|].
  destruct (cap_bypassed_by_overlap "s2" "s3" Sample.config Sample.w1
              2000 2001 2002 2003)%Z as (_ & _ & _ & H & _).
  - discriminate.
  - vm_compute. reflexivity.
  - vm_compute. reflexivity.
  - vm_compute. reflexivity.
  - rewrite H. reflexivity.
Defined.

(** ** What every tool that resolves a session has in common *)

Lemma getSession_full io name cfg w :
  JsMap.get name (sessions w) = None ->
  (JsMap.size (sessions w) >= default 3 (maxConcurrent cfg))%Z ->
  getSession io name cfg w =
    (Throw ("Max concurrent sessions ("
            +:+ pretty (default 3%Z (maxConcurrent cfg)) +:+ ") reached"), w).
Proof.
  intros Hs Hfull. unfold getSession, bind.
  by rewrite (getSession_enter_full _ _ _ Hs Hfull).
Qed.

(** X8.  Every tool that resolves a session (all but close, and the advanced
    tool when it is given an action) rejects with the capacity error when its
    session is not in the registry and the registry is full, before doing
    anything else: the world is left exactly as it was, so nothing was
    launched, dispatched, uploaded or logged. *)
Theorem routed_call_rejected_when_full cfg s3 tempDir join io c name w :
  session_of c = Some name ->
  JsMap.get name (sessions w) = None ->
  (JsMap.size (sessions w) >= default 3 (maxConcurrent cfg))%Z ->
  run_call cfg s3 tempDir join io c w = w /\
  call_error cfg s3 tempDir join io c w =
    Some ("Max concurrent sessions ("
          +:+ pretty (default 3%Z (maxConcurrent cfg)) +:+ ") reached").
Proof.
  intros Hc Hs Hfull.
  pose proof (getSession_full io name cfg w Hs Hfull) as Hg.
  destruct c as [[]| | | | | |]; simpl in Hc; try discriminate;
    try (destruct (truthy (prop (p_action params))) eqn:Hact; [|discriminate]);
    injection Hc as <-;
    unfold run_call, run_op, call_error, thrown, ab_open, ab_navigate, ab_click,
      ab_fill, ab_screenshot, ab_record_start, ab_record_stop, ab_advanced,
      ab_snapshot, ab_interact, ab_query, ab_tabs, ab_settings;
    rewrite ?Hact; simpl; unfold bind; by rewrite Hg.
Qed.

Lemma routed_call_rejected_when_full_witness :
  run_call Sample.config false Sample.tempDir Sample.join Sample.io
    (Core (RecordStart (Sample.params "s3"))) Sample.w2 = Sample.w2 /\
  call_error Sample.config false Sample.tempDir Sample.join Sample.io
    (Core (RecordStart (Sample.params "s3"))) Sample.w2
  = Some "Max concurrent sessions (2) reached".
Proof.
  apply (routed_call_rejected_when_full Sample.config false Sample.tempDir
           Sample.join Sample.io (Core (RecordStart (Sample.params "s3"))) "s3"
           Sample.w2).
  - reflexivity.
  - vm_compute. reflexivity.
  - vm_compute. discriminate.
Defined.

Lemma after_getSession_created (I : World -> Prop) {A} io name cfg
    (k : Handle -> M A) w :
  JsMap.get name (sessions w) = None ->
  (JsMap.size (sessions w) < default 3 (maxConcurrent cfg))%Z ->
  on_launch io = Fulfilled tt ->
  (forall h, keeps I (k h)) ->
  I (created name cfg w) ->
  I ((bind (getSession io name cfg) k) w).2.
Proof.
  intros Hs Hroom Hl Hk Hw. unfold bind.
  rewrite (getSession_created _ _ _ _ Hs Hroom Hl). by apply Hk.
Qed.

Lemma after_getSession_found (I : World -> Prop) {A} io name cfg
    (k : Handle -> M A) w s st :
  JsMap.get name (sessions w) = Some s ->
  heap w !! s = Some st ->
  (forall h, keeps I (k h)) ->
  I (touched s st w) ->
  I ((bind (getSession io name cfg) k) w).2.
Proof.
  intros Hs Hst Hk Hw. unfold bind.
  rewrite (getSession_found _ _ _ _ _ _ Hs Hst). by apply Hk.
Qed.

(** **** Registered, with so many launches *)

Lemma rw_same name s n {A} (c : M A) :
  (forall w, sessions (c w).2 = sessions w /\ trace (c w).2 = trace w) ->
  keeps (registered_with name s n) c.
Proof.
  intros Hc w [Hg Hn]. destruct (Hc w) as [Hs Ht].
  unfold registered_with. by rewrite Hs, Ht.
Qed.

Lemma rw_emit name s n e :
  is_launch_for name e = false -> keeps (registered_with name s n) (emit e).
Proof.
  intros He w [Hg Hn]. unfold registered_with, emit, launches in *. simpl.
  rewrite occurrences_app. unfold occurrences at 2. simpl. rewrite He. simpl.
  split; [done | lia].
Qed.

Lemma rw_assign name s n f s' : keeps (registered_with name s n) (assign f s').
Proof.
  apply rw_same. intros w. unfold assign, bind, deref.
  by destruct (heap w !! s').
Qed.

Lemma rw_deref name s n s' : keeps (registered_with name s n) (deref s').
Proof. apply rw_same. intros w. unfold deref. by destruct (heap w !! s'). Qed.

#[local] Hint Extern 1 (keeps (registered_with _ _ _) (emit _)) =>
  apply rw_emit; reflexivity : keeps.
#[local] Hint Extern 1 (keeps (registered_with _ _ _) (assign _ _)) =>
  apply rw_assign : keeps.
#[local] Hint Extern 1 (keeps (registered_with _ _ _) (deref _)) =>
  apply rw_deref : keeps.
#[local] Hint Extern 1 (keeps (registered_with _ _ _) Date_now) =>
  apply rw_same; by intros : keeps.

Lemma rw_executeCommand name s n io cmd b :
  keeps (registered_with name s n) (executeCommand io cmd b).
Proof. unfold executeCommand. keeps_walk. Qed.

Lemma rw_fresh_id name s n : keeps (registered_with name s n) fresh_id.
Proof. unfold fresh_id. keeps_walk. Qed.

Lemma rw_uploadToR2 name s n cfg s3 io p r c :
  keeps (registered_with name s n) (uploadToR2 cfg s3 io p r c).
Proof. unfold uploadToR2. keeps_walk. Qed.

#[local] Hint Extern 0 (keeps (registered_with _ _ _) (executeCommand _ _ _)) =>
  apply rw_executeCommand : keeps.
#[local] Hint Extern 0 (keeps (registered_with _ _ _) fresh_id) =>
  apply rw_fresh_id : keeps.
#[local] Hint Extern 0 (keeps (registered_with _ _ _) (uploadToR2 _ _ _ _ _ _)) =>
  apply rw_uploadToR2 : keeps.

(** X9.  Every tool that resolves a session creates it when it is missing:
    called with a name that is not in the registry, with room under the cap
    and a launch that succeeds, the tool launches exactly one browser for the
    name and leaves the name registered, whatever the engine, ffmpeg or the
    upload answer afterwards and whether the tool then returns or throws.
    This includes record-stop, which has nothing to stop. *)
Theorem routed_call_creates_session cfg s3 tempDir join io c name w :
  session_of c = Some name ->
  JsMap.get name (sessions w) = None ->
  (JsMap.size (sessions w) < default 3 (maxConcurrent cfg))%Z ->
  on_launch io = Fulfilled tt ->
  let w' := run_call cfg s3 tempDir join io c w in
  JsMap.get name (sessions w') = Some (next w) /\
  launches name (trace w') = S (launches name (trace w)).
Proof.
  intros Hc Hs Hroom Hl. cbv zeta.
  change (registered_with name (next w) (S (launches name (trace w)))
            (run_call cfg s3 tempDir join io c w)).
  assert (registered_with name (next w) (S (launches name (trace w)))
            (created name cfg w)) as Hbase.
  { split; [apply get_set_same | by apply launches_created]. }
  destruct c as [[]| | | | | |]; simpl in Hc; try discriminate;
    try (destruct (truthy (prop (p_action params))) eqn:Hact; [|discriminate]);
    injection Hc as <-;
    unfold run_call, run_op, ab_open, ab_navigate, ab_click,
      ab_fill, ab_screenshot, ab_record_start, ab_record_stop, record_stop_finish,
      convertToGif, ab_advanced, ab_snapshot, ab_interact, ab_query, ab_tabs,
      ab_settings;
    rewrite ?Hact; cbn [negb];
    (apply (after_getSession_created (registered_with _ _ _));
       [done|done|done| |exact Hbase]);
    keeps_walk.
Qed.

Lemma routed_call_creates_session_witness :
  (ab_record_stop Sample.config false Sample.io (Sample.params "s2")
     (advance 2000 Sample.w1)).1 = Return (PError "Not recording") /\
  JsMap.get "s2"
    (sessions (run_call Sample.config false Sample.tempDir Sample.join Sample.io
                 (Core (RecordStop (Sample.params "s2")))
                 (advance 2000 Sample.w1))) = Some 1%nat.
Proof.
  split; [vm_compute; reflexivity|].
  apply (routed_call_creates_session Sample.config false Sample.tempDir
           Sample.join Sample.io (Core (RecordStop (Sample.params "s2"))) "s2"
           (advance 2000 Sample.w1)).
  - reflexivity.
  - vm_compute. reflexivity.
  - vm_compute. reflexivity.
  - reflexivity.
Defined.

(** **** Last active at *)

Lemma act_same name s t {A} (c : M A) :
  (forall w, sessions (c w).2 = sessions w /\ heap (c w).2 = heap w) ->
  keeps (active_at name s t) c.
Proof.
  intros Hc w Hw. destruct (Hc w) as [Hs Hh].
  unfold active_at. by rewrite Hs, Hh.
Qed.

Lemma act_assign name s t f s' :
  (forall st, lastActivity (f st) = lastActivity st) ->
  keeps (active_at name s t) (assign f s').
Proof.
  intros Hf w [Hg (st & Hst & Ht)]. unfold assign, bind, deref.
  destruct (heap w !! s') as [st'|] eqn:Hst'; simpl; [|by split; eauto].
  split; [done|]. simpl. destruct (decide (s' = s)) as [->|Hne].
  - rewrite lookup_insert_eq. exists (f st'). split; [done|].
    rewrite Hf. by simplify_eq.
  - rewrite lookup_insert_ne by done. by exists st.
Qed.

Lemma act_deref name s t s' : keeps (active_at name s t) (deref s').
Proof. apply act_same. intros w. unfold deref. by destruct (heap w !! s'). Qed.

#[local] Hint Extern 1 (keeps (active_at _ _ _) (emit _)) =>
  apply act_same; by intros : keeps.
#[local] Hint Extern 1 (keeps (active_at _ _ _) Date_now) =>
  apply act_same; by intros : keeps.
#[local] Hint Extern 1 (keeps (active_at _ _ _) (deref _)) =>
  apply act_deref : keeps.
#[local] Hint Extern 1 (keeps (active_at _ _ _) (assign _ _)) =>
  apply act_assign; reflexivity : keeps.

Lemma registry_inv_run_call cfg s3 tempDir join io c w :
  registry_inv w -> registry_inv (run_call cfg s3 tempDir join io c w).
Proof. apply (keeps_run_call registry_inv cfg). by right; left. Qed.

(** X10.  Every tool that resolves a session stamps it: after the call the
    session is still registered and its [lastActivity] is the clock reading
    of the call, whatever the collaborators answered and whether the tool
    returned or threw.  A reaper tick running no later than [idleTimeoutMs]
    (default 300000) after that reading therefore leaves the session in the
    registry. *)
Theorem activity_protects_from_reaping cfg s3 tempDir join io io' c name w s st now :
  registry_inv w ->
  session_of c = Some name ->
  JsMap.get name (sessions w) = Some s ->
  heap w !! s = Some st ->
  (now - clock w <= default 300000 (idleTimeoutMs cfg))%Z ->
  let w' := run_call cfg s3 tempDir join io c w in
  JsMap.get name (sessions w') = Some s /\
  (exists st', heap w' !! s = Some st' /\ lastActivity st' = clock w) /\
  JsMap.get name (sessions (reaper_tick cfg io' (advance now w')).2) = Some s.
Proof.
  intros Hinv Hc Hs Hst Hnow. cbv zeta.
  assert (active_at name s (clock w) (run_call cfg s3 tempDir join io c w)) as Hact.
  { assert (active_at name s (clock w) (touched s st w)) as Hbase.
    { split; [done|]. simpl. rewrite lookup_insert_eq. by eexists. }
    clear Hinv Hnow.
    destruct c as [[]| | | | | |]; simpl in Hc; try discriminate;
      try (destruct (truthy (prop (p_action params))) eqn:Hact; [|discriminate]);
      injection Hc as <-;
      unfold run_call, run_op, ab_open, ab_navigate, ab_click,
        ab_fill, ab_screenshot, ab_record_start, ab_record_stop,
        record_stop_finish, convertToGif, ab_advanced, ab_snapshot, ab_interact,
        ab_query, ab_tabs, ab_settings;
      rewrite ?Hact; cbn [negb];
      (apply (after_getSession_found (active_at _ _ _) _ _ _ _ _ s st);
         [done|done| |exact Hbase]);
      keeps_walk. }
  destruct Hact as [Hg (st' & Hst' & Ht)].
  split; [done|]. split; [by exists st'|].
  pose proof (registry_inv_run_call cfg s3 tempDir join io c w Hinv)
    as [(Hk & _ & Hall) _].
  set (w' := run_call cfg s3 tempDir join io c w) in *.
  rewrite (reaper_tick_run cfg io' (advance now w')); simpl; [|done|].
  - apply get_of_elem; [by apply keys_filter_NoDup|].
    apply list_elem_of_filter. split; [|by apply get_Some_elem].
    unfold is_idle. simpl. rewrite Hst', Ht. apply bool_decide_false. lia.
  - eapply Forall_impl; [exact Hall|]. intros e (st0 & -> & _). by eexists.
Qed.

Lemma registry_inv_reachable cfg s3 tempDir join steps t :
  registry_inv (run_calls cfg s3 tempDir join steps (initial t)).
Proof.
  apply (keeps_run_calls registry_inv cfg); [by right; left|].
  unfold registry_inv, registry_ok, initial. simpl. repeat split; by constructor.
Qed.

Lemma activity_protects_from_reaping_witness :
  JsMap.get "s1"
    (sessions
       (reaper_tick Sample.config Sample.io
          (advance 301500
             (run_call Sample.config false Sample.tempDir Sample.join
                Sample.io_rejecting (Core (Click (Sample.params "s1")))
                (advance 2000 Sample.w1)))).2) = Some 0%nat.
Proof.
  apply (activity_protects_from_reaping Sample.config false Sample.tempDir
           Sample.join Sample.io_rejecting Sample.io
           (Core (Click (Sample.params "s1"))) "s1" (advance 2000 Sample.w1)
           0%nat {| browser := 0; lastActivity := 1000;
                    recording := false; recordingPath := None |} 301500%Z).
  - exact (registry_inv_reachable Sample.config false Sample.tempDir Sample.join
             [(Sample.io, Core (Open (Sample.params "s1")));
              (Sample.io, Core (Elapse 2000))] 1000%Z).
  - reflexivity.
  - vm_compute. reflexivity.
  - vm_compute. reflexivity.
  - vm_compute. discriminate.
Defined.

(** ** Credentials and uploads *)

Lemma string_app_assoc (a b c : string) : (a +:+ b) +:+ c = a +:+ (b +:+ c).
Proof.
  induction a as [|x a IH]; [reflexivity|].
  change (String x ((a +:+ b) +:+ c) = String x (a +:+ b +:+ c)). by rewrite IH.
Qed.

(** X11.  [initR2Client] never throws and decides whether uploads happen at
    all: with no [r2] section, or an empty [accountId] or [bucket], it
    returns no client and says nothing; with a complete [r2] section but a
    missing or empty access key or secret in the environment it returns no
    client and logs one warning; only with all four present does it return a
    client, for the endpoint of that account and with those credentials. *)
Theorem initR2Client_cases cfg env w :
  (r2 cfg = None -> initR2Client cfg env w = (Return None, w)) /\
  (forall r, r2 cfg = Some r ->
     accountId r = EmptyString \/ bucket r = EmptyString ->
     initR2Client cfg env w = (Return None, w)) /\
  (forall r, r2 cfg = Some r ->
     accountId r ≠ EmptyString -> bucket r ≠ EmptyString ->
     R2_ACCESS_KEY_ID env = None \/ R2_ACCESS_KEY_ID env = Some EmptyString \/
     R2_SECRET_ACCESS_KEY env = None \/ R2_SECRET_ACCESS_KEY env = Some EmptyString ->
     initR2Client cfg env w =
       (Return None,
        with_trace (trace w ++ [EvLog "[agent-browser] R2 configured but R2_ACCESS_KEY_ID/R2_SECRET_ACCESS_KEY not set"]) w)) /\
  (forall r k sk, r2 cfg = Some r ->
     accountId r ≠ EmptyString -> bucket r ≠ EmptyString ->
     R2_ACCESS_KEY_ID env = Some k -> k ≠ EmptyString ->
     R2_SECRET_ACCESS_KEY env = Some sk -> sk ≠ EmptyString ->
     initR2Client cfg env w =
       (Return (Some {| region := "auto";
                        endpoint := "https://" +:+ accountId r
                                    +:+ ".r2.cloudflarestorage.com";
                        credentials := (k, sk) |}), w)).
Proof.
  assert (forall s : string, s ≠ EmptyString -> negb (String.eqb s EmptyString) = true)
    as Hne by (intros [|? ?]; [done | reflexivity]).
  unfold initR2Client. split; [|split; [|split]].
  - by intros ->.
  - intros r -> [Ha | Hb]; simpl.
    + by rewrite Ha.
    + rewrite Hb. by destruct (negb (negb (String.eqb (accountId r) EmptyString))).
  - intros r -> Ha Hb Henv. simpl. rewrite (Hne _ Ha), (Hne _ Hb). simpl.
    destruct Henv as [-> | [-> | [-> | ->]]]; simpl; try done;
      by destruct (R2_ACCESS_KEY_ID env) as [[|? ?]|].
  - intros r k sk -> Ha Hb -> Hk -> Hsk. simpl.
    by rewrite (Hne _ Ha), (Hne _ Hb), (Hne _ Hk), (Hne _ Hsk).
Qed.

Lemma initR2Client_cases_witness :
  initR2Client
    {| r2 := Some {| accountId := "acct"; bucket := "shots"; publicDomain := None |};
       headless := None; viewport := None; gif := None; video := None;
       maxConcurrent := None; idleTimeoutMs := None |}
    {| R2_ACCESS_KEY_ID := Some "key"; R2_SECRET_ACCESS_KEY := None |}
    (initial 0)
  = (Return None,
     with_trace [EvLog "[agent-browser] R2 configured but R2_ACCESS_KEY_ID/R2_SECRET_ACCESS_KEY not set"]
       (initial 0)).
Proof.
  destruct (initR2Client_cases
              {| r2 := Some {| accountId := "acct"; bucket := "shots";
                               publicDomain := None |};
                 headless := None; viewport := None; gif := None; video := None;
                 maxConcurrent := None; idleTimeoutMs := None |}
              {| R2_ACCESS_KEY_ID := Some "key"; R2_SECRET_ACCESS_KEY := None |}
              (initial 0)) as (_ & _ & H & _).
  apply (H {| accountId := "acct"; bucket := "shots"; publicDomain := None |}).
  - reflexivity.
  - discriminate.
  - discriminate.
  - right. right. left. reflexivity.
Defined.

(** X12.  With a client and an [r2] section, an upload whose file read and
    S3 request both succeed reads the local file, then sends it to the
    configured bucket under the key [agent-browser/<remoteName>] with the
    given content type, and returns [https://<host>/agent-browser/<remoteName>],
    where the host is [publicDomain] when that is set and non-empty and
    [<bucket>.<accountId>.r2.dev] otherwise.  Without a client or without an
    [r2] section it returns nothing and touches neither file nor network. *)
Theorem uploadToR2_url cfg io localPath remoteName contentType w :
  (forall s3, s3 = false \/ r2 cfg = None ->
     uploadToR2 cfg s3 io localPath remoteName contentType w = (Return None, w)) /\
  (forall r, r2 cfg = Some r ->
     on_readFileSync io = Fulfilled tt -> on_send io = Fulfilled tt ->
     uploadToR2 cfg true io localPath remoteName contentType w =
       (Return (Some ("https://" +:+ public_host r +:+ "/agent-browser/" +:+ remoteName)),
        with_trace (trace w ++ [EvReadFile localPath;
                                EvS3Send (bucket r) ("agent-browser/" +:+ remoteName)
                                  contentType]) w)).
Proof.
  unfold uploadToR2. split.
  - intros s3 [-> | ->]; [done | by destruct s3].
  - intros r -> Hr Hs. unfold bind, emit, await. rewrite Hr, Hs. simpl.
    unfold public_host, with_trace. rewrite <- (assoc_L (++)). simpl.
    destruct (publicDomain r) as [d|]; simpl;
      [destruct (negb (String.eqb d EmptyString))|];
      unfold ret; by rewrite ?string_app_assoc.
Qed.

Lemma uploadToR2_url_witness :
  (uploadToR2
     {| r2 := Some {| accountId := "acct"; bucket := "shots";
                      publicDomain := Some EmptyString |};
        headless := None; viewport := None; gif := None; video := None;
        maxConcurrent := None; idleTimeoutMs := None |}
     true Sample.io (Some "/tmp/a.png") "a.png" "image/png" (initial 0)).1
  = Return (Some "https://shots.acct.r2.dev/agent-browser/a.png").
Proof.
  destruct (uploadToR2_url
              {| r2 := Some {| accountId := "acct"; bucket := "shots";
                               publicDomain := Some EmptyString |};
                 headless := None; viewport := None; gif := None; video := None;
                 maxConcurrent := None; idleTimeoutMs := None |}
              Sample.io (Some "/tmp/a.png") "a.png" "image/png" (initial 0))
    as [_ H].
  rewrite (H {| accountId := "acct"; bucket := "shots";
                publicDomain := Some EmptyString |}); reflexivity.
Defined.

(** ** Failures that are not swallowed *)

Lemma record_stop_finish_upload_fails cfg io s result w st e r :
  heap w !! s = Some st ->
  (exists fp, final_path result st = Return fp) ->
  r2 cfg = Some r ->
  (on_readFileSync io = Rejected e \/
   on_readFileSync io = Fulfilled tt /\ on_send io = Rejected e) ->
  (record_stop_finish cfg true io s result w).1 = Throw e.
Proof.
  intros Hst [fp Hfp] Hr Hup.
  unfold record_stop_finish, bind, deref, complete, uploadToR2, try_catch,
    convertToGif, bind, emit, await, ret, throw.
  rewrite Hst, Hfp, Hr.
  destruct Hup as [-> | [-> ->]];
    repeat (case_match; simpl in *; simplify_eq); done.
Qed.

(** X13.  An upload failure is not best-effort.  When record-stop reaches the
    upload with storage configured and the file read or the S3 request
    fails, the tool throws that error although the recording was stopped and
    the artifact is on disk; the session is by then marked as not recording,
    so calling record-stop again answers [{error: "Not recording"}] and the
    artifact is never uploaded by the tool. *)
Theorem record_stop_upload_failure cfg io params w s st result r e :
  JsMap.get (p_session params) (sessions w) = Some s ->
  heap w !! s = Some st ->
  recording st = true ->
  on_executeCommand io (recording_stop_cmd w) = Fulfilled result ->
  (exists fp, final_path result st = Return fp) ->
  r2 cfg = Some r ->
  (on_readFileSync io = Rejected e \/
   on_readFileSync io = Fulfilled tt /\ on_send io = Rejected e) ->
  exists w',
    ab_record_stop cfg true io params w = (Throw e, w') /\
    (exists st', heap w' !! s = Some st' /\ recording st' = false) /\
    forall io' s3 now,
      (ab_record_stop cfg s3 io' params (advance now w')).1 =
        Return (PError "Not recording").
Proof.
  intros Hs Hst Hrec Hres Hfp Hr Hup.
  pose proof (ab_record_stop_run cfg true io params w s st Hs Hst Hrec) as Hrun.
  cbv zeta in Hrun. rewrite Hres in Hrun.
  set (w0 := put_heap _ _) in Hrun.
  assert (heap w0 !! s = Some {| browser := browser st; lastActivity := clock w;
                                 recording := false;
                                 recordingPath := recordingPath st |}) as Hst0
    by apply lookup_insert_eq.
  pose proof (record_stop_finish_upload_fails cfg io s result w0 _ e r Hst0)
    as Hthrow.
  destruct (record_stop_finish_quiet cfg true io s result w0)
    as (_ & _ & _ & Hh & Hse).
  destruct (record_stop_finish cfg true io s result w0) as [c w'] eqn:Hfin.
  simpl in *. rewrite Hthrow in Hrun by done.
  exists w'. split; [exact Hrun|]. split.
  { rewrite Hh. eexists. split; [exact Hst0 | done]. }
  intros io' s3 now.
  erewrite ab_record_stop_not_recording; [reflexivity| | |].
  - simpl. rewrite Hse. exact Hs.
  - simpl. rewrite Hh. exact Hst0.
  - done.
Qed.

Lemma record_stop_upload_failure_witness :
  exists w',
    ab_record_stop
      {| r2 := Some {| accountId := "acct"; bucket := "shots"; publicDomain := None |};
         headless := None; viewport := None; gif := None; video := None;
         maxConcurrent := None; idleTimeoutMs := None |}
      true
      {| on_launch := Fulfilled tt;
         on_executeCommand := fun _ => Fulfilled Sample.stopped;
         on_close := fun _ => Fulfilled tt; on_execSync := Fulfilled tt;
         on_readFileSync := Rejected "ENOENT: no such file or directory";
         on_send := Fulfilled tt |}
      (Sample.params "s1") (advance 4000 Sample.w1_recording)
    = (Throw "ENOENT: no such file or directory", w').
Proof.
  edestruct (record_stop_upload_failure
               {| r2 := Some {| accountId := "acct"; bucket := "shots";
                                publicDomain := None |};
                  headless := None; viewport := None; gif := None; video := None;
                  maxConcurrent := None; idleTimeoutMs := None |}
               {| on_launch := Fulfilled tt;
                  on_executeCommand := fun _ => Fulfilled Sample.stopped;
                  on_close := fun _ => Fulfilled tt; on_execSync := Fulfilled tt;
                  on_readFileSync := Rejected "ENOENT: no such file or directory";
                  on_send := Fulfilled tt |}
               (Sample.params "s1") (advance 4000 Sample.w1_recording) 0%nat
               {| browser := 0; lastActivity := 3000; recording := true;
                  recordingPath :=
                    Some "/tmp/agent-browser-plugin/s1-walkthrough.webm" |}
               Sample.stopped
               {| accountId := "acct"; bucket := "shots"; publicDomain := None |}
               "ENOENT: no such file or directory")
    as (w' & Hrun & _).
  - vm_compute. reflexivity.
  - vm_compute. reflexivity.
  - reflexivity.
  - reflexivity.
  - eexists. reflexivity.
  - reflexivity.
  - left. reflexivity.
  - exists w'. exact Hrun.
Defined.

(** X14.  A rejected dispatch leaves the recording state as it was, so the
    call can be repeated: when the [recording_start] dispatch rejects,
    record-start throws and the session is still not recording, with its
    artifact path unchanged; when the [recording_stop] dispatch rejects,
    record-stop throws and the session is still recording.  In both cases
    the session's [lastActivity] was stamped all the same. *)
Theorem recording_dispatch_rejected cfg s3 tempDir join io params w s st e :
  JsMap.get (p_session params) (sessions w) = Some s ->
  heap w !! s = Some st ->
  (recording st = false ->
   on_executeCommand io
     (recording_start_cmd (recording_file tempDir join params w) w) = Rejected e ->
   exists w',
     ab_record_start cfg tempDir join io params w = (Throw e, w') /\
     heap w' !! s = Some (with_lastActivity (clock w) st)) /\
  (recording st = true ->
   on_executeCommand io (recording_stop_cmd w) = Rejected e ->
   exists w',
     ab_record_stop cfg s3 io params w = (Throw e, w') /\
     heap w' !! s = Some (with_lastActivity (clock w) st)).
Proof.
  intros Hs Hst. split; intros Hrec He; eexists.
  - rewrite (ab_record_start_run _ _ _ _ _ _ _ _ Hs Hst Hrec). cbv zeta.
    rewrite He. split; [reflexivity|]. apply lookup_insert_eq.
  - rewrite (ab_record_stop_run _ _ _ _ _ _ _ Hs Hst Hrec). cbv zeta.
    rewrite He. split; [reflexivity|]. apply lookup_insert_eq.
Qed.

Lemma recording_dispatch_rejected_witness :
  exists w',
    ab_record_stop Sample.config false Sample.io_rejecting (Sample.params "s1")
      (advance 4000 Sample.w1_recording) = (Throw "Browser has been closed", w') /\
    heap w' !! 0%nat =
      Some {| browser := 0; lastActivity := 4000; recording := true;
              recordingPath :=
                Some "/tmp/agent-browser-plugin/s1-walkthrough.webm" |}.
Proof.
  destruct (recording_dispatch_rejected Sample.config false Sample.tempDir
              Sample.join Sample.io_rejecting (Sample.params "s1")
              (advance 4000 Sample.w1_recording) 0%nat
              {| browser := 0; lastActivity := 3000; recording := true;
                 recordingPath :=
                   Some "/tmp/agent-browser-plugin/s1-walkthrough.webm" |}
              "Browser has been closed") as [_ H].
  - vm_compute. reflexivity.
  - vm_compute. reflexivity.
  - apply H; reflexivity.
Defined.

(** ** The screenshot tool *)

(** X15.  On a registered session and with a device named, the screenshot
    tool dispatches a [device] envelope and then a [screenshot] envelope, in
    that order and to the same browser, the screenshot being written to
    [join(tempDir, "<session>-<label>.png")] with the label defaulting to
    [screenshot-<now>]; whatever the two result envelopes say, it goes on to
    upload that file as [image/png] and reports its path.  When the device
    dispatch rejects, the tool throws and no screenshot envelope is
    dispatched; without a device only the screenshot envelope is. *)
Theorem screenshot_device_then_shot cfg s3 tempDir join io params w s st :
  JsMap.get (p_session params) (sessions w) = Some s ->
  heap w !! s = Some st ->
  let localPath := join tempDir (screenshot_name params w) in
  let shot := EvExecute (screenshot_cmd localPath params w) (browser st) in
  let dev := EvExecute (device_cmd params w) (browser st) in
  let finish := fun evs =>
    (let! remoteUrl := uploadToR2 cfg s3 io (Some localPath)
                         (screenshot_name params w) "image/png" in
     ret (PMedia (Some localPath) remoteUrl None
            (match remoteUrl with
             | Some u => if truthy (VStr u)
                         then Some ("![" +:+ screenshot_label params w
                                    +:+ "](" +:+ u +:+ ")")
                         else None
             | None => None
             end)))
      (with_trace (trace w ++ evs) (touched s st w)) in
  (forall r1 r2,
     truthy (prop (p_device params)) = true ->
     on_executeCommand io (device_cmd params w) = Fulfilled r1 ->
     on_executeCommand io (screenshot_cmd localPath params w) = Fulfilled r2 ->
     ab_screenshot cfg s3 tempDir join io params w = finish [dev; shot]) /\
  (forall e,
     truthy (prop (p_device params)) = true ->
     on_executeCommand io (device_cmd params w) = Rejected e ->
     ab_screenshot cfg s3 tempDir join io params w =
       (Throw e, with_trace (trace w ++ [dev]) (touched s st w))) /\
  (forall r2,
     truthy (prop (p_device params)) = false ->
     on_executeCommand io (screenshot_cmd localPath params w) = Fulfilled r2 ->
     ab_screenshot cfg s3 tempDir join io params w = finish [shot]).
Proof.
  intros Hs Hst. cbv zeta.
  assert (forall A (k : Handle -> M A),
            bind (getSession io (p_session params) cfg) k w = k s (touched s st w))
    as Hget.
  { intros A k. unfold bind. by rewrite (getSession_found _ _ _ _ _ _ Hs Hst). }
  assert (heap (touched s st w) !! s = Some (with_lastActivity (clock w) st))
    as Hst' by apply lookup_insert_eq.
  unfold ab_screenshot. rewrite Hget. repeat split.
  - intros r1 r2 Hdev H1 H2. rewrite Hdev.
    unfold bind, fresh_id, bind, Date_now, deref, executeCommand, bind, emit, await.
    simpl. rewrite lookup_insert_eq. simpl.
    fold (device_cmd params w). rewrite H1. simpl.
    rewrite lookup_insert_eq. simpl.
    fold (screenshot_label params w). fold (screenshot_name params w).
    fold (screenshot_cmd (join tempDir (screenshot_name params w)) params w).
    rewrite H2. simpl. unfold with_trace, touched, put_heap. simpl.
    by rewrite <- !(assoc_L (++)).
  - intros e Hdev H1. rewrite Hdev.
    unfold bind, fresh_id, bind, Date_now, deref, executeCommand, bind, emit, await.
    simpl. rewrite lookup_insert_eq. simpl.
    fold (device_cmd params w). by rewrite H1.
  - intros r2 Hdev H2. rewrite Hdev.
    unfold bind, fresh_id, bind, Date_now, deref, executeCommand, bind, emit, await.
    simpl. rewrite lookup_insert_eq. simpl.
    fold (screenshot_label params w). fold (screenshot_name params w).
    fold (screenshot_cmd (join tempDir (screenshot_name params w)) params w).
    by rewrite H2.
Qed.

Lemma screenshot_device_then_shot_witness :
  ab_screenshot Sample.config false Sample.tempDir Sample.join Sample.io
    (phone_params "s1") (advance 2000 Sample.w1)
  = (Return (PMedia (Some "/tmp/agent-browser-plugin/s1-home.png") None None None),
     with_trace
       (trace Sample.w1 ++
        [EvExecute [("id", VStr "2000"); ("action", VStr "device");
                    ("device", VStr "iPhone 14")] 0%nat;
         EvExecute [("id", VStr "2000"); ("action", VStr "screenshot");
                    ("path", VStr "/tmp/agent-browser-plugin/s1-home.png");
                    ("fullPage", VBool false)] 0%nat])
       (touched 0%nat {| browser := 0; lastActivity := 1000;
                         recording := false; recordingPath := None |}
          (advance 2000 Sample.w1))).
Proof.
  destruct (screenshot_device_then_shot Sample.config false Sample.tempDir
              Sample.join Sample.io (phone_params "s1") (advance 2000 Sample.w1)
              0%nat {| browser := 0; lastActivity := 1000;
                       recording := false; recordingPath := None |})
    as (H & _ & _).
  - vm_compute. reflexivity.
  - vm_compute. reflexivity.
  - rewrite (H Sample.stopped Sample.stopped); reflexivity.
Defined.

(** ** Closing twice, reaping twice *)

(** X16.  Closing a session twice: once the first close has gone through,
    a second close of the same name answers [{error: "Session not found"}]
    and dispatches nothing, so the browser receives one close envelope. *)
Theorem close_twice io io' params w s st r now :
  JsMap.get (p_session params) (sessions w) = Some s ->
  heap w !! s = Some st ->
  on_executeCommand io (close_cmd w) = Fulfilled r ->
  exists w',
    ab_close io params w = (Return PClosed, w') /\
    ab_close io' params (advance now w') =
      (Return (PError "Session not found"), advance now w') /\
    dispatched "close" (trace w') = S (dispatched "close" (trace w)).
Proof.
  intros Hs Hst Hr. eexists. split.
  { rewrite (ab_close_run _ _ _ _ _ Hs Hst), Hr. reflexivity. }
  split.
  - unfold ab_close, bind, sessions_get. simpl. by rewrite get_delete_same.
  - simpl. rewrite dispatched_app. unfold dispatched at 2, occurrences. simpl. lia.
Qed.

Lemma close_twice_witness :
  exists w',
    ab_close Sample.io (Sample.params "s1") Sample.w2 = (Return PClosed, w') /\
    ab_close Sample.io (Sample.params "s1") (advance 9000 w') =
      (Return (PError "Session not found"), advance 9000 w').
Proof.
  destruct (close_twice Sample.io Sample.io (Sample.params "s1") Sample.w2 0%nat
              {| browser := 0; lastActivity := 1000;
                 recording := false; recordingPath := None |}
              Sample.stopped 9000%Z) as (w' & H1 & H2 & _).
  - vm_compute. reflexivity.
  - vm_compute. reflexivity.
  - reflexivity.
  - exists w'. by split.
Defined.

Lemma reap_events_kept cfg w l :
  Forall (fun e => is_idle cfg w e = false) l ->
  flat_map (reap_events cfg w) l = [].
Proof.
  induction l as [|e l IH]; [done|]. rewrite Forall_cons. intros [He Hl].
  simpl. unfold reap_events at 1. by rewrite He, IH.
Qed.

Lemma filter_all_kept {A} (P : A -> Prop) `{!forall x, Decision (P x)} (l : list A) :
  Forall P l -> filter P l = l.
Proof.
  induction l as [|x l IH]; [done|]. rewrite Forall_cons. intros [Hx Hl].
  rewrite filter_cons_True by done. by rewrite IH.
Qed.

(** X17.  Reaping is idempotent: a second reaper tick at the same clock
    reading finds nothing left to do; it closes no browser, logs nothing and
    leaves the world exactly as the first tick left it. *)
Theorem reaper_tick_twice cfg io io' w :
  registry_ok w ->
  reaper_tick cfg io' (reaper_tick cfg io w).2 = (Return tt, (reaper_tick cfg io w).2).
Proof.
  intros (Hk & _ & Hall).
  assert (Forall (fun e => is_Some (heap w !! e.2)) (sessions w)) as Hall'.
  { eapply Forall_impl; [exact Hall|]. intros e (st & -> & _). by eexists. }
  rewrite (reaper_tick_run cfg io w Hk Hall'). simpl.
  set (kept := filter (fun e => is_idle cfg w e = false) (sessions w)).
  set (w1 := put_sessions kept _).
  assert (forall e, is_idle cfg w1 e = is_idle cfg w e) as Hidle by done.
  rewrite (reaper_tick_run cfg io' w1).
  - assert (Forall (fun e => is_idle cfg w1 e = false) kept) as Hkept.
    { apply Forall_forall. intros e He. rewrite Hidle.
      by apply list_elem_of_filter in He as [He _]. }
    simpl. rewrite (reap_events_kept cfg w1 kept Hkept), (right_id_L [] (++)).
    change (filter (fun e => is_idle cfg w1 e = false) kept)
      with (filter (fun e => is_idle cfg w e = false) kept).
    rewrite filter_all_kept; [done|].
    apply Forall_forall. intros e He.
    by apply list_elem_of_filter in He as [He _].
  - simpl. by apply keys_filter_NoDup.
  - simpl. apply Forall_forall. intros e He.
    apply list_elem_of_filter in He as [_ He].
    rewrite Forall_forall in Hall'. by apply Hall'.
Qed.

Lemma reaper_tick_twice_witness :
  reaper_tick Sample.config Sample.io
    (reaper_tick Sample.config Sample.io (advance 301500 Sample.w2)).2
  = (Return tt, (reaper_tick Sample.config Sample.io (advance 301500 Sample.w2)).2).
Proof.
  apply (reaper_tick_twice Sample.config Sample.io Sample.io
           (advance 301500 Sample.w2)).
  apply registry_okb_ok. vm_compute. reflexivity.
Defined.

(** ** Envelopes *)

(** X18.  The tools that dispatch a single envelope (open, navigate, click,
    fill, interact, query, tabs, settings, and advanced with an action), on a
    registered session: exactly one envelope goes to that session's browser
    and nothing else is recorded; the tool rejects exactly when the dispatch
    rejects, with the same error, so an engine failure reported inside the
    result envelope is returned to the caller, not raised. *)
Theorem single_dispatch_passthrough cfg s3 tempDir join io c name w s st :
  single_dispatch c = true ->
  session_of c = Some name ->
  JsMap.get name (sessions w) = Some s ->
  heap w !! s = Some st ->
  exists cmd,
    trace (run_call cfg s3 tempDir join io c w) =
      trace w ++ [EvExecute cmd (browser st)] /\
    call_error cfg s3 tempDir join io c w =
      match on_executeCommand io cmd with
      | Fulfilled _ => None
      | Rejected e => Some e
      end.
Proof.
  intros Hsd Hc Hs Hst.
  destruct c as [[]| | | | | |]; simpl in Hsd, Hc; try discriminate;
    try (rewrite Hsd in Hc); injection Hc as <-;
    unfold run_call, run_op, call_error, thrown, ab_open, ab_navigate, ab_click,
      ab_fill, ab_advanced, ab_interact, ab_query, ab_tabs, ab_settings;
    rewrite ?Hsd; cbn [negb]; cbv zeta;
    unfold bind; rewrite (getSession_found _ _ _ _ _ _ Hs Hst);
    unfold fresh_id, bind, Date_now, deref, executeCommand, bind, emit, await;
    simpl; rewrite !lookup_insert_eq; simpl;
    eexists; (split; [destruct (on_executeCommand io _); reflexivity|]);
    destruct (on_executeCommand io _); reflexivity.
Qed.

Lemma single_dispatch_passthrough_witness :
  exists cmd,
    trace (run_call Sample.config false Sample.tempDir Sample.join
             Sample.io_rejecting (Tabs (first_tab "s1")) (advance 2000 Sample.w1))
      = trace Sample.w1 ++ [EvExecute cmd 0%nat] /\
    call_error Sample.config false Sample.tempDir Sample.join
      Sample.io_rejecting (Tabs (first_tab "s1")) (advance 2000 Sample.w1)
    = Some "Browser has been closed".
Proof.
  destruct (single_dispatch_passthrough Sample.config false Sample.tempDir
              Sample.join Sample.io_rejecting (Tabs (first_tab "s1")) "s1"
              (advance 2000 Sample.w1) 0%nat
              {| browser := 0; lastActivity := 1000;
                 recording := false; recordingPath := None |})
    as (cmd & Htr & Herr).
  - reflexivity.
  - reflexivity.
  - vm_compute. reflexivity.
  - vm_compute. reflexivity.
  - exists cmd. split; [exact Htr|]. rewrite Herr. reflexivity.
Defined.

Lemma spread_get (k : string) (extra : list (string * Value)) : forall base,
  NoDup (JsMap.keys extra) ->
  JsMap.get k (spread base extra) =
    match JsMap.get k extra with
    | Some v => Some v
    | None => JsMap.get k base
    end.
Proof.
  unfold spread, JsMap.keys.
  induction extra as [|[k' v'] extra IH]; intros base Hnd; simpl; [done|].
  apply NoDup_cons in Hnd as [Hk' Hnd]. rewrite IH by done.
  destruct (decide (k = k')) as [->|Hne].
  - assert (JsMap.get k' extra = None) as -> by (by apply get_None_not_key).
    apply get_set_same.
  - destruct (JsMap.get k extra); [done|]. by apply get_set_other.
Qed.

(** X19.  The advanced tool.  Without an action (absent or empty) it returns
    the catalog of actions and touches nothing: no session is resolved or
    created, whatever the registry holds.  With an action, the envelope is
    the [id] and [action] followed by the caller's [params] spread over
    them, so a key [action] or [id] inside [params] replaces the tool's own:
    the engine runs the action named inside [params]. *)
Theorem advanced_params_override cfg io params w :
  (truthy (prop (p_action params)) = false ->
   ab_advanced cfg io params w = (Return (PCatalog AVAILABLE_ACTIONS), w)) /\
  (forall a extra s st,
     p_action params = Some a -> a ≠ EmptyString ->
     p_params params = Some extra -> NoDup (JsMap.keys extra) ->
     JsMap.get (p_session params) (sessions w) = Some s ->
     heap w !! s = Some st ->
     exists cmd,
       trace (ab_advanced cfg io params w).2 =
         trace w ++ [EvExecute cmd (browser st)] /\
       cmd_action cmd = Some (default (VStr a) (JsMap.get "action" extra)) /\
       JsMap.get "id" cmd =
         Some (default (VStr (pretty (clock w))) (JsMap.get "id" extra)) /\
       forall k, k ≠ "id" -> k ≠ "action" ->
         JsMap.get k cmd = JsMap.get k extra).
Proof.
  split.
  - intros Hact. unfold ab_advanced. by rewrite Hact.
  - intros a extra s st Ha Hne Hp Hnd Hs Hst.
    assert (truthy (prop (p_action params)) = true) as Hact.
    { rewrite Ha. simpl. destruct a; [done | reflexivity]. }
    exists (spread [("id", VStr (pretty (clock w))); ("action", VStr a)] extra).
    split.
    + unfold ab_advanced. rewrite Hact. cbn [negb]. cbv zeta.
      unfold bind. rewrite (getSession_found _ _ _ _ _ _ Hs Hst).
      unfold fresh_id, bind, Date_now, deref, executeCommand, bind, emit, await.
      simpl. rewrite lookup_insert_eq, Ha, Hp. simpl.
      by destruct (on_executeCommand io _).
    + unfold cmd_action. rewrite !spread_get by done. repeat split.
      * by destruct (JsMap.get "action" extra).
      * by destruct (JsMap.get "id" extra).
      * intros k Hk1 Hk2. rewrite spread_get by done.
        destruct (JsMap.get k extra); [done|]. simpl.
        by rewrite !decide_False.
Qed.

Lemma advanced_params_override_witness :
  exists cmd,
    trace (ab_advanced Sample.config Sample.io (advanced_params "s1")
             (advance 2000 Sample.w1)).2
      = trace Sample.w1 ++ [EvExecute cmd 0%nat] /\
    cmd_action cmd = Some (VStr "close").
Proof.
  destruct (advanced_params_override Sample.config Sample.io
              (advanced_params "s1") (advance 2000 Sample.w1)) as [_ H].
  destruct (H "wait" [("selector", VStr "#loading"); ("action", VStr "close")]
              0%nat {| browser := 0; lastActivity := 1000;
                       recording := false; recordingPath := None |})
    as (cmd & Htr & Hact & _).
  - reflexivity.
  - discriminate.
  - reflexivity.
  - unfold JsMap.keys. simpl. apply NoDup_cons. split; [|apply NoDup_singleton].
    intros Hin. apply list_elem_of_singleton in Hin. discriminate.
  - vm_compute. reflexivity.
  - vm_compute. reflexivity.
  - exists cmd. split; [exact Htr | exact Hact].
Defined.

(** X20.  The envelope of the interact tool.  The [value] parameter is sent
    under one key chosen by the action ([type]: [text], [press]: [key],
    [select]: [value], [drag]: [target], [scroll]: [direction]) and is
    dropped for every other action; none of the other four keys is set.
    For [scroll] the direction defaults to ["down"] and the amount to 300,
    and because the default is taken with [||], an amount of 0 is sent as
    300 too; no other action carries an amount. *)
Theorem interact_envelope id params :
  let cmd := interact_cmd id params in
  cmd_action cmd = Some (VStr (in_action params)) /\
  (forall k, k ∈ ["text"; "key"; "value"; "target"; "direction"] ->
     JsMap.get k cmd =
       if decide (value_key (in_action params) = Some k)
       then Some (if decide (k = "direction")
                  then value_or (prop (in_value params)) (VStr "down")
                  else prop (in_value params))
       else None) /\
  JsMap.get "amount" cmd =
    (if String.eqb (in_action params) "scroll"
     then Some (value_or (in_amount params) (VNum 300)) else None) /\
  (in_action params = "scroll" -> in_amount params = VNum 0 ->
   JsMap.get "amount" cmd = Some (VNum 300)).
Proof.
  cbv zeta. unfold interact_cmd, value_key, cmd_action.
  destruct (truthy (prop (in_selector params)));
    destruct (String.eqb_spec (in_action params) "type") as [Ht|Ht];
    destruct (String.eqb_spec (in_action params) "press") as [Hp|Hp];
    destruct (String.eqb_spec (in_action params) "select") as [Hs|Hs];
    destruct (String.eqb_spec (in_action params) "drag") as [Hd|Hd];
    destruct (String.eqb_spec (in_action params) "scroll") as [Hsc|Hsc];
    try congruence.
  all: split; [vm_compute; reflexivity|].
  all: split;
    [intros k Hk;
     repeat (apply elem_of_cons in Hk as [->|Hk]);
     try (by apply elem_of_nil in Hk);
     vm_compute; reflexivity|].
  all: split; [vm_compute; reflexivity|].
  all: intros Ha Hz; try congruence; rewrite Hz; vm_compute; reflexivity.
Qed.

Lemma interact_envelope_witness :
  JsMap.get "amount" (interact_cmd (VStr "2000") (scroll_params "s1"))
    = Some (VNum 300) /\
  JsMap.get "direction" (interact_cmd (VStr "2000") (scroll_params "s1"))
    = Some (VStr "down").
Proof.
  destruct (interact_envelope (VStr "2000") (scroll_params "s1"))
    as (_ & Hk & _ & Hz).
  split; [by apply Hz|].
  rewrite (Hk "direction"); [reflexivity|].
  do 4 (apply elem_of_cons; right). apply elem_of_cons. by left.
Defined.

(** X21.  The envelope of the tabs tool.  The four actions of the schema map
    to [tab_list], [tab_new], [tab_switch] and [tab_close]; the index is
    forwarded whenever it is given, 0 included (the test is against
    [undefined]), whereas an empty [url] is dropped (the test is for
    truthiness). *)
Theorem tabs_envelope id params :
  let cmd := tabs_cmd id params in
  (forall a, a ∈ ["list"; "new"; "switch"; "close"] -> t_action params = a ->
     cmd_action cmd = Some (VStr ("tab_" +:+ a))) /\
  JsMap.get "index" cmd =
    match t_index params with
    | VUndefined => None
    | index => Some index
    end /\
  JsMap.get "url" cmd =
    match t_url params with
    | Some u => if String.eqb u EmptyString then None else Some (VStr u)
    | None => None
    end.
Proof.
  cbv zeta. unfold tabs_cmd, cmd_action. split; [|split].
  - intros a Ha Hact. rewrite Hact.
    repeat (apply elem_of_cons in Ha as [->|Ha]);
      try (by apply elem_of_nil in Ha);
      destruct (t_index params); destruct (t_url params) as [[|? ?]|];
      vm_compute; reflexivity.
  - destruct (t_index params); destruct (t_url params) as [[|? ?]|];
      vm_compute; reflexivity.
  - destruct (t_index params); destruct (t_url params) as [[|? ?]|];
      vm_compute; reflexivity.
Qed.

Lemma tabs_envelope_witness :
  cmd_action (tabs_cmd (VStr "2000") (first_tab "s1")) = Some (VStr "tab_switch") /\
  JsMap.get "index" (tabs_cmd (VStr "2000") (first_tab "s1")) = Some (VNum 0) /\
  JsMap.get "url" (tabs_cmd (VStr "2000") (first_tab "s1")) = None.
Proof.
  destruct (tabs_envelope (VStr "2000") (first_tab "s1")) as (Ha & Hi & Hu).
  split; [|split].
  - apply (Ha "switch"); [|reflexivity].
    do 2 (apply elem_of_cons; right). apply elem_of_cons. by left.
  - exact Hi.
  - exact Hu.
Defined.

(** X22.  Record-stop with GIF conversion enabled and ffmpeg succeeding.  The
    converted file replaces the recording in everything that follows: the
    upload is given the GIF path, its file name and content type
    [image/gif], and the payload's [localPath] is the GIF path.  The GIF path
    is computed by [replace(".webm", ".gif")] and ffmpeg is run once, from
    [p] to that path. *)
Theorem gif_success_replaces_artifact cfg s3 io params w s st result p :
  JsMap.get (p_session params) (sessions w) = Some s ->
  heap w !! s = Some st ->
  recording st = true ->
  gif cfg = Some true ->
  on_executeCommand io (recording_stop_cmd w) = Fulfilled result ->
  final_path result st = Return (Some p) ->
  p ≠ EmptyString ->
  on_execSync io = Fulfilled tt ->
  let gifPath := replace ".webm" ".gif" p in
  let w_done := conversion_done s st p w in
  let filename := or_else (Some (split_pop gifPath EmptyString)) "video.webm" in
  let frames := data result ≫= JsMap.get "frames" in
  ab_record_stop cfg s3 io params w =
    (let! remoteUrl := uploadToR2 cfg s3 io (Some gifPath) filename "image/gif" in
     ret (PMedia (Some gifPath) remoteUrl frames
            (recording_markdown remoteUrl "image/gif"))) w_done /\
  (s3 = false \/ r2 cfg = None ->
      ab_record_stop cfg s3 io params w =
        (Return (PMedia (Some gifPath) None frames None), w_done)).
Proof.
  intros Hs Hst Hrec Hgif Hres Hpath Hp Hok. cbv zeta.
  assert (ab_record_stop cfg s3 io params w =
    (let! remoteUrl := uploadToR2 cfg s3 io (Some (replace ".webm" ".gif" p))
                         (or_else (Some (split_pop (replace ".webm" ".gif" p)
                                           EmptyString)) "video.webm")
                         "image/gif" in
     ret (PMedia (Some (replace ".webm" ".gif" p)) remoteUrl
            (data result ≫= JsMap.get "frames")
            (recording_markdown remoteUrl "image/gif")))
      (conversion_done s st p w)) as Heq.
  { rewrite (ab_record_stop_run _ _ _ _ _ _ _ Hs Hst Hrec). simpl. rewrite Hres.
    unfold record_stop_finish, bind at 1, deref. simpl. rewrite lookup_insert_eq.
    unfold bind at 1, complete.
    change (final_path result _) with (final_path result st). rewrite Hpath.
    rewrite Hgif.
    assert (String.eqb p EmptyString = false) as ->.
    { destruct p; [done | reflexivity]. }
    simpl.
    unfold bind at 1, try_catch, convertToGif, bind at 1, emit, await. simpl.
    rewrite Hok. unfold bind at 1. simpl.
    unfold conversion_done, with_trace, put_heap. simpl.
    by rewrite <- !(assoc_L (++)). }
  split; [done|].
  intros Hnone. rewrite Heq. unfold bind, uploadToR2.
  destruct Hnone as [-> | ->]; [done|]. by destruct s3.
Qed.

Lemma gif_success_replaces_artifact_witness :
  let io := {| on_launch := Fulfilled tt;
               on_executeCommand := fun _ => Fulfilled Sample.stopped;
               on_close := fun _ => Fulfilled tt; on_execSync := Fulfilled tt;
               on_readFileSync := Fulfilled tt; on_send := Fulfilled tt |} in
  let st := {| browser := 0; lastActivity := 3000; recording := true;
               recordingPath :=
                 Some "/tmp/agent-browser-plugin/s1-walkthrough.webm" |} in
  ab_record_stop Sample.config false io (Sample.params "s1")
    (advance 4000 Sample.w1_recording) =
    (Return (PMedia (Some "/tmp/test.gif") None (Some (VNum 100)) None),
     conversion_done 0%nat st "/tmp/test.webm" (advance 4000 Sample.w1_recording)).
Proof.
  cbv zeta.
  eapply (gif_success_replaces_artifact Sample.config false _
            (Sample.params "s1") (advance 4000 Sample.w1_recording) 0%nat
            {| browser := 0; lastActivity := 3000; recording := true;
               recordingPath := Some "/tmp/agent-browser-plugin/s1-walkthrough.webm" |}
            Sample.stopped "/tmp/test.webm").
  - vm_compute. reflexivity.
  - vm_compute. reflexivity.
  - reflexivity.
  - reflexivity.
  - reflexivity.
  - reflexivity.
  - discriminate.
  - reflexivity.
  - left. reflexivity.
Defined.

Lemma substring_full (s : string) :
  String.substring 0 (String.length s) s = s.
Proof. induction s as [|c s IH]; simpl; [done | by rewrite IH]. Qed.

Lemma string_app_nil_r (s : string) : s +:+ EmptyString = s.
Proof.
  induction s as [|c s IH]; [done|].
  change (String c (s +:+ EmptyString) = String c s). by rewrite IH.
Qed.

Lemma has_char_app c (a b : string) :
  has_char c (a +:+ b) = has_char c a || has_char c b.
Proof.
  induction a as [|x a IH]; [done|].
  change (Ascii.eqb c x || has_char c (a +:+ b) =
          Ascii.eqb c x || has_char c a || has_char c b).
  rewrite IH. by rewrite orb_assoc.
Qed.

Lemma prefix_head_ne a p c s :
  a <> c -> String.prefix (String a p) (String c s) = false.
Proof.
  intros Hne.
  change (String.prefix (String a p) (String c s))
    with (if ascii_dec a c then String.prefix p s else false).
  by destruct (ascii_dec a c).
Qed.

Lemma replace_cons_ne pat rep c s :
  String.prefix pat (String c s) = false ->
  replace pat rep (String c s) = String c (replace pat rep s).
Proof. intros Hpre. cbn [replace]. by rewrite Hpre. Qed.

(** X23.  The GIF path [p.replace(".webm", ".gif")].  A path that does not
    contain [".webm"] is returned as it is, so ffmpeg is then asked to
    convert the file onto itself; otherwise only the first occurrence is
    rewritten: for a stem without a dot, whatever follows the first
    [".webm"] (a second [".webm"] included) is kept. *)
Theorem gif_path_replace :
  (forall p, occurs ".webm" p = false -> replace ".webm" ".gif" p = p) /\
  (forall stem rest, has_char "." stem = false ->
     replace ".webm" ".gif" (stem +:+ ".webm" +:+ rest) = stem +:+ ".gif" +:+ rest).
Proof.
  split.
  - induction p as [|c p IH]; [done|].
    intros Hocc. simpl in Hocc. apply orb_false_iff in Hocc as [Hpre Hocc].
    simpl replace. simpl in Hpre. rewrite Hpre. by rewrite IH.
  - intros stem rest. induction stem as [|c stem IH]; intros Hdot.
    + change (EmptyString +:+ ".webm" +:+ rest) with (".webm" +:+ rest).
      change (EmptyString +:+ ".gif" +:+ rest) with (".gif" +:+ rest).
      change (".webm" +:+ rest)
        with (String "." (String "w" (String "e" (String "b" (String "m" rest))))).
      simpl. rewrite Nat.sub_0_r, substring_full. by destruct rest.
    + simpl in Hdot. apply orb_false_iff in Hdot as [Hc Hdot].
      change (String c stem +:+ ".webm" +:+ rest)
        with (String c (stem +:+ ".webm" +:+ rest)).
      change (String c stem +:+ ".gif" +:+ rest)
        with (String c (stem +:+ ".gif" +:+ rest)).
      assert ("."%char <> c) as Hne.
      { intros <-. vm_compute in Hc. discriminate Hc. }
      rewrite replace_cons_ne by (by apply prefix_head_ne).
      by rewrite IH.
Qed.

Lemma gif_path_replace_witness :
  replace ".webm" ".gif" "/tmp/shot.png" = "/tmp/shot.png" /\
  replace ".webm" ".gif" ("/tmp/a" +:+ ".webm" +:+ ".webm")
    = "/tmp/a" +:+ ".gif" +:+ ".webm".
Proof.
  destruct gif_path_replace as [Hsame Hfirst]. split.
  - apply Hsame. vm_compute. reflexivity.
  - apply Hfirst. vm_compute. reflexivity.
Defined.

Lemma split_pop_no_slash (s cur : string) :
  has_char "/" cur = false -> has_char "/" (split_pop s cur) = false.
Proof.
  revert cur. induction s as [|c s IH]; intros cur Hcur; [done|].
  simpl. destruct (Ascii.eqb c "/") eqn:Hc.
  - by apply IH.
  - apply IH. rewrite has_char_app, Hcur. cbn [has_char orb].
    rewrite Ascii.eqb_sym, Hc. reflexivity.
Qed.

Lemma split_pop_suffix (s cur : string) :
  exists pre, cur +:+ s = pre +:+ split_pop s cur /\
              (pre = EmptyString \/ exists d, pre = d +:+ "/").
Proof.
  revert cur. induction s as [|c s IH]; intros cur.
  - exists EmptyString. split; [|by left]. simpl. apply string_app_nil_r.
  - simpl. destruct (Ascii.eqb_spec c "/") as [->|Hne].
    + destruct (IH EmptyString) as (pre & Heq & Hpre).
      change (EmptyString +:+ s) with s in Heq.
      exists (cur +:+ "/" +:+ pre). split.
      * rewrite !string_app_assoc. rewrite <- Heq. reflexivity.
      * right. destruct Hpre as [->|[d ->]].
        -- exists cur. reflexivity.
        -- exists (cur +:+ "/" +:+ d). by rewrite !string_app_assoc.
    + destruct (IH (cur +:+ String c EmptyString)) as (pre & Heq & Hpre).
      exists pre. split; [|done]. rewrite <- Heq.
      by rewrite string_app_assoc.
Qed.

Lemma split_pop_plain (s cur : string) :
  has_char "/" s = false -> split_pop s cur = cur +:+ s.
Proof.
  revert cur. induction s as [|c s IH]; intros cur Hs.
  - simpl. by rewrite string_app_nil_r.
  - cbn [has_char] in Hs. apply orb_false_iff in Hs as [Hc Hs]. cbn [split_pop].
    rewrite Ascii.eqb_sym, Hc. rewrite IH by done.
    by rewrite string_app_assoc.
Qed.

Lemma split_pop_trailing_slash (d cur : string) :
  split_pop (d +:+ "/") cur = EmptyString.
Proof.
  revert cur. induction d as [|c d IH]; intros cur; [done|].
  change (String c d +:+ "/") with (String c (d +:+ "/")). simpl.
  destruct (Ascii.eqb c "/"); apply IH.
Qed.

(** X24.  The upload's file name [finalPath.split("/").pop() || "video.webm"].
    The last segment contains no slash and the path is that segment after
    either nothing or a prefix ending in a slash; a path without a slash is
    its own file name; and a path that ends in a slash has an empty last
    segment, so the file name falls back to ["video.webm"]. *)
Theorem upload_filename p :
  let name := split_pop p EmptyString in
  has_char "/" name = false /\
  (exists pre, p = pre +:+ name /\ (pre = EmptyString \/ exists d, pre = d +:+ "/")) /\
  (has_char "/" p = false -> name = p) /\
  (forall d, p = d +:+ "/" -> or_else (Some name) "video.webm" = "video.webm").
Proof.
  cbv zeta. split; [|split; [|split]].
  - by apply split_pop_no_slash.
  - apply (split_pop_suffix p EmptyString).
  - intros Hp. by rewrite split_pop_plain.
  - intros d ->. by rewrite split_pop_trailing_slash.
Qed.

Lemma upload_filename_witness :
  split_pop "shot.png" EmptyString = "shot.png" /\
  or_else (Some (split_pop ("/tmp/out" +:+ "/") EmptyString)) "video.webm"
    = "video.webm".
Proof.
  split.
  - apply (upload_filename "shot.png"). vm_compute. reflexivity.
  - destruct (upload_filename ("/tmp/out" +:+ "/")) as (_ & _ & _ & Hslash).
    apply (Hslash "/tmp/out"). reflexivity.
Defined.

(** X25.  The snapshot tool on a registered session.  One [snapshot] envelope
    goes to the session's browser, filtered to interactive elements unless
    [interactive] is given as false.  A rejected dispatch is rethrown.  An
    answered dispatch never makes the tool throw: the text is the snapshot
    exactly when the result carries a truthy one, and the whole result
    otherwise, which covers a failed result without [data] and an empty
    snapshot string. *)
Theorem snapshot_text cfg io params w s st :
  JsMap.get (sn_session params) (sessions w) = Some s ->
  heap w !! s = Some st ->
  let cmd := snapshot_cmd params w in
  let out := ab_snapshot cfg io params w in
  trace out.2 = trace w ++ [EvExecute cmd (browser st)] /\
  (JsMap.get "filter" cmd = Some (VStr "interactive") <->
     sn_interactive params <> Some false) /\
  (forall e, on_executeCommand io cmd = Rejected e -> out.1 = Throw e) /\
  (forall result, on_executeCommand io cmd = Fulfilled result ->
     (forall v, out.1 = Return (TheSnapshot v) <->
                data result ≫= JsMap.get "snapshot" = Some v /\ truthy v = true) /\
     ((forall v, data result ≫= JsMap.get "snapshot" = Some v -> truthy v = false) ->
      out.1 = Return (TheResult result))).
Proof.
  intros Hs Hst. cbv zeta.
  unfold ab_snapshot, bind. rewrite (getSession_found _ _ _ _ _ _ Hs Hst).
  unfold fresh_id, bind, Date_now, deref, executeCommand, bind, emit, await.
  simpl. rewrite !lookup_insert_eq. simpl.
  fold (snapshot_cmd params w).
  unfold ret, throw. split; [|split; [|split]].
  - destruct (on_executeCommand io _) as [result|e]; [|reflexivity].
    destruct (data result ≫= JsMap.get "snapshot") as [v|]; [|reflexivity].
    by destruct (truthy v).
  - destruct (sn_interactive params) as [[]|]; simpl; split; congruence.
  - intros e ->. reflexivity.
  - intros result ->. simpl. split.
    + intros v. destruct (data result ≫= JsMap.get "snapshot") as [v'|] eqn:Hd.
      * destruct (truthy v') eqn:Ht; simpl; split.
        -- intros [= <-]. done.
        -- intros [[= <-] _]. done.
        -- intros [=].
        -- intros [[= <-] Hv]. congruence.
      * simpl. split; [intros [=] | intros [[=] _]].
    + intros Hnone. destruct (data result ≫= JsMap.get "snapshot") as [v'|] eqn:Hd;
        [|reflexivity].
      by rewrite (Hnone v' eq_refl).
Qed.

Lemma snapshot_text_witness :
  (ab_snapshot Sample.config Sample.io
     {| sn_session := "s1"; sn_interactive := None |} (advance 2000 Sample.w1)).1
  = Return (TheResult Sample.stopped).
Proof.
  destruct (snapshot_text Sample.config Sample.io
              {| sn_session := "s1"; sn_interactive := None |}
              (advance 2000 Sample.w1) 0%nat
              {| browser := 0; lastActivity := 1000;
                 recording := false; recordingPath := None |})
    as (_ & _ & _ & Hres).
  - vm_compute. reflexivity.
  - vm_compute. reflexivity.
  - destruct (Hres Sample.stopped eq_refl) as [_ Hfallback].
    apply Hfallback. intros v. vm_compute. discriminate.
Defined.
